(** * The block-execution engine of the client (class [VMExecution])

    A shallow embedding of [VMExecution] (the second document of
    [packages/client/src/flat/snapshot.ts]): the gate wrapper [runWithLock],
    [runWithoutSetHead], [setHead] and [run] with its per-block callback and
    its error handler.

    The engine is an object with mutable fields that talks to a blockchain
    store, a VM with a state manager, a receipts manager, a protocol-parameter
    table and a logger.  All of them are gathered in one record [World] that
    every operation threads explicitly; an exception is a [Throw] result next
    to the world reached when it was raised, since JavaScript keeps the
    mutations made before a [throw].  Calls to the collaborators that matter
    for ordering properties are also appended to a [trace].

    Wall-clock measurements (the slow-block warning), the statistics handle
    [_statsVm], the transaction counter that only feeds a log line and the
    promise handle [vmPromise] are left out: no result, cursor or table
    depends on them.  An [await] is a plain call: what other tasks may do at
    a suspension point is outside the sequential model, except for the gate,
    whose interleavings are modelled on their own in [Gate].

    The [while] loop of [run] need not terminate, so [run] takes a bound on
    the number of passes and answers [None] when the bound is reached. *)

From stdpp Require Import gmap strings list.
From Stdlib Require Import ZArith Ascii String.

Open Scope Z_scope.

(** ** Plain data *)

(** A 32-byte digest is represented by the number it encodes.  The engine
    only compares digests ([equalsBytes]) and uses their hexadecimal form
    ([bytesToHex], injective) as a map key, so a map keyed by the hex string
    is a map keyed by the digest. *)
Abbreviation Hash := N (only parsing).
Abbreviation Root := N (only parsing).
Abbreviation Tx := N (only parsing).
Abbreviation TxReceipt := N (only parsing).

Record BlockHeader := {
  parentHash : Hash;
  number : Z;            (* bigint *)
  stateRoot : Root;
  timestamp : Z;
  difficulty : Z
}.

Record Block := {
  header : BlockHeader;
  transactions : list Tx;
  hash : Hash            (* block.hash() *)
}.

Definition equalsBytes (a b : N) : bool := N.eqb a b.

(** A thrown [Error] is represented by its message. *)
Inductive Result (A : Type) : Type :=
| Ok (a : A)
| Throw (message : string).
Arguments Ok {A} a.
Arguments Throw {A} message.

Inductive ConsensusType := ProofOfStake | ProofOfWork | ProofOfAuthority.

(** Options of [vm.runBlock]; absent properties are [None]. *)
Record RunBlockOpts := {
  opt_block : Block;
  opt_root : option Root;
  opt_clearCache : option bool;
  opt_skipBlockValidation : option bool;
  opt_skipHeaderValidation : option bool
}.

Record RunBlockResult := {
  res_receipts : list TxReceipt;
  res_gasUsed : Z
}.

(** Composable writes of the store's [dbManager] (§6 of the design notes). *)
Inductive DBOp :=
| SetTD (h : Hash) (td : Z)
| SetHeader (h : Hash) (hd : BlockHeader)
| SetBody (h : Hash) (body : list Tx)
| SetHashToNumber (h : Hash) (n : Z)
| SetNumberToHash (n : Z) (h : Hash).

Inductive LogMsg :=
| LogRunning
| LogReorg (headNumber : Z)
| LogHardforkSwitch (n : Z) (h : Hash) (old new : string)
| LogBackStep (to : Hash)
| LogBackStepFailed
| LogExecutionFailed
| LogVMFailed
| LogExecuted (count : Z)
| LogNoneExecuted.

Inductive Event :=
| EvLockAcquire
| EvLockRelease
| EvRunBlock (opts : RunBlockOpts)
| EvPutBlocks (bs : list Block)
| EvBatch (ops : list DBOp)
| EvSetIteratorHead (name : string) (h : Hash)
| EvSaveReceipts (b : Block) (rs : list TxReceipt)
| EvChainUpdate
| EvDebugReplay (b : Block)
| EvVMError (message : string)      (* Event.SYNC_EXECUTION_VM_ERROR *)
| EvLog (m : LogMsg).

(** ** Strings: [toLowerCase] and [includes] on ASCII text *)

Module Util.

Definition lowerChar (c : ascii) : ascii :=
  let n := nat_of_ascii c in
  if (Nat.leb 65 n && Nat.leb n 90)%bool then ascii_of_nat (n + 32) else c.

Fixpoint toLowerCase (s : string) : string :=
  match s with
  | EmptyString => EmptyString
  | String c r => String (lowerChar c) (toLowerCase r)
  end.

Fixpoint includes (s needle : string) : bool :=
  (String.prefix needle s ||
   match s with
   | EmptyString => false
   | String _ r => includes r needle
   end)%bool.

(** The template literal [`${error}`] of an [Error] object. *)
Definition errorToString (message : string) : string :=
  ("Error: " ++ message)%string.

End Util.

(** ** The blockchain store *)

Record Chain := {
  db_td : gmap N Z;                    (* hash -> total difficulty *)
  db_header : gmap N BlockHeader;      (* hash -> header *)
  db_body : gmap N (list N);           (* hash -> body *)
  db_hashToNumber : gmap N Z;          (* hash -> number *)
  db_numberToHash : gmap Z N;          (* number -> hash, canonical only *)
  heads : gmap string N;               (* named iterator cursors *)
  headBlockHash : N                    (* canonical head *)
}.

Definition set_heads (f : gmap string N -> gmap string N) (c : Chain) : Chain :=
  {| db_td := db_td c; db_header := db_header c; db_body := db_body c;
     db_hashToNumber := db_hashToNumber c; db_numberToHash := db_numberToHash c;
     heads := f (heads c); headBlockHash := headBlockHash c |}.

Module Blockchain.

(** Modelled from the spec: the store's [getBlock(numberOrHash)] is not part
    of the sources at hand.  A block is rebuilt from the header and body
    records kept under its hash; a lookup by number goes through the
    canonical number->hash table. *)
Definition getBlockByHash (h : Hash) (c : Chain) : option Block :=
  match db_header c !! h, db_body c !! h with
  | Some hd, Some body => Some {| header := hd; transactions := body; hash := h |}
  | _, _ => None
  end.

(** Modelled from the spec: [getBlock(number)] follows the canonical
    number->hash table ("per number -> hash (canonical only)"). *)
Definition getBlockByNumber (n : Z) (c : Chain) : option Block :=
  match db_numberToHash c !! n with
  | Some h => getBlockByHash h c
  | None => None
  end.

(** Modelled from the spec: a lookup of the store that finds nothing fails. *)
Definition notFound : string := "not found in DB".

(** Modelled from the spec: [getBlock(hash)]. *)
Definition getBlock (h : Hash) (c : Chain) : Result Block :=
  match getBlockByHash h c with Some b => Ok b | None => Throw notFound end.

(** Modelled from the spec: [getBlock(number)]. *)
Definition getBlockNum (n : Z) (c : Chain) : Result Block :=
  match getBlockByNumber n c with Some b => Ok b | None => Throw notFound end.

(** Modelled from the spec: [iteratorHead(name)]; a cursor that was never
    set stands on the genesis block. *)
Definition getIteratorHead (name : string) (c : Chain) : Result Block :=
  match heads c !! name with
  | Some h => getBlock h c
  | None => getBlockNum 0 c
  end.

(** Modelled from the spec: [canonicalHead()]. *)
Definition getCanonicalHeadBlock (c : Chain) : Result Block :=
  getBlock (headBlockHash c) c.

(** Modelled from the spec: [getTotalDifficulty(hash)]. *)
Definition getTotalDifficulty (h : Hash) (c : Chain) : Result Z :=
  match db_td c !! h with Some td => Ok td | None => Throw notFound end.

(** Modelled from the spec: [setIteratorHead(name, hash)] stores the cursor. *)
Definition setIteratorHead (name : string) (h : Hash) (c : Chain) : Chain :=
  set_heads (insert name h) c.

(** Modelled from the spec: the write operations [DBSetTD],
    [DBSetBlockOrHeader], [DBSetHashToNumber] and [DBSaveLookups] build lists
    of [DBOp]; [DBSaveLookups] leaves the number->hash write out when its
    third argument is [true]. *)
Definition DBSetTD (td : Z) (num : Z) (h : Hash) : DBOp := SetTD h td.

Definition DBSetBlockOrHeader (b : Block) : list DBOp :=
  [SetHeader (hash b) (header b); SetBody (hash b) (transactions b)].

Definition DBSetHashToNumber (h : Hash) (num : Z) : DBOp := SetHashToNumber h num.

Definition DBSaveLookups (h : Hash) (num : Z) (skipNumIndex : bool) : list DBOp :=
  (if skipNumIndex then [] else [SetNumberToHash num h]) ++ [SetHashToNumber h num].

(** Modelled from the spec: each write sets one record of the persisted
    layout ("per hash -> total difficulty", "per block hash -> encoded block +
    header", "per hash -> number", "per number -> hash"). *)
Definition applyOp (op : DBOp) (c : Chain) : Chain :=
  match op with
  | SetTD h td =>
      {| db_td := <[h := td]> (db_td c); db_header := db_header c; db_body := db_body c;
         db_hashToNumber := db_hashToNumber c; db_numberToHash := db_numberToHash c;
         heads := heads c; headBlockHash := headBlockHash c |}
  | SetHeader h hd =>
      {| db_td := db_td c; db_header := <[h := hd]> (db_header c); db_body := db_body c;
         db_hashToNumber := db_hashToNumber c; db_numberToHash := db_numberToHash c;
         heads := heads c; headBlockHash := headBlockHash c |}
  | SetBody h body =>
      {| db_td := db_td c; db_header := db_header c; db_body := <[h := body]> (db_body c);
         db_hashToNumber := db_hashToNumber c; db_numberToHash := db_numberToHash c;
         heads := heads c; headBlockHash := headBlockHash c |}
  | SetHashToNumber h n =>
      {| db_td := db_td c; db_header := db_header c; db_body := db_body c;
         db_hashToNumber := <[h := n]> (db_hashToNumber c);
         db_numberToHash := db_numberToHash c;
         heads := heads c; headBlockHash := headBlockHash c |}
  | SetNumberToHash n h =>
      {| db_td := db_td c; db_header := db_header c; db_body := db_body c;
         db_hashToNumber := db_hashToNumber c;
         db_numberToHash := <[n := h]> (db_numberToHash c);
         heads := heads c; headBlockHash := headBlockHash c |}
  end.

(** Modelled from the spec: [dbManager.batch(ops)] applies the writes of one
    batch, in order, as one step. *)
Definition batch (ops : list DBOp) (c : Chain) : Chain :=
  fold_left (fun acc op => applyOp op acc) ops c.

End Blockchain.

(** ** The VM and its state manager *)

Record VMState := {
  roots : gset N;        (* state roots present in the state trie *)
  curRoot : N            (* stateManager.getStateRoot() *)
}.

Module Vm.

Definition getStateRoot (s : VMState) : Root := curRoot s.

Definition hasStateRoot (r : Root) (s : VMState) : bool := bool_decide (r ∈ roots s).

End Vm.

(** ** Collaborators taken as parameters

    [vm.runBlock], [chain.putBlocks] and the hardfork table of [Common] are
    not part of the sources at hand.  They are parameters: the results below
    hold for every behaviour of them unless a hypothesis says otherwise. *)
Record Collaborators := {
  vm_runBlock : RunBlockOpts -> VMState -> Result RunBlockResult * VMState;
  chain_putBlocks : list Block -> Chain -> Result unit * Chain;
  common_getHardforkBy : Z -> Z -> Z -> string   (* blockNumber, td, timestamp *)
}.

(** ** The engine and the world it runs in *)

Record World := {
  started : bool;                               (* Execution.started *)
  shutdown : bool;                              (* config.shutdown *)
  running : bool;                               (* Execution.running *)
  hardfork : string;                            (* VMExecution.hardfork *)
  commonHardfork : string;                      (* config.execCommon.hardfork() *)
  consensusType : ConsensusType;                (* config.execCommon.consensusType() *)
  numBlocksPerIteration : nat;                  (* config.numBlocksPerIteration *)
  debugCode : bool;                             (* config.debugCode *)
  pendingReceipts : option (gmap N (list N));   (* Map<hex hash, TxReceipt[]> or undefined *)
  receiptsManager : option (gmap N (list N));   (* saved receipts by block hash, or undefined *)
  chain : Chain;
  vm : VMState;
  trace : list Event
}.

Definition set_running (b : bool) (w : World) : World :=
  {| started := started w; shutdown := shutdown w; running := b;
     hardfork := hardfork w; commonHardfork := commonHardfork w;
     consensusType := consensusType w;
     numBlocksPerIteration := numBlocksPerIteration w; debugCode := debugCode w;
     pendingReceipts := pendingReceipts w; receiptsManager := receiptsManager w;
     chain := chain w; vm := vm w; trace := trace w |}.

Definition set_hardfork (hf : string) (w : World) : World :=
  {| started := started w; shutdown := shutdown w; running := running w;
     hardfork := hf; commonHardfork := commonHardfork w;
     consensusType := consensusType w;
     numBlocksPerIteration := numBlocksPerIteration w; debugCode := debugCode w;
     pendingReceipts := pendingReceipts w; receiptsManager := receiptsManager w;
     chain := chain w; vm := vm w; trace := trace w |}.

Definition set_commonHardfork (hf : string) (w : World) : World :=
  {| started := started w; shutdown := shutdown w; running := running w;
     hardfork := hardfork w; commonHardfork := hf;
     consensusType := consensusType w;
     numBlocksPerIteration := numBlocksPerIteration w; debugCode := debugCode w;
     pendingReceipts := pendingReceipts w; receiptsManager := receiptsManager w;
     chain := chain w; vm := vm w; trace := trace w |}.

Definition set_pendingReceipts (p : option (gmap N (list N))) (w : World) : World :=
  {| started := started w; shutdown := shutdown w; running := running w;
     hardfork := hardfork w; commonHardfork := commonHardfork w;
     consensusType := consensusType w;
     numBlocksPerIteration := numBlocksPerIteration w; debugCode := debugCode w;
     pendingReceipts := p; receiptsManager := receiptsManager w;
     chain := chain w; vm := vm w; trace := trace w |}.

Definition set_receiptsManager (r : option (gmap N (list N))) (w : World) : World :=
  {| started := started w; shutdown := shutdown w; running := running w;
     hardfork := hardfork w; commonHardfork := commonHardfork w;
     consensusType := consensusType w;
     numBlocksPerIteration := numBlocksPerIteration w; debugCode := debugCode w;
     pendingReceipts := pendingReceipts w; receiptsManager := r;
     chain := chain w; vm := vm w; trace := trace w |}.

Definition set_chain (c : Chain) (w : World) : World :=
  {| started := started w; shutdown := shutdown w; running := running w;
     hardfork := hardfork w; commonHardfork := commonHardfork w;
     consensusType := consensusType w;
     numBlocksPerIteration := numBlocksPerIteration w; debugCode := debugCode w;
     pendingReceipts := pendingReceipts w; receiptsManager := receiptsManager w;
     chain := c; vm := vm w; trace := trace w |}.

Definition set_vm (s : VMState) (w : World) : World :=
  {| started := started w; shutdown := shutdown w; running := running w;
     hardfork := hardfork w; commonHardfork := commonHardfork w;
     consensusType := consensusType w;
     numBlocksPerIteration := numBlocksPerIteration w; debugCode := debugCode w;
     pendingReceipts := pendingReceipts w; receiptsManager := receiptsManager w;
     chain := chain w; vm := s; trace := trace w |}.

(** Appends one event to the trace (the trace is in chronological order). *)
Definition emit (e : Event) (w : World) : World :=
  {| started := started w; shutdown := shutdown w; running := running w;
     hardfork := hardfork w; commonHardfork := commonHardfork w;
     consensusType := consensusType w;
     numBlocksPerIteration := numBlocksPerIteration w; debugCode := debugCode w;
     pendingReceipts := pendingReceipts w; receiptsManager := receiptsManager w;
     chain := chain w; vm := vm w; trace := trace w ++ [e] |}.

(** ** A state-and-exception monad over the world *)

Definition M (A : Type) : Type := World -> Result A * World.

Definition ret {A} (a : A) : M A := fun w => (Ok a, w).

Definition throw {A} (message : string) : M A := fun w => (Throw message, w).

Definition bind {A B} (c : M A) (k : A -> M B) : M B :=
  fun w =>
    match c w with
    | (Ok a, w') => k a w'
    | (Throw e, w') => (Throw e, w')
    end.

Definition modify (f : World -> World) : M unit := fun w => (Ok tt, f w).

Definition gets {A} (f : World -> A) : M A := fun w => (Ok (f w), w).

Definition lift {A} (f : World -> Result A) : M A := fun w => (f w, w).

(** [try { c } finally { f }], for any kind of outcome [R] of [c]. *)
Definition finally {R} (c : World -> R * World) (f : World -> World) : World -> R * World :=
  fun w => let '(r, w') := c w in (r, f w').

Declare Scope engine_scope.
Delimit Scope engine_scope with engine.
Notation "x <- c ;; k" := (bind c (fun x => k))
  (at level 100, c at next level, right associativity) : engine_scope.
Notation "c ;; k" := (bind c (fun _ => k))
  (at level 100, right associativity) : engine_scope.
Open Scope engine_scope.

(** ** Receipts manager *)

Module ReceiptsManager.

(** Modelled from the spec: [saveReceipts(block, receipts)] keeps the receipt
    list under the block hash.  The engine calls it as
    [void this.receiptsManager?.saveReceipts(..)]: nothing happens when there
    is no receipts manager, and the write, which the engine does not await,
    is taken to happen at the call. *)
Definition saveReceipts (b : Block) (rs : list TxReceipt) (w : World) : World :=
  match receiptsManager w with
  | Some db => emit (EvSaveReceipts b rs) (set_receiptsManager (Some (<[hash b := rs]> db)) w)
  | None => w
  end.

End ReceiptsManager.

(** ** [VMExecution] *)

Section VMExecution.

Variable C : Collaborators.

(** [try { await this._lock.acquire(); return await action() }
     finally { this._lock.release() }], seen from the task that holds the
    gate; the interleaving of several tasks is the subject of [Gate]. *)
Definition runWithLock {R} (action : World -> R * World) : World -> R * World :=
  finally (fun w => action (emit EvLockAcquire w)) (emit EvLockRelease).

(** [this.vm.runBlock(opts)] *)
Definition runBlock (opts : RunBlockOpts) : M RunBlockResult :=
  fun w =>
    let w1 := emit (EvRunBlock opts) w in
    let '(r, s) := vm_runBlock C opts (vm w1) in
    (r, set_vm s w1).

(** [this.chain.blockchain.setIteratorHead(name, hash)] *)
Definition setIteratorHead (name : string) (h : Hash) : M unit :=
  modify (fun w =>
    emit (EvSetIteratorHead name h) (set_chain (Blockchain.setIteratorHead name h (chain w)) w)).

(** [this.chain.putBlocks(blocks, true, true)] *)
Definition putBlocks (blocks : list Block) : M unit :=
  fun w =>
    let '(r, c) := chain_putBlocks C blocks (chain w) in
    (r, set_chain c (emit (EvPutBlocks blocks) w)).

(** [this.chain.blockchain.dbManager.batch(ops)] *)
Definition dbBatch (ops : list DBOp) : M unit :=
  modify (fun w => set_chain (Blockchain.batch ops (chain w)) (emit (EvBatch ops) w)).

(** The object literal [{ clearCache, ...opts }]: a [clearCache] property of
    [opts] itself comes later in the literal and wins. *)
Definition withClearCache (clearCache : bool) (opts : RunBlockOpts) : RunBlockOpts :=
  {| opt_block := opt_block opts;
     opt_root := opt_root opts;
     opt_clearCache := Some (default clearCache (opt_clearCache opts));
     opt_skipBlockValidation := opt_skipBlockValidation opts;
     opt_skipHeaderValidation := opt_skipHeaderValidation opts |}.

(** [this.pendingReceipts?.set(bytesToHex(block.hash()), receipts)] *)
Definition stashReceipts (b : Block) (rs : list TxReceipt) (w : World) : World :=
  match pendingReceipts w with
  | Some m => set_pendingReceipts (Some (<[hash b := rs]> m)) w
  | None => w
  end.

(** The writes that [runWithoutSetHead] hands to [dbManager.batch]. *)
Definition stagingOps (block : Block) (parentTd : Z) : list DBOp :=
  let h := hash block in
  let num := number (header block) in
  let td := parentTd + difficulty (header block) in
  [Blockchain.DBSetTD td num h]
    ++ Blockchain.DBSetBlockOrHeader block
    ++ [Blockchain.DBSetHashToNumber h num]
    ++ Blockchain.DBSaveLookups h num true.   (* skip number->hash: the canonical chain stays *)

Definition runWithoutSetHead (opts : RunBlockOpts) (receipts : option (list TxReceipt))
    (blocking skipBlockchain : bool) : M bool :=
  fun w =>
    if (negb blocking && running w) || negb (started w) || shutdown w then (Ok false, w)
    else
      (runWithLock
         (finally
            (modify (set_running true) ;;
             let block := opt_block opts in
             let root := opt_root opts in
             rs <- match receipts with
                   | None =>
                       prevVMStateRoot <- gets (fun w => Vm.getStateRoot (vm w)) ;;
                       let parentState := default prevVMStateRoot root in
                       let clearCache := negb (equalsBytes prevVMStateRoot parentState) in
                       result <- runBlock (withClearCache clearCache opts) ;;
                       ret (res_receipts result)
                   | Some rs => ret rs
                   end ;;
             modify (stashReceipts block rs) ;;
             if skipBlockchain then ret tt
             else
               (* this.chain.getTd(block.header.parentHash, block.header.number - 1n) *)
               parentTd <- lift (fun w =>
                  Blockchain.getTotalDifficulty (parentHash (header block)) (chain w)) ;;
               dbBatch (stagingOps block parentTd))
            (set_running false)) ;;
       ret true) w.

(** One turn of [for (const block of blocks)] in [setHead]: an entry of
    [pendingReceipts] (an array, hence truthy) is handed to the receipts
    manager and deleted. *)
Definition drainOne (w : World) (b : Block) : World :=
  match pendingReceipts w with
  | Some m =>
      match m !! hash b with
      | Some rs =>
          let w1 := ReceiptsManager.saveReceipts b rs w in
          set_pendingReceipts (Some (delete (hash b) m)) w1
      | None => w
      end
  | None => w
  end.

Definition drainPending (blocks : list Block) : M unit :=
  modify (fun w => fold_left drainOne blocks w).

(** The loop over [chainPointers]; the test [block === null] never holds for
    an element of the declared type [[string, Block]]. *)
Fixpoint checkCanonical (chainPointers : list (string * Block)) : M unit :=
  match chainPointers with
  | [] => ret tt
  | (blockName, block) :: rest =>
      blockByNumber <- lift (fun w => Blockchain.getBlockNum (number (header block)) (chain w)) ;;
      if negb (equalsBytes (hash blockByNumber) (hash block))
      then throw (blockName ++ " not in canonical chain")%string
      else checkCanonical rest
  end.

(** [blocks[blocks.length - 1]] of an empty array is [undefined], and reading
    its [header] throws a [TypeError].  The message of the state-root error
    is given without the block number and the root it interpolates. *)
Definition setHead (blocks : list Block) (finalizedBlock safeBlock : option Block) : M bool :=
  fun w =>
    if negb (started w) || shutdown w then (Ok false, w)
    else
      runWithLock
        (match last blocks with
         | None => throw "Cannot read properties of undefined (reading 'header')"
         | Some vmHeadBlock =>
             let chainPointers := [("vmHeadBlock"%string, vmHeadBlock)] in
             has <- gets (fun w => Vm.hasStateRoot (stateRoot (header vmHeadBlock)) (vm w)) ;;
             if negb has then throw "vmHeadBlock's stateRoot not found"
             else
               putBlocks blocks ;;
               drainPending blocks ;;
               checkCanonical chainPointers ;;
               setIteratorHead "vm" (hash vmHeadBlock) ;;
               match safeBlock with
               | Some b => setIteratorHead "safe" (hash b)
               | None => ret tt
               end ;;
               match finalizedBlock with
               | Some b => setIteratorHead "finalized" (hash b)
               | None => ret tt
               end ;;
               modify (emit EvChainUpdate) ;;
               ret true
         end) w.

(** *** [run] *)

(** [numExecuted: number | null | undefined] *)
Inductive NumExecuted := Undefined | Null | Num (n : Z).

(** The variables of [run] that its callbacks close over. *)
Record RunLocals := {
  headBlock : option Block;
  parentState : option Root;
  errorBlock : option Block;
  clearCache : bool
}.

Definition set_clearCache (b : bool) (l : RunLocals) : RunLocals :=
  {| headBlock := headBlock l; parentState := parentState l;
     errorBlock := errorBlock l; clearCache := b |}.

Definition set_errorBlock (b : option Block) (l : RunLocals) : RunLocals :=
  {| headBlock := headBlock l; parentState := parentState l;
     errorBlock := b; clearCache := clearCache l |}.

Definition set_headBlock (hb : Block) (l : RunLocals) : RunLocals :=
  {| headBlock := Some hb; parentState := Some (stateRoot (header hb));
     errorBlock := errorBlock l; clearCache := clearCache l |}.

(** Modelled from the spec: [setHardforkBy] of the protocol-parameter table
    "mutates and returns" the tag that [getHardforkBy] computes. *)
Definition setHardforkBy (blockNumber td ts : Z) : M string :=
  fun w =>
    let hf := common_getHardforkBy C blockNumber td ts in
    (Ok hf, set_commonHardfork hf w).

(** The [try] block of the per-block callback, up to the two assignments
    that make [block] the new [headBlock]. *)
Definition executeBlock (block : Block) (l : RunLocals) : M unit :=
  let n := number (header block) in
  let ts := timestamp (header block) in
  td <- lift (fun w => Blockchain.getTotalDifficulty (parentHash (header block)) (chain w)) ;;
  let hf := common_getHardforkBy C n td ts in
  old <- gets hardfork ;;
  (if negb (String.eqb hf old) then
     modify (emit (EvLog (LogHardforkSwitch n (hash block) old hf))) ;;
     new <- setHardforkBy n td ts ;;
     modify (set_hardfork new)
   else ret tt) ;;
  ct <- gets consensusType ;;
  let skipBlockValidation :=
    match ct with ProofOfAuthority => true | _ => false end in
  isStarted <- gets started ;;
  if negb isStarted then throw "Execution stopped"
  else
    result <- runBlock {| opt_block := block;
                          opt_root := parentState l;
                          opt_clearCache := Some (clearCache l);
                          opt_skipBlockValidation := Some skipBlockValidation;
                          opt_skipHeaderValidation := Some true |} ;;
    modify (ReceiptsManager.saveReceipts block (res_receipts result)).

(** The callback handed to [blockchain.iterator]. *)
Definition onBlock (block : Block) (reorg : bool) (l : RunLocals) (w : World)
  : Result unit * RunLocals * World :=
  let '(r0, l1, w1) :=
    if (bool_decide (headBlock l = None) || reorg)%bool then
      match Blockchain.getBlock (parentHash (header block)) (chain w) with
      | Throw e => (Throw e, l, w)
      | Ok hb =>
          let l' := set_headBlock hb l in
          if reorg then
            (Ok tt, set_clearCache true l', emit (EvLog (LogReorg (number (header hb)))) w)
          else
            let prevVMStateRoot := Vm.getStateRoot (vm w) in
            (Ok tt,
             set_clearCache (negb (equalsBytes prevVMStateRoot (stateRoot (header hb)))) l',
             w)
      end
    else (Ok tt, set_clearCache false l, w) in
  match r0 with
  | Throw e => (Throw e, l1, w1)
  | Ok _ =>
      match executeBlock block l1 w1 with
      | (Ok _, w2) => (Ok tt, set_headBlock block l1, w2)
      | (Throw e, w2) => (Throw e, set_errorBlock (Some block) l1, w2)
      end
  end.

(** Modelled from the spec: [blockchain.iterator(name, onBlock, maxBlocks,
    releaseLock)] delivers the canonical successors of the named cursor in
    order, at most [maxBlocks] of them, and stops at the first number that
    has no canonical block.  After a callback that returns, the cursor stands
    on the delivered block; a callback that throws ends the iteration with
    the cursor on the last block that went through.  [reorg] is announced
    when the delivered block does not extend the previously delivered one.
    The result is the number of blocks delivered. *)
Fixpoint iterate {L} (name : string)
    (cb : Block -> bool -> L -> World -> Result unit * L * World)
    (maxBlocks : nat) (nextNumber : Z) (lastBlock : option Block) (ran : Z)
    (l : L) (w : World) : Result Z * L * World :=
  match maxBlocks with
  | O => (Ok ran, l, w)
  | S k =>
      match Blockchain.getBlockByNumber nextNumber (chain w) with
      | None => (Ok ran, l, w)
      | Some nextBlock =>
          let reorg :=
            match lastBlock with
            | Some lb => negb (equalsBytes (hash lb) (parentHash (header nextBlock)))
            | None => false
            end in
          match cb nextBlock reorg l w with
          | (Throw e, l', w') => (Throw e, l', w')
          | (Ok _, l', w') =>
              let w'' := set_chain (set_heads (insert name (hash nextBlock)) (chain w')) w' in
              iterate name cb k (nextNumber + 1) (Some nextBlock) (ran + 1) l' w''
          end
      end
  end.

Definition iterator {L} (name : string)
    (cb : Block -> bool -> L -> World -> Result unit * L * World)
    (maxBlocks : nat) (l : L) (w : World) : Result Z * L * World :=
  match Blockchain.getIteratorHead name (chain w) with
  | Throw e => (Throw e, l, w)
  | Ok head => iterate name cb maxBlocks (number (header head) + 1) None 0 l w
  end.

Definition missingRootPhrase : string := "does not contain state root".

(** The [.catch] handler attached to the iterator's promise.  [Number(..)]
    of the difference of two block numbers is taken to be exact. *)
Definition onIteratorError (error : string) (l : RunLocals) (startHeadBlock : Block)
  : M NumExecuted :=
  match errorBlock l with
  | Some eb =>
      let n := number (header eb) in
      (if (Util.includes (Util.toLowerCase (Util.errorToString error)) missingRootPhrase
           && (1 <? n))%bool
       then
         let '(hasParentStateRoot, backStepToHash) :=
           match headBlock l with
           | Some hb =>
               (fun w : World => Vm.hasStateRoot (stateRoot (header hb)) (vm w),
                Some (parentHash (header hb)))
           | None => (fun _ : World => false, None)
           end in
         has <- gets hasParentStateRoot ;;
         match has, backStepToHash with
         | true, Some h =>
             modify (emit (EvLog (LogBackStep h))) ;;
             setIteratorHead "vm" h
         | _, _ => modify (emit (EvLog LogBackStepFailed))
         end
       else modify (emit (EvLog LogExecutionFailed))) ;;
      dbg <- gets debugCode ;;
      (if dbg then modify (emit (EvDebugReplay eb)) else ret tt) ;;
      modify (emit (EvVMError error)) ;;
      let actualExecuted := n - number (header startHeadBlock) in
      ret (Num actualExecuted)
  | None =>
      modify (emit (EvLog LogVMFailed)) ;;
      ret Null
  end.

(** The variables of [run] that the [while] loop updates. *)
Record LoopState := {
  startHeadBlock : Block;
  canonicalHead : Block;
  numExecuted : NumExecuted;
  locals : RunLocals
}.

Definition loopCondition (loop runOnlybatched : bool) (st : LoopState) (w : World) : bool :=
  (started w
   && negb (shutdown w)
   && (negb runOnlybatched
       || (runOnlybatched
           && (Z.of_nat (numBlocksPerIteration w)
               <=? number (header (canonicalHead st)) - number (header (startHeadBlock st)))))
   && match numExecuted st with
      | Undefined => true
      | Null => false
      | Num n => loop && (n =? Z.of_nat (numBlocksPerIteration w))
      end
   && negb (equalsBytes (hash (startHeadBlock st)) (hash (canonicalHead st))))%bool.

(** [headBlock = undefined; parentState = undefined; errorBlock = undefined]
    at the top of the loop body; [clearCache] keeps its value. *)
Definition passLocals (st : LoopState) : RunLocals :=
  {| headBlock := None; parentState := None; errorBlock := None;
     clearCache := clearCache (locals st) |}.

(** The end of the loop body, after [numExecuted = await this.vmPromise]:
    unless the pass ended with [null], the start head and the canonical head
    are read again. *)
Definition refreshHeads (st : LoopState) (l1 : RunLocals) (ne : NumExecuted) : M LoopState :=
  match ne with
  | Null =>
      ret {| startHeadBlock := startHeadBlock st; canonicalHead := canonicalHead st;
             numExecuted := Null; locals := l1 |}
  | _ =>
      endHeadBlock <- lift (fun w => Blockchain.getIteratorHead "vm" (chain w)) ;;
      modify (emit (EvLog (match ne with
                           | Num n => if 0 <? n then LogExecuted n else LogNoneExecuted
                           | _ => LogNoneExecuted
                           end))) ;;
      newCanonical <- lift (fun w => Blockchain.getCanonicalHeadBlock (chain w)) ;;
      ret {| startHeadBlock := endHeadBlock; canonicalHead := newCanonical;
             numExecuted := ne; locals := l1 |}
  end.

(** The body of the [while] loop: one pass of the iterator, its error
    handler, and the refresh of [startHeadBlock] and [canonicalHead]. *)
Definition runPass (st : LoopState) : M LoopState :=
  fun w =>
    let '(r, l1, w1) :=
      iterator "vm" onBlock (numBlocksPerIteration w) (passLocals st) w in
    let '(rn, w2) :=
      match r with
      | Ok count => (Ok (Num count), w1)
      | Throw e => onIteratorError e l1 st.(startHeadBlock) w1
      end in
    match rn with
    | Throw e => (Throw e, w2)
    | Ok ne => refreshHeads st l1 ne w2
    end.

(** The [while] loop.  [fuel] bounds the number of passes; the outcome is
    [None] when the loop is still going after [fuel] passes. *)
Fixpoint runLoop (fuel : nat) (loop runOnlybatched : bool) (st : LoopState) (w : World)
  : option (Result NumExecuted) * World :=
  if loopCondition loop runOnlybatched st w then
    match fuel with
    | O => (None, w)
    | S f =>
        match runPass st w with
        | (Throw e, w') => (Some (Throw e), w')
        | (Ok st', w') => runLoop f loop runOnlybatched st' w'
        end
    end
  else (Some (Ok (numExecuted st)), w).

(** The loop variables on entry to the loop. *)
Definition loopStart (start canonical : Block) : LoopState :=
  {| startHeadBlock := start; canonicalHead := canonical; numExecuted := Undefined;
     locals := {| headBlock := None; parentState := None; errorBlock := None;
                  clearCache := false |} |}.

(** [numExecuted ?? 0] *)
Definition orZero (ne : NumExecuted) : Z :=
  match ne with Num n => n | _ => 0 end.

Definition runBody (fuel : nat) (loop runOnlybatched : bool) (w0 : World)
  : option (Result Z) * World :=
  let w := set_running true w0 in
  match Blockchain.getIteratorHead "vm" (chain w) with
  | Throw e => (Some (Throw e), w)
  | Ok startHead =>
      match Blockchain.getCanonicalHeadBlock (chain w) with
      | Throw e => (Some (Throw e), w)
      | Ok canonical =>
          match runLoop fuel loop runOnlybatched (loopStart startHead canonical)
                  (emit (EvLog LogRunning) w) with
          | (None, w') => (None, w')
          | (Some (Throw e), w') => (Some (Throw e), w')
          | (Some (Ok ne), w') => (Some (Ok (orZero ne)), w')
          end
      end
  end.

(** The world in which the loop of a [run] call on [w] starts. *)
Definition loopEntry (w : World) : World :=
  emit (EvLog LogRunning) (set_running true (emit EvLockAcquire w)).

Definition run (fuel : nat) (loop runOnlybatched : bool) (w : World)
  : option (Result Z) * World :=
  if (running w || negb (started w) || shutdown w)%bool then (Some (Ok 0), w)
  else runWithLock (finally (runBody fuel loop runOnlybatched) (set_running false)) w.

End VMExecution.

(** ** The execution gate under interleaving *)

Module Gate.

(** Modelled from the spec: the [Lock] class is not part of the sources at
    hand; the design notes call it a single binary mutex whose [acquire] may
    suspend.  A suspended task waits in a queue and is handed the mutex by
    the [release] of the holder. *)
Record Lock := {
  held : bool;
  waiting : list nat        (* suspended tasks, oldest first *)
}.

(** Where a call of [run], [runWithoutSetHead] or [setHead] stands with
    respect to [runWithLock]. *)
Inductive Pc :=
| Idle          (* not yet at [await this._lock.acquire()] *)
| Suspended     (* inside [acquire], waiting for the mutex *)
| InBody        (* between the return of [acquire] and [release] *)
| Finished.

Global Instance Pc_eq_dec : EqDecision Pc.
Proof. solve_decision. Defined.

Record Config := {
  lock : Lock;
  tasks : list Pc           (* indexed by task *)
}.

Definition acquire (t : nat) (c : Config) : Config :=
  if held (lock c)
  then {| lock := {| held := true; waiting := waiting (lock c) ++ [t] |};
          tasks := <[t := Suspended]> (tasks c) |}
  else {| lock := {| held := true; waiting := waiting (lock c) |};
          tasks := <[t := InBody]> (tasks c) |}.

Definition release (c : Config) : Config :=
  match waiting (lock c) with
  | t' :: q => {| lock := {| held := true; waiting := q |};
                  tasks := <[t' := InBody]> (tasks c) |}
  | [] => {| lock := {| held := false; waiting := [] |}; tasks := tasks c |}
  end.

(** What the scheduler can let a task do next. *)
Inductive Action :=
| Refuse (t : nat)   (* the early [return false] / [return 0], before the gate *)
| Enter (t : nat)    (* [runWithLock]: [await this._lock.acquire()] *)
| Leave (t : nat).   (* the action returned or threw: [finally { this._lock.release() }] *)

Definition step (a : Action) (c : Config) : option Config :=
  match a with
  | Refuse t =>
      match tasks c !! t with
      | Some Idle => Some {| lock := lock c; tasks := <[t := Finished]> (tasks c) |}
      | _ => None
      end
  | Enter t =>
      match tasks c !! t with
      | Some Idle => Some (acquire t c)
      | _ => None
      end
  | Leave t =>
      match tasks c !! t with
      | Some InBody => Some (release {| lock := lock c; tasks := <[t := Finished]> (tasks c) |})
      | _ => None
      end
  end.

Fixpoint execute (schedule : list Action) (c : Config) : option Config :=
  match schedule with
  | [] => Some c
  | a :: rest =>
      match step a c with
      | Some c' => execute rest c'
      | None => None
      end
  end.

Definition initial (n : nat) : Config :=
  {| lock := {| held := false; waiting := [] |}; tasks := replicate n Idle |}.

Definition countInBody (ps : list Pc) : nat :=
  List.length (filter (fun p => p = InBody) ps).

(** The number of tasks that are executing their body. *)
Definition holders (c : Config) : nat := countInBody (tasks c).

(** The invariant of the gate: the mutex is held exactly when one task is in
    its body, the waiting queue lists suspended tasks without repetition, and
    nobody waits for a free mutex. *)
Definition gateInvariant (c : Config) : Prop :=
  holders c = (if held (lock c) then 1 else 0)%nat
  /\ NoDup (waiting (lock c))
  /\ (forall t, t ∈ waiting (lock c) -> tasks c !! t = Some Suspended)
  /\ (held (lock c) = false -> waiting (lock c) = []).

End Gate.

(** ** Concrete collaborators and stores for the end-to-end scenarios *)

Module Scenario.

Definition missingRootMessage : string := "State trie does not contain state root".

(** Modelled from the spec: [vm.runBlock] "must either produce a valid new
    state root and receipts or fail; must not leave partial state when
    failing"; a parent root that the state trie does not hold is a failure
    whose message contains the missing-state-root phrase.  A block has one
    receipt per transaction. *)
Definition specRunBlock (opts : RunBlockOpts) (s : VMState) : Result RunBlockResult * VMState :=
  let block := opt_block opts in
  let missing :=
    match opt_root opts with
    | Some r => negb (Vm.hasStateRoot r s)
    | None => false
    end in
  if missing then (Throw missingRootMessage, s)
  else (Ok {| res_receipts := transactions block; res_gasUsed := 0 |},
        {| roots := {[ stateRoot (header block) ]} ∪ roots s;
           curRoot := stateRoot (header block) |}).

(** Modelled from the spec: one block of [putBlocks]: its records are
    written, its number is made to point at it, and it becomes the canonical
    head. *)
Definition putBlock (c : Chain) (b : Block) : Chain :=
  let c' := Blockchain.batch
              (Blockchain.DBSetBlockOrHeader b
                 ++ Blockchain.DBSaveLookups (hash b) (number (header b)) false) c in
  {| db_td := db_td c'; db_header := db_header c'; db_body := db_body c';
     db_hashToNumber := db_hashToNumber c'; db_numberToHash := db_numberToHash c';
     heads := heads c'; headBlockHash := hash b |}.

(** Modelled from the spec: [putBlocks(blocks, skipCanonicalCheck,
    suppressEvent)] "establishes canonical number->hash for each block in
    order". *)
Definition specPutBlocks (blocks : list Block) (c : Chain) : Result unit * Chain :=
  (Ok tt, fold_left putBlock blocks c).

Definition collaborators (table : Z -> Z -> Z -> string) : Collaborators :=
  {| vm_runBlock := specRunBlock;
     chain_putBlocks := specPutBlocks;
     common_getHardforkBy := table |}.

(** Block [n] of the linear chain: hash [100 + n], state root [200 + n],
    one transaction. *)
Definition blk (n : nat) : Block :=
  {| header := {| parentHash := N.of_nat (100 + n - 1);
                  number := Z.of_nat n;
                  stateRoot := N.of_nat (200 + n);
                  timestamp := Z.of_nat (1000 + n);
                  difficulty := 1 |};
     transactions := [N.of_nat (300 + n)];
     hash := N.of_nat (100 + n) |}.

Definition emptyChain : Chain :=
  {| db_td := ∅; db_header := ∅; db_body := ∅; db_hashToNumber := ∅;
     db_numberToHash := ∅; heads := ∅; headBlockHash := 0%N |}.

Definition storeBlock (c : Chain) (b : Block) : Chain :=
  let c' := putBlock c b in
  Blockchain.batch [Blockchain.DBSetTD (number (header b) + 1) (number (header b)) (hash b)] c'.

(** A store that holds blocks [0 .. top], all canonical, with the [vm]
    cursor on block [cursor]. *)
Definition linearChain (top cursor : nat) : Chain :=
  Blockchain.setIteratorHead "vm" (hash (blk cursor))
    (fold_left storeBlock (map blk (seq 0 (S top))) emptyChain).

Definition world (c : Chain) (s : VMState) (hf : string) (perIteration : nat) : World :=
  {| started := true; shutdown := false; running := false;
     hardfork := hf; commonHardfork := hf; consensusType := ProofOfStake;
     numBlocksPerIteration := perIteration; debugCode := false;
     pendingReceipts := Some ∅; receiptsManager := Some ∅;
     chain := c; vm := s; trace := [] |}.

(** State roots of blocks [0 .. top], the VM standing on the root of block [at]. *)
Definition vmWithRoots (top at_ : nat) : VMState :=
  {| roots := list_to_set (map (fun n => stateRoot (header (blk n))) (seq 0 (S top)));
     curRoot := stateRoot (header (blk at_)) |}.

Definition constTable (hf : string) : Z -> Z -> Z -> string := fun _ _ _ => hf.


(** The same world with the engine not started. *)
Definition halted (w : World) : World :=
  {| started := false; shutdown := shutdown w; running := running w;
     hardfork := hardfork w; commonHardfork := commonHardfork w;
     consensusType := consensusType w;
     numBlocksPerIteration := numBlocksPerIteration w; debugCode := debugCode w;
     pendingReceipts := pendingReceipts w; receiptsManager := receiptsManager w;
     chain := chain w; vm := vm w; trace := trace w |}.

(** A block with number 5 that is not the canonical block 5 of the linear
    chain: a sibling on another branch. *)
Definition fork5 : Block :=
  {| header := {| parentHash := 104; number := 5; stateRoot := 777;
                  timestamp := 1005; difficulty := 1 |};
     transactions := [];
     hash := 999 |}.

Definition paris : Collaborators := collaborators (constTable "paris").

(** Blocks 0..10 stored and executed, the [vm] cursor on block 10. *)
Definition synced : World := world (linearChain 10 10) (vmWithRoots 10 10) "paris" 4.

(** [synced] with receipts of block 11 pending although block 11 was never
    executed: its state root is not in the state trie. *)
Definition syncedPending11 : World :=
  set_pendingReceipts (Some {[ hash (blk 11) := [311%N] ]}) synced.

(** Options [{ block }] of [runBlock]. *)
Definition justBlock (b : Block) : RunBlockOpts :=
  {| opt_block := b; opt_root := None; opt_clearCache := None;
     opt_skipBlockValidation := None; opt_skipHeaderValidation := None |}.

(** [synced] after the consensus client's new block 11 was executed and
    staged by [runWithoutSetHead({ block })]. *)
Definition staged11 : World :=
  snd (runWithoutSetHead paris (justBlock (blk 11)) None true false synced).

(** Blocks 0..10 stored with all their state roots present, the [vm] cursor
    on block 0, four blocks per iteration. *)
Definition fresh : World := world (linearChain 10 0) (vmWithRoots 10 0) "paris" 4.


(** Blocks 0..10 stored, blocks up to 5 executed with their state roots
    present. *)
Definition executed5 : World := world (linearChain 10 5) (vmWithRoots 5 5) "paris" 4.

(** A VM that reports a missing state root on the block of number [n]
    whatever the state trie holds, and runs the other blocks. *)
Definition staleRunBlock (n : Z) (opts : RunBlockOpts) (s : VMState)
  : Result RunBlockResult * VMState :=
  if number (header (opt_block opts)) =? n then (Throw missingRootMessage, s)
  else specRunBlock opts s.

Definition stale (n : Z) : Collaborators :=
  {| vm_runBlock := staleRunBlock n;
     chain_putBlocks := specPutBlocks;
     common_getHardforkBy := constTable "paris" |}.

(** The worlds after one, two and three calls [run(false)] from [fresh], and
    after one call [run(true)]. *)
Definition afterFirst : World := snd (run paris 1 false false fresh).
Definition afterSecond : World := snd (run paris 1 false false afterFirst).
Definition afterThird : World := snd (run paris 1 false false afterSecond).
Definition afterLooped : World := snd (run paris 3 true false fresh).






End Scenario.

(** ** Observations on traces *)

Definition isSaveReceipts (e : Event) : Prop :=
  match e with EvSaveReceipts _ _ => True | _ => False end.

(** The batches among a list of events. *)
Definition batches (evs : list Event) : list (list DBOp) :=
  omap (fun e => match e with EvBatch ops => Some ops | _ => None end) evs.

(** The [setIteratorHead] calls among a list of events. *)
Definition cursorMoves (evs : list Event) : list (string * N) :=
  omap (fun e => match e with EvSetIteratorHead name h => Some (name, h) | _ => None end) evs.


(** The blocks handed to [vm.runBlock], in order. *)
Definition blocksRun (evs : list Event) : list Block :=
  omap (fun e => match e with EvRunBlock opts => Some (opt_block opts) | _ => None end) evs.

(** ** [executeBlocks]: the debug replay on a copy of the VM *)

(** [vm.runTx] and the hexadecimal form of a transaction hash are not part of
    the sources at hand; they are parameters.  [vm_runTx] gives the gas
    spent. *)
Record ReplayCollaborators := {
  vm_runTx : Block -> Tx -> VMState -> Result Z * VMState;
  txHashHex : Tx -> string                  (* bytesToHex(tx.hash()) *)
}.

(** What [executeBlocks] asks of the copy of the VM, and what it logs. *)
Inductive ReplayEvent :=
| RpSetHardforkBy (blockNumber td ts : Z)
| RpRunBlock (opts : RunBlockOpts)
| RpRunTx (block : Block) (tx : Tx)
| RpExecutedBlock (blockNumber : Z)          (* info or warn, by the time taken *)
| RpExecutedTx (txHash : string) (gas : Z) (blockNumber : Z)
| RpNoTxWithHashes (blockNumber : Z)         (* warn *)
| RpNoTransactions.                          (* info *)

(** Modelled from the spec: [vm.shallowCopy(false)] gives a VM over "the
    same backing state" with a protocol-parameter table of its own; the copy
    is the VM state it works on, the hardfork of its table, and the record
    of what was asked of it. *)
Record Copy := {
  copyVm : VMState;
  copyHardfork : string;
  replayed : list ReplayEvent
}.

Definition record (e : ReplayEvent) (r : Copy) : Copy :=
  {| copyVm := copyVm r; copyHardfork := copyHardfork r; replayed := replayed r ++ [e] |}.

Definition set_copyVm (s : VMState) (r : Copy) : Copy :=
  {| copyVm := s; copyHardfork := copyHardfork r; replayed := replayed r |}.

Definition set_copyHardfork (hf : string) (r : Copy) : Copy :=
  {| copyVm := copyVm r; copyHardfork := hf; replayed := replayed r |}.

(** Modelled from the spec: the copy starts from the state and the hardfork
    of the engine's VM. *)
Definition shallowCopy (w : World) : Copy :=
  {| copyVm := vm w; copyHardfork := commonHardfork w; replayed := [] |}.

(** [txHashes.includes(txHash)] *)
Definition includesHash (txHashes : list string) (txHash : string) : bool :=
  existsb (String.eqb txHash) txHashes.

(** [txHashes.length === 1 && txHashes[0] === '*'] *)
Definition isWildcard (txHashes : list string) : bool :=
  match txHashes with
  | [h] => String.eqb h "*"
  | _ => false
  end.

Section ExecuteBlocks.

Variable C : Collaborators.
Variable D : ReplayCollaborators.

(** [for (const tx of block.transactions)] with its counter. *)
Fixpoint runTxs (block : Block) (blockNumber : Z) (allTxs : bool) (txHashes : list string)
    (txs : list Tx) (count : nat) (r : Copy) : Result nat * Copy :=
  match txs with
  | [] => (Ok count, r)
  | tx :: rest =>
      let txHash := txHashHex D tx in
      if (allTxs || includesHash txHashes txHash)%bool then
        match vm_runTx D block tx (copyVm r) with
        | (Throw e, s) => (Throw e, set_copyVm s (record (RpRunTx block tx) r))
        | (Ok gas, s) =>
            runTxs block blockNumber allTxs txHashes rest (count + 1)
              (record (RpExecutedTx txHash gas blockNumber)
                 (set_copyVm s (record (RpRunTx block tx) r)))
        end
      else runTxs block blockNumber allTxs txHashes rest count r
  end.

(** The body of the loop over the block numbers. *)
Definition replayBlock (first blockNumber : Z) (txHashes : list string) (c : Chain) (r : Copy)
  : Result unit * Copy :=
  match Blockchain.getBlockNum blockNumber c with
  | Throw e => (Throw e, r)
  | Ok block =>
      match Blockchain.getBlock (parentHash (header block)) c with
      | Throw e => (Throw e, r)
      | Ok parentBlock =>
          let root := stateRoot (header parentBlock) in
          match Blockchain.getTotalDifficulty (parentHash (header block)) c with
          | Throw e => (Throw e, r)
          | Ok td =>
              let ts := timestamp (header block) in
              let r1 := set_copyHardfork (common_getHardforkBy C blockNumber td ts)
                          (record (RpSetHardforkBy blockNumber td ts) r) in
              match txHashes with
              | [] =>
                  let opts := {| opt_block := block;
                                 opt_root := Some root;
                                 opt_clearCache := Some false;
                                 opt_skipBlockValidation := None;
                                 opt_skipHeaderValidation := Some true |} in
                  match vm_runBlock C opts (copyVm r1) with
                  | (Throw e, s) => (Throw e, set_copyVm s (record (RpRunBlock opts) r1))
                  | (Ok res, s) =>
                      (Ok tt, record (RpExecutedBlock blockNumber)
                                (set_copyVm s (record (RpRunBlock opts) r1)))
                  end
              | _ :: _ =>
                  let allTxs := isWildcard txHashes in
                  match runTxs block blockNumber allTxs txHashes (transactions block) 0 r1 with
                  | (Throw e, r2) => (Throw e, r2)
                  | (Ok count, r2) =>
                      (Ok tt,
                       if (count =? 0)%nat
                       then if negb allTxs then record (RpNoTxWithHashes first) r2
                            else record RpNoTransactions r2
                       else r2)
                  end
              end
          end
      end
  end.

(** [for (let blockNumber = first; blockNumber <= last; blockNumber++)],
    with the number of turns that are left. *)
Fixpoint replayFrom (turns : nat) (first blockNumber : Z) (txHashes : list string)
    (c : Chain) (r : Copy) : Result unit * Copy :=
  match turns with
  | O => (Ok tt, r)
  | S k =>
      match replayBlock first blockNumber txHashes c r with
      | (Throw e, r') => (Throw e, r')
      | (Ok _, r') => replayFrom k first (blockNumber + 1) txHashes c r'
      end
  end.

(** The block numbers are taken to be integers. *)
Definition executeBlocks (first last : Z) (txHashes : list string) (w : World)
  : Result unit * Copy :=
  replayFrom (Z.to_nat (last - first + 1)) first first txHashes (chain w) (shallowCopy w).

End ExecuteBlocks.

(** The blocks handed to [vm.runBlock] of the copy, and the transactions
    handed to its [vm.runTx], in order. *)
Definition replayedBlocks (evs : list ReplayEvent) : list RunBlockOpts :=
  omap (fun e => match e with RpRunBlock opts => Some opts | _ => None end) evs.

Definition replayedTxs (evs : list ReplayEvent) : list (Block * Tx) :=
  omap (fun e => match e with RpRunTx b tx => Some (b, tx) | _ => None end) evs.

(** The transactions of a block that a list of hashes selects. *)
Definition selectedTxs (D : ReplayCollaborators) (txHashes : list string) (block : Block)
  : list (Block * Tx) :=
  map (pair block)
    (List.filter (fun tx => (isWildcard txHashes || includesHash txHashes (txHashHex D tx))%bool)
       (transactions block)).

(** The options of a replayed block: the canonical block of the given
    number, on the state root of its parent, caches kept, header validation
    skipped. *)
Definition replayOpts (c : Chain) (n : Z) (opts : RunBlockOpts) : Prop :=
  Blockchain.getBlockByNumber n c = Some (opt_block opts)
  /\ opt_clearCache opts = Some false
  /\ opt_skipHeaderValidation opts = Some true
  /\ exists parent,
       Blockchain.getBlockByHash (parentHash (header (opt_block opts))) c = Some parent
       /\ opt_root opts = Some (stateRoot (header parent)).

Module ReplayScenario.

(** A [runTx] that always succeeds, and one-character transaction hashes. *)
Definition collaborators : ReplayCollaborators :=
  {| vm_runTx := fun _ _ s => (Ok 21000, s);
     txHashHex := fun tx => String (ascii_of_N tx) EmptyString |}.

End ReplayScenario.

(** ** Observations on worlds *)

(** The tables of the store and its canonical head, the cursors apart. *)
Definition sameBlocks (c c' : Chain) : Prop :=
  db_td c' = db_td c
  /\ db_header c' = db_header c
  /\ db_body c' = db_body c
  /\ db_hashToNumber c' = db_hashToNumber c
  /\ db_numberToHash c' = db_numberToHash c
  /\ headBlockHash c' = headBlockHash c.

(** The events of a pass of [run]: no gate event, no write of blocks, no
    chain update, and no cursor but [vm]. *)
Definition isPassEvent (e : Event) : Prop :=
  match e with
  | EvRunBlock _ | EvSaveReceipts _ _ | EvDebugReplay _ | EvVMError _ | EvLog _ => True
  | EvSetIteratorHead name _ => name = "vm"%string
  | EvLockAcquire | EvLockRelease | EvPutBlocks _ | EvBatch _ | EvChainUpdate => False
  end.

(** What a pass of [run] leaves alone. *)
Definition passFrame (w w' : World) : Prop :=
  started w' = started w
  /\ shutdown w' = shutdown w
  /\ running w' = running w
  /\ consensusType w' = consensusType w
  /\ numBlocksPerIteration w' = numBlocksPerIteration w
  /\ debugCode w' = debugCode w
  /\ pendingReceipts w' = pendingReceipts w
  /\ (is_Some (receiptsManager w') <-> is_Some (receiptsManager w))
  /\ sameBlocks (chain w) (chain w')
  /\ (forall name, name <> "vm"%string -> heads (chain w') !! name = heads (chain w) !! name)
  /\ exists evs, trace w' = trace w ++ evs /\ Forall isPassEvent evs.

(** The events of a call that went through the gate: the acquisition, the
    events of the body, none of which is a gate event, and the release. *)
Definition throughGate (w w' : World) : Prop :=
  exists evs,
    trace w' = trace w ++ EvLockAcquire :: evs ++ [EvLockRelease]
    /\ Forall (fun e => e <> EvLockAcquire /\ e <> EvLockRelease) evs.

(** The options that [runWithoutSetHead] hands to [vm.runBlock] in the
    world [w]. *)
Definition stagingRunOpts (opts : RunBlockOpts) (w : World) : RunBlockOpts :=
  let prevVMStateRoot := Vm.getStateRoot (vm w) in
  withClearCache
    (negb (equalsBytes prevVMStateRoot (default prevVMStateRoot (opt_root opts)))) opts.

(** The end of a gated call that tracks [running]. *)
Definition leave (w : World) : World := emit EvLockRelease (set_running false w).

(** The first half of [runWithoutSetHead]: the receipts, from the caller or
    from the VM. *)
Definition stagingReceipts (C : Collaborators) (opts : RunBlockOpts)
    (receipts : option (list TxReceipt)) (w : World) : Result (list TxReceipt) * World :=
  let w0 := set_running true (emit EvLockAcquire w) in
  match receipts with
  | Some rs => (Ok rs, w0)
  | None =>
      let w1 := emit (EvRunBlock (stagingRunOpts opts w)) w0 in
      match vm_runBlock C (stagingRunOpts opts w) (vm w) with
      | (Ok result, s) => (Ok (res_receipts result), set_vm s w1)
      | (Throw e, s) => (Throw e, set_vm s w1)
      end
  end.

(** The cursor moves at the end of a successful [setHead]. *)
Definition moveCursors (vmHeadBlock : Block) (finalizedBlock safeBlock : option Block)
    (w : World) : World :=
  let w1 := emit (EvSetIteratorHead "vm" (hash vmHeadBlock))
              (set_chain (Blockchain.setIteratorHead "vm" (hash vmHeadBlock) (chain w)) w) in
  let w2 := match safeBlock with
            | Some b => emit (EvSetIteratorHead "safe" (hash b))
                          (set_chain (Blockchain.setIteratorHead "safe" (hash b) (chain w1)) w1)
            | None => w1
            end in
  match finalizedBlock with
  | Some b => emit (EvSetIteratorHead "finalized" (hash b))
                (set_chain (Blockchain.setIteratorHead "finalized" (hash b) (chain w2)) w2)
  | None => w2
  end.

(** The cursor moves that [setHead] makes for its optional arguments. *)
Definition optionalMove (name : string) (b : option Block) : list (string * N) :=
  match b with Some b => [(name, hash b)] | None => [] end.

(** The events added from [w] to [w'] contain no gate event. *)
Definition quiet (w w' : World) : Prop :=
  exists evs,
    trace w' = trace w ++ evs
    /\ Forall (fun e => e <> EvLockAcquire /\ e <> EvLockRelease) evs.

(** The options of the [vm.runBlock] calls among a list of events. *)
Definition runOpts (evs : list Event) : list RunBlockOpts :=
  omap (fun e => match e with EvRunBlock opts => Some opts | _ => None end) evs.



(** The events added from [w] to [w'] contain no [vm.runBlock] call. *)
Definition noRuns (w w' : World) : Prop :=
  exists evs, trace w' = trace w ++ evs /\ runOpts evs = [].


Module OrphanScenario.

(** A block of number 11 whose parent is not in the store. *)
Definition orphan11 : Block :=
  {| header := {| parentHash := 998; number := 11; stateRoot := 211;
                  timestamp := 1011; difficulty := 1 |};
     transactions := [311%N];
     hash := 111 |}.

(** The synced node after the orphan was made the canonical block 11. *)
Definition orphaned : World :=
  Scenario.world (Scenario.storeBlock (chain Scenario.synced) orphan11)
    (Scenario.vmWithRoots 10 10) "paris" 4.

End OrphanScenario.

(** An engine with one block per iteration whose next block [b] fails in the
    VM with the error [e], the same way every time: the state is left as it
    was, the error is not a missing state root, and the block asks for no
    hardfork switch. *)
Definition failsOn (C : Collaborators) (start canonical b : Block) (e : string) (w : World)
  : Prop :=
  started w = true
  /\ shutdown w = false
  /\ numBlocksPerIteration w = 1%nat
  /\ Blockchain.getIteratorHead "vm" (chain w) = Ok start
  /\ Blockchain.getCanonicalHeadBlock (chain w) = Ok canonical
  /\ hash start <> hash canonical
  /\ Blockchain.getBlockByNumber (number (header start) + 1) (chain w) = Some b
  /\ number (header b) = number (header start) + 1
  /\ (exists hb, Blockchain.getBlock (parentHash (header b)) (chain w) = Ok hb)
  /\ (exists td,
        Blockchain.getTotalDifficulty (parentHash (header b)) (chain w) = Ok td
        /\ common_getHardforkBy C (number (header b)) td (timestamp (header b)) = hardfork w)
  /\ (forall opts s, opt_block opts = b -> vm_runBlock C opts s = (Throw e, s))
  /\ Util.includes (Util.toLowerCase (Util.errorToString e)) missingRootPhrase = false.

Module RetryScenario.

(** A VM that rejects the block of number [n] as invalid and runs the other
    blocks. *)
Definition rejectingRunBlock (n : Z) (opts : RunBlockOpts) (s : VMState)
  : Result RunBlockResult * VMState :=
  if number (header (opt_block opts)) =? n then (Throw "invalid block", s)
  else Scenario.specRunBlock opts s.

Definition rejecting (n : Z) : Collaborators :=
  {| vm_runBlock := rejectingRunBlock n;
     chain_putBlocks := Scenario.specPutBlocks;
     common_getHardforkBy := Scenario.constTable "paris" |}.

(** Blocks 0..10 stored, blocks up to 5 executed, one block per iteration. *)
Definition oneByOne : World :=
  Scenario.world (Scenario.linearChain 10 5) (Scenario.vmWithRoots 5 5) "paris" 1.

End RetryScenario.

(** ** The flat snapshot store (class [Snapshot])

    The first document of [packages/client/src/flat/snapshot.ts]: a
    key-value store of accounts and storage slots over a [LevelDB], with a
    diff cache that keeps the value a key had before its first
    modification.  A [Uint8Array] is a list of bytes. *)

Module Snapshot.

Abbreviation Bytes := (list Byte.byte) (only parsing).

Global Instance byte_eq_dec : EqDecision Byte.byte := Byte.byte_eq_dec.

Global Instance byte_countable : Countable Byte.byte :=
  inj_countable Byte.to_N Byte.of_N Byte.of_to_N.

(** The content of a [LevelDB<Uint8Array, Uint8Array>]. *)
Abbreviation Database := (gmap (list Byte.byte) (list Byte.byte)) (only parsing).

Definition ACCOUNT_PREFIX : Bytes := [Byte.x00].
Definition STORAGE_PREFIX : Bytes := [Byte.x11].

Definition setAt (target source : Bytes) (offset : nat) : Result Bytes :=
  if (List.length target <? offset + List.length source)%nat
  then Throw "offset is out of bounds"
  else Ok (take offset target ++ source ++ drop (offset + List.length source) target).

Fixpoint copyAll (arrays : list Bytes) (offset : nat) (target : Bytes) : Result Bytes :=
  match arrays with
  | [] => Ok target
  | array :: rest =>
      match setAt target array offset with
      | Ok target' => copyAll rest (offset + List.length array) target'
      | Throw e => Throw e
      end
  end.

Definition concatenateUint8Arrays (arrays : list Bytes) : Result Bytes :=
  let l := fold_left (fun prev curr => (prev + List.length curr)%nat) arrays 0%nat in
  copyAll arrays 0 (replicate l Byte.x00).

(** [Account] of [@ethereumjs/util]: the four fields of an account. *)
Record Account := {
  nonce : Z;
  balance : Z;
  storageRoot : Bytes;
  codeHash : Bytes
}.

(** [keccak256] of [ethereum-cryptography] and the RLP codec of [Account]
    are not part of the sources at hand.  They are parameters: the results
    hold for every behaviour of them unless a hypothesis says otherwise. *)
Record Externals := {
  keccak256 : Bytes -> Bytes;
  serialize : Account -> Bytes;                          (* account.serialize() *)
  fromRlpSerializedAccount : Bytes -> Result Account     (* may throw on malformed input *)
}.

(** The [LevelDB] wrapper of [../execution/level] is not part of the sources
    at hand either.  It is taken to be a key-value map: [get] of a key that
    was never put, or was deleted, is [undefined]; [keysByPrefix] lists the
    keys that start with the prefix and [delByPrefix] deletes them. *)
Module LevelDB.

Definition get (key : Bytes) (db : Database) : option Bytes := db !! key.

Definition put (key value : Bytes) (db : Database) : Database :=
  <[key := value]> db.

Definition del (key : Bytes) (db : Database) : Database :=
  delete key db.

Definition keysByPrefix (p : Bytes) (db : Database) : list Bytes :=
  filter (fun key => p `prefix_of` key) (map fst (map_to_list db)).

Definition delByPrefix (p : Bytes) (db : Database) : Database :=
  filter (fun kv => ~ p `prefix_of` fst kv) db.

End LevelDB.

Record SnapshotElement := {
  data : option Bytes
}.

(** The fields of a [Snapshot].  A diff map is keyed by [bytesToHex(key)],
    which is injective, hence by the key itself. *)
Record Store := {
  _db : Database;
  _checkpoints : nat;
  _diffCache : list (gmap Bytes SnapshotElement)
}.

Definition set_db (f : Database -> Database) (s : Store) : Store :=
  {| _db := f (_db s); _checkpoints := _checkpoints s; _diffCache := _diffCache s |}.

Definition set_diffCache (d : list (gmap Bytes SnapshotElement)) (s : Store) : Store :=
  {| _db := _db s; _checkpoints := _checkpoints s; _diffCache := d |}.

(** [new Snapshot(db)]: [db ?? new LevelDB()], and one empty diff map. *)
Definition constructor (db : option Database) : Store :=
  {| _db := default ∅ db; _checkpoints := 0; _diffCache := [] ++ [∅] |}.

(** A method of the class: a result, or a thrown error, and the store as the
    method leaves it. *)
Definition Method (A : Type) : Type := Store -> Result A * Store.

Definition ret {A} (a : A) : Method A := fun s => (Ok a, s).

Definition throw {A} (message : string) : Method A := fun s => (Throw message, s).

Definition bind {A B} (c : Method A) (k : A -> Method B) : Method B :=
  fun s =>
    match c s with
    | (Ok a, s') => k a s'
    | (Throw e, s') => (Throw e, s')
    end.

Definition lift {A} (r : Result A) : Method A := fun s => (r, s).

Definition gets {A} (f : Store -> A) : Method A := fun s => (Ok (f s), s).

Definition modify (f : Store -> Store) : Method unit := fun s => (Ok tt, f s).

Declare Scope snapshot_scope.
Notation "x <- c ;; k" := (bind c (fun x => k))
  (at level 100, c at next level, right associativity) : snapshot_scope.
Notation "c ;; k" := (bind c (fun _ => k))
  (at level 100, right associativity) : snapshot_scope.
Local Open Scope snapshot_scope.

(** [for (const x of xs) await f(x)] *)
Fixpoint forEach {A} (xs : list A) (f : A -> Method unit) : Method unit :=
  match xs with
  | [] => ret tt
  | x :: rest => f x ;; forEach rest f
  end.

Section Methods.

Variable E : Externals.

(** Reading [this._diffCache[this._checkpoints]] beyond the end of the array
    gives [undefined], and calling [get] on it throws a [TypeError]. *)
Definition _saveCachePreState (key : Bytes) : Method unit :=
  fun s =>
    match _diffCache s !! _checkpoints s with
    | None => (Throw "Cannot read properties of undefined (reading 'get')", s)
    | Some diff =>
        match diff !! key with
        | Some _ => (Ok tt, s)
        | None =>
            let oldElem := {| data := LevelDB.get key (_db s) |} in
            (Ok tt,
             set_diffCache (<[_checkpoints s := <[key := oldElem]> diff]> (_diffCache s)) s)
        end
    end.

Definition putAccount (address : Bytes) (account : Account) : Method unit :=
  key <- lift (concatenateUint8Arrays [ACCOUNT_PREFIX; keccak256 E address]) ;;
  let value := serialize E account in
  _saveCachePreState key ;;
  modify (set_db (LevelDB.put key value)).

Definition getAccount (address : Bytes) : Method (option Bytes) :=
  key <- lift (concatenateUint8Arrays [ACCOUNT_PREFIX; keccak256 E address]) ;;
  gets (fun s => LevelDB.get key (_db s)).

Definition getAccounts : Method (list (Bytes * option Bytes)) :=
  throw "Not yet implemented".

Definition delAccount (address : Bytes) : Method unit :=
  key <- lift (concatenateUint8Arrays [ACCOUNT_PREFIX; keccak256 E address]) ;;
  _saveCachePreState key ;;
  modify (set_db (LevelDB.del key)).

Definition putStorageSlot (address slot value : Bytes) : Method unit :=
  key <- lift (concatenateUint8Arrays
                 [STORAGE_PREFIX; keccak256 E address; keccak256 E slot]) ;;
  _saveCachePreState key ;;
  modify (set_db (LevelDB.put key value)).

Definition getStorageSlot (address slot : Bytes) : Method (option Bytes) :=
  key <- lift (concatenateUint8Arrays
                 [STORAGE_PREFIX; keccak256 E address; keccak256 E slot]) ;;
  gets (fun s => LevelDB.get key (_db s)).

Definition getStorageSlots (address : Bytes) : Method (list (Bytes * option Bytes)) :=
  throw "Not yet implemented".

Definition delStorageSlot (address slot : Bytes) : Method unit :=
  key <- lift (concatenateUint8Arrays
                 [STORAGE_PREFIX; keccak256 E address; keccak256 E slot]) ;;
  _saveCachePreState key ;;
  modify (set_db (LevelDB.del key)).

Definition clearAccountStorage (address : Bytes) : Method unit :=
  prefix <- lift (concatenateUint8Arrays [STORAGE_PREFIX; keccak256 E address]) ;;
  keys <- gets (fun s => LevelDB.keysByPrefix prefix (_db s)) ;;
  forEach keys _saveCachePreState ;;
  modify (set_db (LevelDB.delByPrefix prefix)).

(** The test on [account.codeHash] guards an empty block (the deletion of
    the code is commented out); decoding the account can still throw. *)
Definition clearAccount (address : Bytes) : Method unit :=
  rawAccount <- getAccount address ;;
  match rawAccount with
  | None => ret tt
  | Some raw =>
      delAccount address ;;
      _ <- lift (fromRlpSerializedAccount E raw) ;;
      clearAccountStorage address
  end.

Definition putCode (address code : Bytes) : Method unit := throw "Not yet implemented".

Definition getCode (address : Bytes) : Method (option Bytes) := throw "Not yet implemented".

Definition merkleize : Method Bytes := throw "Not yet implemented".

Definition revert : Method unit := throw "Not yet implemented".

Definition commit : Method unit := throw "Not yet implemented".

Definition checkpoint : Method unit := throw "Not yet implemented".

(** A call of a public method, by a client of the class. *)
Inductive Call :=
| PutAccount (address : Bytes) (account : Account)
| GetAccount (address : Bytes)
| GetAccounts
| DelAccount (address : Bytes)
| ClearAccount (address : Bytes)
| PutStorageSlot (address slot value : Bytes)
| GetStorageSlot (address slot : Bytes)
| GetStorageSlots (address : Bytes)
| DelStorageSlot (address slot : Bytes)
| ClearAccountStorage (address : Bytes)
| PutCode (address code : Bytes)
| GetCode (address : Bytes)
| Merkleize
| Revert
| Commit
| Checkpoint.

(** The store after a call, whether it returned or threw. *)
Definition call (c : Call) (s : Store) : Store :=
  match c with
  | PutAccount address account => snd (putAccount address account s)
  | GetAccount address => snd (getAccount address s)
  | GetAccounts => snd (getAccounts s)
  | DelAccount address => snd (delAccount address s)
  | ClearAccount address => snd (clearAccount address s)
  | PutStorageSlot address slot value => snd (putStorageSlot address slot value s)
  | GetStorageSlot address slot => snd (getStorageSlot address slot s)
  | GetStorageSlots address => snd (getStorageSlots address s)
  | DelStorageSlot address slot => snd (delStorageSlot address slot s)
  | ClearAccountStorage address => snd (clearAccountStorage address s)
  | PutCode address code => snd (putCode address code s)
  | GetCode address => snd (getCode address s)
  | Merkleize => snd (merkleize s)
  | Revert => snd (revert s)
  | Commit => snd (commit s)
  | Checkpoint => snd (checkpoint s)
  end.

(** The store after a sequence of calls on a new [Snapshot]. *)
Definition history (db : option Database) (cs : list Call) : Store :=
  fold_left (fun s c => call c s) cs (constructor db).

End Methods.

End Snapshot.
(** * The flat snapshot store *)

(** The diff map of the current checkpoint level has an entry for the key. *)
Definition recorded (s : Snapshot.Store) (key : Snapshot.Bytes) : Prop :=
  exists diff,
    Snapshot._diffCache s !! Snapshot._checkpoints s = Some diff /\ is_Some (diff !! key).

(** The diff cache of a store with one checkpoint level, and what it says
    about the database [db0] the store started from: a key with an entry had
    the recorded value in [db0]; a key without entry has its value of
    [db0]. *)
Definition preState (db0 : Snapshot.Database) (s : Snapshot.Store) : Prop :=
  Snapshot._checkpoints s = 0%nat
  /\ exists diff,
       Snapshot._diffCache s = [diff]
       /\ forall key,
            match diff !! key with
            | Some e => Snapshot.data e = db0 !! key
            | None => Snapshot._db s !! key = db0 !! key
            end.

(** The key of an account and the key of a storage slot. *)
Definition accountKey (E : Snapshot.Externals) (address : Snapshot.Bytes) : Snapshot.Bytes :=
  Snapshot.ACCOUNT_PREFIX ++ Snapshot.keccak256 E address.

Definition slotKey (E : Snapshot.Externals) (address slot : Snapshot.Bytes) : Snapshot.Bytes :=
  Snapshot.STORAGE_PREFIX ++ Snapshot.keccak256 E address ++ Snapshot.keccak256 E slot.

Definition storagePrefix (E : Snapshot.Externals) (address : Snapshot.Bytes) : Snapshot.Bytes :=
  Snapshot.STORAGE_PREFIX ++ Snapshot.keccak256 E address.

Module SnapshotScenario.

(** A stand-in for [keccak256] with digests of 32 bytes: the input, cut or
    padded with zero bytes. *)
Definition pad32 (x : Snapshot.Bytes) : Snapshot.Bytes :=
  take 32 (x ++ replicate 32 Byte.x00).

(** A codec that writes the code hash of an account and refuses to decode
    the empty array. *)
Definition externals : Snapshot.Externals :=
  {| Snapshot.keccak256 := pad32;
     Snapshot.serialize := Snapshot.codeHash;
     Snapshot.fromRlpSerializedAccount := fun raw =>
       match raw with
       | [] => Throw "invalid RLP: empty input"
       | _ => Ok {| Snapshot.nonce := 0; Snapshot.balance := 0;
                    Snapshot.storageRoot := []; Snapshot.codeHash := raw |}
       end |}.

Definition alice : Snapshot.Bytes := [Byte.x0a].
Definition bob : Snapshot.Bytes := [Byte.x0b].
Definition slot1 : Snapshot.Bytes := [Byte.x01].
Definition slot2 : Snapshot.Bytes := [Byte.x02].

Definition account (code : Snapshot.Bytes) : Snapshot.Account :=
  {| Snapshot.nonce := 1; Snapshot.balance := 10; Snapshot.storageRoot := [];
     Snapshot.codeHash := code |}.

(** Two accounts with storage. *)
Definition populate : list Snapshot.Call :=
  [Snapshot.PutAccount alice (account [Byte.xaa]);
   Snapshot.PutStorageSlot alice slot1 [Byte.x11];
   Snapshot.PutStorageSlot alice slot2 [Byte.x12];
   Snapshot.PutAccount bob (account [Byte.xbb]);
   Snapshot.PutStorageSlot bob slot1 [Byte.x21]].

(** The same with an account record for [alice] that does not decode. *)
Definition populateMalformed : list Snapshot.Call :=
  populate ++ [Snapshot.PutAccount alice (account [])].

End SnapshotScenario.

(** * Properties *)

(** Runs the monadic plumbing of a hypothesis as far as the data allows. *)
Ltac msimpl H :=
  cbv beta iota zeta delta
    [bind ret throw modify gets lift finally runWithLock runBlock putBlocks dbBatch
     drainPending setIteratorHead checkCanonical setHardforkBy] in H;
  simpl in H.

(** The same for the goal. *)
Ltac mgoal :=
  cbv beta iota zeta delta
    [bind ret throw modify gets lift finally runWithLock runBlock putBlocks dbBatch
     drainPending setIteratorHead checkCanonical setHardforkBy];
  simpl.

Local Arguments Blockchain.batch : simpl never.

(** ** Early returns *)

(** C9: when the engine is not started or the shutdown flag is set,
    [runWithoutSetHead] and [setHead] return [false] and [run] returns [0],
    and the world is exactly the one before the call: no gate event, no block
    run, same pending receipts, same store, same cursors.  A non-blocking
    [runWithoutSetHead] does the same while an execution is running. *)
Theorem inactive_engine_returns_early (C : Collaborators) (w : World) (blocking : bool) :
  started w = false \/ shutdown w = true \/ (blocking = false /\ running w = true) ->
  (forall opts receipts skipBlockchain,
      runWithoutSetHead C opts receipts blocking skipBlockchain w = (Ok false, w))
  /\ (started w = false \/ shutdown w = true ->
      (forall blocks finalizedBlock safeBlock,
          setHead C blocks finalizedBlock safeBlock w = (Ok false, w))
      /\ (forall fuel loop runOnlybatched,
             run C fuel loop runOnlybatched w = (Some (Ok 0), w))).
Proof.
  intros H. split.
  - intros opts receipts skipBlockchain. unfold runWithoutSetHead.
    destruct H as [H | [H | [Hb H]]]; rewrite ?H, ?Hb;
      destruct blocking, (running w), (started w), (shutdown w); simpl; congruence.
  - clear H. intros H. split.
    + intros blocks finalizedBlock safeBlock. unfold setHead.
      destruct H as [H | H]; rewrite H;
        destruct (started w), (shutdown w); simpl; congruence.
    + intros fuel loop runOnlybatched. unfold run.
      destruct H as [H | H]; rewrite H;
        destruct (running w), (started w), (shutdown w); simpl; congruence.
Qed.

(** The engine of a synced node that is not started. *)
Lemma inactive_engine_returns_early_witness :
  runWithoutSetHead Scenario.paris (Scenario.justBlock (Scenario.blk 11)) None true false
      (Scenario.halted Scenario.synced)
    = (Ok false, Scenario.halted Scenario.synced)
  /\ setHead Scenario.paris [Scenario.blk 11] None None (Scenario.halted Scenario.synced)
     = (Ok false, Scenario.halted Scenario.synced)
  /\ run Scenario.paris 1 true false (Scenario.halted Scenario.synced)
     = (Some (Ok 0), Scenario.halted Scenario.synced).
Proof.
  destruct (inactive_engine_returns_early Scenario.paris (Scenario.halted Scenario.synced)
              true (or_introl eq_refl)) as [Hstage Hrest].
  destruct (Hrest (or_introl eq_refl)) as [Hhead Hrun].
  split; [apply Hstage|]. split; [apply Hhead | apply Hrun].
Defined.

(** ** Draining the pending receipts *)

Lemma drainOne_frame (w : World) (b : Block) :
  chain (drainOne w b) = chain w
  /\ vm (drainOne w b) = vm w
  /\ exists evs, trace (drainOne w b) = trace w ++ evs /\ Forall isSaveReceipts evs.
Proof.
  unfold drainOne, ReceiptsManager.saveReceipts.
  destruct (pendingReceipts w) as [m|]; [destruct (m !! hash b) as [rs|]|];
    try destruct (receiptsManager w); simpl; repeat split;
    solve [ exists []; rewrite ?app_nil_r; auto
          | eexists [_]; split; [reflexivity | repeat constructor] ].
Qed.

Lemma drainPending_frame (blocks : list Block) (w : World) :
  chain (fold_left drainOne blocks w) = chain w
  /\ vm (fold_left drainOne blocks w) = vm w
  /\ exists evs, trace (fold_left drainOne blocks w) = trace w ++ evs
                 /\ Forall isSaveReceipts evs.
Proof.
  revert w. induction blocks as [|b blocks IH]; intros w; simpl.
  - repeat split. exists []. rewrite app_nil_r. auto.
  - destruct (IH (drainOne w b)) as (Hc & Hv & evs & Ht & Hf).
    destruct (drainOne_frame w b) as (Hc1 & Hv1 & evs1 & Ht1 & Hf1).
    repeat split; try congruence.
    exists (evs1 ++ evs). rewrite Ht, Ht1, <- app_assoc. split; [reflexivity|].
    apply Forall_app; auto.
Qed.

Lemma save_is_no_cursor_move (evs : list Event) :
  Forall isSaveReceipts evs -> forall name h, EvSetIteratorHead name h ∉ evs.
Proof.
  intros Hf name h Hin. rewrite Forall_forall in Hf. apply Hf in Hin. exact Hin.
Qed.

(** ** [setHead]: nothing moves before the checks have passed *)

(** C4: when [setHead] fails, whether on the state-root requirement, on the
    canonicality check or anywhere else, it has made no [setIteratorHead]
    call; the cursors [vm], [safe] and [finalized] are those from before the
    call as long as [putBlocks] itself leaves cursors alone. *)
Theorem setHead_failure_moves_no_cursor (C : Collaborators) (blocks : list Block)
    (finalizedBlock safeBlock : option Block) (w w' : World) (message : string) :
  heads (snd (chain_putBlocks C blocks (chain w))) = heads (chain w) ->
  setHead C blocks finalizedBlock safeBlock w = (Throw message, w') ->
  heads (chain w') = heads (chain w)
  /\ exists evs, trace w' = trace w ++ evs
                 /\ forall name h, EvSetIteratorHead name h ∉ evs.
Proof.
  intros Hput H. unfold setHead in H.
  destruct (negb (started w) || shutdown w); [discriminate|].
  msimpl H.
  destruct (last blocks) as [vmHeadBlock|]; msimpl H.
  2:{ inversion H; subst; clear H. simpl. split; [reflexivity|].
      exists [EvLockAcquire; EvLockRelease]. rewrite <- app_assoc. split; [reflexivity|].
      intros name h Hin. repeat (apply elem_of_cons in Hin as [Hin|Hin]; [discriminate|]).
      inversion Hin. }
  destruct (Vm.hasStateRoot _ _); msimpl H.
  2:{ inversion H; subst; clear H. simpl. split; [reflexivity|].
      exists [EvLockAcquire; EvLockRelease]. rewrite <- app_assoc. split; [reflexivity|].
      intros name h Hin. repeat (apply elem_of_cons in Hin as [Hin|Hin]; [discriminate|]).
      inversion Hin. }
  destruct (chain_putBlocks C blocks (chain w)) as [rp c1] eqn:Hp. simpl in Hput.
  destruct rp as [[]|e]; msimpl H.
  2:{ inversion H; subst; clear H. simpl. split; [exact Hput|].
      exists [EvLockAcquire; EvPutBlocks blocks; EvLockRelease].
      rewrite <- !app_assoc. split; [reflexivity|].
      intros name h Hin. repeat (apply elem_of_cons in Hin as [Hin|Hin]; [discriminate|]).
      inversion Hin. }
  match type of H with context [fold_left drainOne blocks ?w0] =>
    destruct (drainPending_frame blocks w0) as (Hc & _ & evs & Ht & Hf);
    remember (fold_left drainOne blocks w0) as wd eqn:Hwd; clear Hwd
  end.
  simpl in Hc, Ht.
  destruct (Blockchain.getBlockNum _ (chain wd)) as [blockByNumber|e]; msimpl H.
  - destruct (equalsBytes _ _); msimpl H.
    + destruct safeBlock, finalizedBlock; msimpl H; discriminate.
    + inversion H; subst; clear H. simpl. split; [congruence|].
      exists ([EvLockAcquire; EvPutBlocks blocks] ++ evs ++ [EvLockRelease]).
      rewrite Ht, <- !app_assoc. split; [reflexivity|].
      intros name h Hin. simpl in Hin.
      repeat (apply elem_of_cons in Hin as [Hin|Hin]; [discriminate|]).
      apply elem_of_app in Hin as [Hin|Hin].
      * revert Hin. apply save_is_no_cursor_move, Hf.
      * apply elem_of_cons in Hin as [Hin|Hin]; [discriminate|inversion Hin].
  - inversion H; subst; clear H. simpl. split; [congruence|].
    exists ([EvLockAcquire; EvPutBlocks blocks] ++ evs ++ [EvLockRelease]).
    rewrite Ht, <- !app_assoc. split; [reflexivity|].
    intros name h Hin. simpl in Hin.
    repeat (apply elem_of_cons in Hin as [Hin|Hin]; [discriminate|]).
    apply elem_of_app in Hin as [Hin|Hin].
    * revert Hin. apply save_is_no_cursor_move, Hf.
    * apply elem_of_cons in Hin as [Hin|Hin]; [discriminate|inversion Hin].
Qed.

(** Block 11 was never executed: [setHead([B11], {safe: B10, finalized: B9})]
    fails on the state-root requirement and leaves the three cursors alone. *)
Lemma setHead_failure_moves_no_cursor_witness :
  heads (chain (snd (setHead Scenario.paris [Scenario.blk 11] (Some (Scenario.blk 9))
                       (Some (Scenario.blk 10)) Scenario.synced)))
    = heads (chain Scenario.synced)
  /\ exists evs,
       trace (snd (setHead Scenario.paris [Scenario.blk 11] (Some (Scenario.blk 9))
                     (Some (Scenario.blk 10)) Scenario.synced))
         = trace Scenario.synced ++ evs
       /\ forall name h, EvSetIteratorHead name h ∉ evs.
Proof.
  apply (setHead_failure_moves_no_cursor Scenario.paris [Scenario.blk 11]
           (Some (Scenario.blk 9)) (Some (Scenario.blk 10)) Scenario.synced _
           "vmHeadBlock's stateRoot not found").
  - vm_compute. reflexivity.
  - vm_compute. reflexivity.
Defined.

(** ** [setHead]: which pointers are checked *)

(** C1: whether [setHead] returns [true], returns [false] or throws does not
    depend on the safe and finalized blocks it is given: the canonicality
    loop runs over [vmHeadBlock] alone.  At a concrete input: block 11 is
    staged, and [setHead] is called with [fork5] as safe and as finalized
    block, a block of number 5 that is not the canonical block 5.  The call
    returns [true] and both cursors stand on [fork5], although [getBlock(5)]
    has another hash. *)
Theorem setHead_accepts_noncanonical_safe_and_finalized :
  (forall (C : Collaborators) (blocks : list Block) (finalizedBlock safeBlock : option Block)
          (w : World),
      fst (setHead C blocks finalizedBlock safeBlock w)
      = fst (setHead C blocks None None w))
  /\ fst (setHead Scenario.paris [Scenario.blk 11] (Some Scenario.fork5)
            (Some Scenario.fork5) Scenario.staged11) = Ok true
  /\ heads (chain (snd (setHead Scenario.paris [Scenario.blk 11] (Some Scenario.fork5)
                          (Some Scenario.fork5) Scenario.staged11)))
     = {[ "vm"%string := hash (Scenario.blk 11);
          "safe"%string := hash Scenario.fork5;
          "finalized"%string := hash Scenario.fork5 ]}
  /\ hash <$> Blockchain.getBlockByNumber (number (header Scenario.fork5))
                (chain (snd (setHead Scenario.paris [Scenario.blk 11] (Some Scenario.fork5)
                               (Some Scenario.fork5) Scenario.staged11)))
     = Some (hash (Scenario.blk 5))
  /\ hash (Scenario.blk 5) <> hash Scenario.fork5.
Proof.
  split.
  - intros C blocks finalizedBlock safeBlock w.
    unfold setHead. destruct (negb (started w) || shutdown w); [reflexivity|].
    mgoal. destruct (last blocks) as [vmHeadBlock|]; mgoal; [|reflexivity].
    destruct (Vm.hasStateRoot _ _); mgoal; [|reflexivity].
    destruct (chain_putBlocks C blocks (chain w)) as [[[]|e] c1]; mgoal; [|reflexivity].
    destruct (Blockchain.getBlockNum _ _) as [b|e]; mgoal; [|reflexivity].
    destruct (equalsBytes _ _); mgoal; [|reflexivity].
    destruct safeBlock, finalizedBlock; reflexivity.
  - vm_compute. repeat split. discriminate.
Qed.

(** ** [setHead]: the pending receipts are drained *)

Lemma drainOne_pending (w : World) (b : Block) (m : gmap N (list N)) :
  pendingReceipts w = Some m ->
  pendingReceipts (drainOne w b) = Some (delete (hash b) m).
Proof.
  intros Hm. unfold drainOne, ReceiptsManager.saveReceipts. rewrite Hm.
  destruct (m !! hash b) as [rs|] eqn:Hl.
  - destruct (receiptsManager w); reflexivity.
  - rewrite Hm. f_equal. symmetry. apply delete_id, Hl.
Qed.

Lemma drainOne_manager (w : World) (b : Block) :
  is_Some (receiptsManager w) -> is_Some (receiptsManager (drainOne w b)).
Proof.
  intros [db Hdb]. unfold drainOne, ReceiptsManager.saveReceipts.
  destruct (pendingReceipts w) as [m|]; [destruct (m !! hash b)|];
    rewrite ?Hdb; simpl; eauto.
Qed.

Lemma drainPending_none (blocks : list Block) (w : World) :
  pendingReceipts w = None -> fold_left drainOne blocks w = w.
Proof.
  intros Hn. induction blocks as [|a blocks IH]; simpl; [reflexivity|].
  unfold drainOne at 2. rewrite Hn. exact IH.
Qed.

(** After the loop an entry is left for a digest exactly when it was there
    before and the digest is that of none of the blocks. *)
Lemma drainPending_pending (blocks : list Block) (w : World) (m : gmap N (list N)) :
  pendingReceipts w = Some m ->
  exists m', pendingReceipts (fold_left drainOne blocks w) = Some m'
             /\ (forall b, b ∈ blocks -> m' !! hash b = None)
             /\ (forall h, (forall b, b ∈ blocks -> hash b <> h) -> m' !! h = m !! h).
Proof.
  revert w m. induction blocks as [|a blocks IH]; intros w m Hm; simpl.
  - exists m. split; [exact Hm|]. split; [|reflexivity].
    intros b Hb. inversion Hb.
  - destruct (IH _ _ (drainOne_pending w a m Hm)) as (m' & Hm' & Hgone & Hkept).
    exists m'. split; [exact Hm'|]. split.
    + intros b Hb. apply elem_of_cons in Hb as [->|Hb]; [|auto].
      destruct (decide (hash a ∈ map hash blocks)) as [Hin|Hout].
      * apply list_elem_of_fmap in Hin as (b & Hh & Hb). rewrite Hh. auto.
      * rewrite Hkept; [apply lookup_delete_eq|].
        intros b Hb Hh. apply Hout. apply list_elem_of_fmap. eauto.
    + intros h Hh. rewrite Hkept.
      * apply lookup_delete_ne. apply Hh. left.
      * intros b Hb. apply Hh. right. exact Hb.
Qed.

(** An entry that the loop finds is handed to the receipts manager. *)
Lemma drainPending_saves (blocks : list Block) (w : World) (m : gmap N (list N))
    (b : Block) (rs : list N) :
  b ∈ blocks ->
  pendingReceipts w = Some m ->
  m !! hash b = Some rs ->
  is_Some (receiptsManager w) ->
  exists b0, b0 ∈ blocks /\ hash b0 = hash b
             /\ EvSaveReceipts b0 rs ∈ trace (fold_left drainOne blocks w).
Proof.
  revert w m. induction blocks as [|a blocks IH]; intros w m Hb Hm Hl Hr.
  - inversion Hb.
  - simpl. destruct (decide (hash a = hash b)) as [Heq|Hne].
    + exists a. split; [left|]. split; [exact Heq|].
      destruct (drainPending_frame blocks (drainOne w a)) as (_ & _ & evs & Ht & _).
      rewrite Ht. apply elem_of_app. left.
      destruct Hr as [db Hdb].
      unfold drainOne, ReceiptsManager.saveReceipts.
      rewrite Hm, Heq, Hl, Hdb. simpl. apply elem_of_app. right. left.
    + apply elem_of_cons in Hb as [->|Hb]; [congruence|].
      destruct (IH (drainOne w a) (delete (hash a) m) Hb) as (b0 & Hb0 & Hh & Hin).
      * apply drainOne_pending, Hm.
      * rewrite lookup_delete_ne; auto.
      * apply drainOne_manager, Hr.
      * exists b0. split; [right; exact Hb0|]. auto.
Qed.

(** C5, as stated, fails: a [setHead([B11])] call on an engine that is not
    started returns [false], and one whose head block has no state root
    throws; both leave the pending entry of block 11 in the map. *)
Lemma setHead_can_leave_pending_entry :
  fst (setHead Scenario.paris [Scenario.blk 11] None None
         (Scenario.halted Scenario.syncedPending11)) = Ok false
  /\ pendingReceipts (snd (setHead Scenario.paris [Scenario.blk 11] None None
                             (Scenario.halted Scenario.syncedPending11)))
       = Some {[ hash (Scenario.blk 11) := [311%N] ]}
  /\ fst (setHead Scenario.paris [Scenario.blk 11] None None Scenario.syncedPending11)
       = Throw "vmHeadBlock's stateRoot not found"
  /\ pendingReceipts (snd (setHead Scenario.paris [Scenario.blk 11] None None
                             Scenario.syncedPending11))
       = Some {[ hash (Scenario.blk 11) := [311%N] ]}.
Proof. vm_compute. repeat split. Qed.

(** C5: after a [setHead(blocks)] call that returns [true], the pending map
    has no entry for the hash of any block of [blocks], and every entry the
    call found there was handed to [receiptsManager.saveReceipts] before it
    was deleted. *)
Theorem setHead_drains_pending (C : Collaborators) (blocks : list Block)
    (finalizedBlock safeBlock : option Block) (w w' : World) :
  setHead C blocks finalizedBlock safeBlock w = (Ok true, w') ->
  (forall m' b, pendingReceipts w' = Some m' -> b ∈ blocks -> m' !! hash b = None)
  /\ (forall m b rs,
         pendingReceipts w = Some m -> b ∈ blocks -> m !! hash b = Some rs ->
         is_Some (receiptsManager w) ->
         exists b0, b0 ∈ blocks /\ hash b0 = hash b /\ EvSaveReceipts b0 rs ∈ trace w').
Proof.
  intros H. unfold setHead in H.
  destruct (negb (started w) || shutdown w); [discriminate|].
  msimpl H.
  destruct (last blocks) as [vmHeadBlock|]; msimpl H; [|discriminate].
  destruct (Vm.hasStateRoot _ _); msimpl H; [|discriminate].
  destruct (chain_putBlocks C blocks (chain w)) as [rp c1] eqn:Hp.
  destruct rp as [[]|e]; msimpl H; [|discriminate].
  match type of H with context [fold_left drainOne blocks ?w0] =>
    pose proof (drainPending_pending blocks w0) as Hpend;
    pose proof (drainPending_saves blocks w0) as Hsave;
    pose proof (drainPending_none blocks w0) as Hnone;
    remember (fold_left drainOne blocks w0) as wd eqn:Hwd; clear Hwd
  end.
  simpl in Hpend, Hsave, Hnone.
  assert (Hw' : pendingReceipts w' = pendingReceipts wd
                /\ forall e, e ∈ trace wd -> e ∈ trace w').
  { destruct (Blockchain.getBlockNum _ (chain wd)) as [blockByNumber|e]; msimpl H;
      [|discriminate].
    destruct (equalsBytes _ _); msimpl H; [|discriminate].
    destruct safeBlock, finalizedBlock; msimpl H; inversion H; subst; clear H; simpl;
      (split; [reflexivity|]); intros e He; rewrite !elem_of_app; auto 10. }
  destruct Hw' as [Hp' Ht']. split.
  - intros m' b Hm' Hb. rewrite Hp' in Hm'.
    destruct (pendingReceipts w) as [m|] eqn:Hm.
    + destruct (Hpend m eq_refl) as (m2 & Hm2 & Hgone & _).
      rewrite Hm2 in Hm'. inversion Hm'; subst. auto.
    + rewrite Hnone in Hm'; [|reflexivity]. simpl in Hm'. congruence.
  - intros m b rs Hm Hb Hl Hr.
    destruct (Hsave m b rs Hb Hm Hl Hr) as (b0 & Hb0 & Hh & Hin). eauto.
Qed.

(** Block 11 is staged, then promoted with [setHead([B11], {safe: B10,
    finalized: B9})]. *)
Lemma setHead_drains_pending_witness :
  (forall m' b,
      pendingReceipts (snd (setHead Scenario.paris [Scenario.blk 11] (Some (Scenario.blk 9))
                              (Some (Scenario.blk 10)) Scenario.staged11)) = Some m' ->
      b ∈ [Scenario.blk 11] -> m' !! hash b = None)
  /\ (forall m b rs,
         pendingReceipts Scenario.staged11 = Some m -> b ∈ [Scenario.blk 11] ->
         m !! hash b = Some rs -> is_Some (receiptsManager Scenario.staged11) ->
         exists b0, b0 ∈ [Scenario.blk 11] /\ hash b0 = hash b
                    /\ EvSaveReceipts b0 rs
                         ∈ trace (snd (setHead Scenario.paris [Scenario.blk 11]
                                         (Some (Scenario.blk 9)) (Some (Scenario.blk 10))
                                         Scenario.staged11))).
Proof.
  apply (setHead_drains_pending Scenario.paris [Scenario.blk 11] (Some (Scenario.blk 9))
           (Some (Scenario.blk 10)) Scenario.staged11).
  vm_compute. reflexivity.
Defined.

(** ** [runWithoutSetHead]: the staged block is not made canonical *)

Lemma stagingOps_tables (block : Block) (parentTd : Z) (c : Chain) :
  let c' := Blockchain.batch (stagingOps block parentTd) c in
  db_td c' = <[hash block := parentTd + difficulty (header block)]> (db_td c)
  /\ db_header c' = <[hash block := header block]> (db_header c)
  /\ db_body c' = <[hash block := transactions block]> (db_body c)
  /\ db_hashToNumber c' = <[hash block := number (header block)]> (db_hashToNumber c)
  /\ db_numberToHash c' = db_numberToHash c
  /\ heads c' = heads c
  /\ headBlockHash c' = headBlockHash c.
Proof.
  simpl. repeat split. apply insert_insert_eq.
Qed.

Lemma staging_keeps_lookup_by_number (block : Block) (parentTd : Z) (c : Chain) :
  (forall n, db_numberToHash c !! n = Some (hash block) ->
             Blockchain.getBlockByHash (hash block) c = Some block) ->
  forall n, Blockchain.getBlockByNumber n (Blockchain.batch (stagingOps block parentTd) c)
            = Blockchain.getBlockByNumber n c.
Proof.
  intros Hstore n.
  destruct (stagingOps_tables block parentTd c) as (_ & Hh & Hb & _ & Hn & _).
  unfold Blockchain.getBlockByNumber. cbv zeta in *. rewrite Hn.
  destruct (db_numberToHash c !! n) as [h|] eqn:Hl; [|reflexivity].
  unfold Blockchain.getBlockByHash at 1. rewrite Hh, Hb.
  destruct (decide (h = hash block)) as [->|Hne].
  - rewrite !lookup_insert_eq, (Hstore n Hl). destruct block; reflexivity.
  - rewrite !lookup_insert_ne by congruence. reflexivity.
Qed.

Lemma stashReceipts_frame (b : Block) (rs : list N) (w : World) :
  chain (stashReceipts b rs w) = chain w
  /\ trace (stashReceipts b rs w) = trace w.
Proof. unfold stashReceipts. destruct (pendingReceipts w); auto. Qed.

(** What a successful staging call did to the store and to the trace. *)
Lemma runWithoutSetHead_staged (C : Collaborators) (opts : RunBlockOpts)
    (receipts : option (list N)) (blocking : bool) (w w' : World) :
  runWithoutSetHead C opts receipts blocking false w = (Ok true, w') ->
  exists parentTd evs,
    Blockchain.getTotalDifficulty (parentHash (header (opt_block opts))) (chain w) = Ok parentTd
    /\ trace w' = trace w ++ evs
    /\ batches evs = [stagingOps (opt_block opts) parentTd]
    /\ chain w' = Blockchain.batch (stagingOps (opt_block opts) parentTd) (chain w).
Proof.
  intros H. unfold runWithoutSetHead in H.
  destruct (negb blocking && running w || negb (started w) || shutdown w); [discriminate|].
  set (block := opt_block opts) in *.
  msimpl H.
  destruct receipts as [rs|]; msimpl H.
  - match type of H with context [stashReceipts block rs ?w0] =>
      destruct (stashReceipts_frame block rs w0) as [Hc Ht];
      remember (stashReceipts block rs w0) as w1 eqn:Hw1; clear Hw1
    end.
    simpl in Hc, Ht. rewrite Hc in H.
    destruct (Blockchain.getTotalDifficulty _ (chain w)) as [parentTd|e] eqn:Htd; msimpl H;
      [|discriminate].
    inversion H; subst; clear H. simpl. rewrite ?Ht, ?Hc.
    exists parentTd, [EvLockAcquire; EvBatch (stagingOps block parentTd); EvLockRelease].
    rewrite <- !app_assoc. auto.
  - destruct (vm_runBlock C _ _) as [[result|e] s] eqn:Hvm; msimpl H; [|discriminate].
    match type of H with context [stashReceipts block ?rs ?w0] =>
      destruct (stashReceipts_frame block rs w0) as [Hc Ht];
      remember (stashReceipts block rs w0) as w1 eqn:Hw1; clear Hw1
    end.
    simpl in Hc, Ht. rewrite Hc in H.
    destruct (Blockchain.getTotalDifficulty _ (chain w)) as [parentTd|e] eqn:Htd; msimpl H;
      [|discriminate].
    inversion H; subst; clear H. simpl. rewrite ?Ht, ?Hc.
    eexists parentTd,
      [EvLockAcquire; EvRunBlock _; EvBatch (stagingOps block parentTd); EvLockRelease].
    rewrite <- !app_assoc. simpl. auto.
Qed.

(** C6: a [runWithoutSetHead] call that returns [true] with
    [skipBlockchain = false] issues exactly one batch; the batch writes the
    total difficulty, the header and body, and the hash->number entry of the
    block; the number->hash table is the one from before the call, and a
    lookup by number gives what it gave before (in a store where a canonical
    entry for the block's hash already comes with the block itself). *)
Theorem runWithoutSetHead_keeps_canonical (C : Collaborators) (opts : RunBlockOpts)
    (receipts : option (list N)) (blocking : bool) (w w' : World) :
  runWithoutSetHead C opts receipts blocking false w = (Ok true, w') ->
  (forall n, db_numberToHash (chain w) !! n = Some (hash (opt_block opts)) ->
             Blockchain.getBlockByHash (hash (opt_block opts)) (chain w)
             = Some (opt_block opts)) ->
  exists parentTd evs,
    Blockchain.getTotalDifficulty (parentHash (header (opt_block opts))) (chain w) = Ok parentTd
    /\ trace w' = trace w ++ evs
    /\ batches evs = [stagingOps (opt_block opts) parentTd]
    /\ chain w' = Blockchain.batch (stagingOps (opt_block opts) parentTd) (chain w)
    /\ db_td (chain w') !! hash (opt_block opts)
        = Some (parentTd + difficulty (header (opt_block opts)))
    /\ db_header (chain w') !! hash (opt_block opts) = Some (header (opt_block opts))
    /\ db_body (chain w') !! hash (opt_block opts) = Some (transactions (opt_block opts))
    /\ db_hashToNumber (chain w') !! hash (opt_block opts)
        = Some (number (header (opt_block opts)))
    /\ db_numberToHash (chain w') = db_numberToHash (chain w)
    /\ forall n, Blockchain.getBlockByNumber n (chain w')
                 = Blockchain.getBlockByNumber n (chain w).
Proof.
  intros H Hstore.
  destruct (runWithoutSetHead_staged C opts receipts blocking w w' H)
    as (parentTd & evs & Htd & Ht & Hb & Hc).
  destruct (stagingOps_tables (opt_block opts) parentTd (chain w))
    as (H1 & H2 & H3 & H4 & H5 & _).
  cbv zeta in *.
  exists parentTd, evs. rewrite Hc, H1, H2, H3, H4, H5, !lookup_insert_eq.
  repeat split; auto.
  apply staging_keeps_lookup_by_number. exact Hstore.
Qed.

(** Staging block 11 on the synced node. *)
Lemma runWithoutSetHead_keeps_canonical_witness :
  exists parentTd evs,
    Blockchain.getTotalDifficulty (parentHash (header (Scenario.blk 11)))
      (chain Scenario.synced) = Ok parentTd
    /\ trace Scenario.staged11 = trace Scenario.synced ++ evs
    /\ batches evs = [stagingOps (Scenario.blk 11) parentTd]
    /\ chain Scenario.staged11
        = Blockchain.batch (stagingOps (Scenario.blk 11) parentTd) (chain Scenario.synced)
    /\ db_td (chain Scenario.staged11) !! hash (Scenario.blk 11)
        = Some (parentTd + difficulty (header (Scenario.blk 11)))
    /\ db_header (chain Scenario.staged11) !! hash (Scenario.blk 11)
        = Some (header (Scenario.blk 11))
    /\ db_body (chain Scenario.staged11) !! hash (Scenario.blk 11)
        = Some (transactions (Scenario.blk 11))
    /\ db_hashToNumber (chain Scenario.staged11) !! hash (Scenario.blk 11)
        = Some (number (header (Scenario.blk 11)))
    /\ db_numberToHash (chain Scenario.staged11) = db_numberToHash (chain Scenario.synced)
    /\ forall n, Blockchain.getBlockByNumber n (chain Scenario.staged11)
                 = Blockchain.getBlockByNumber n (chain Scenario.synced).
Proof.
  apply (runWithoutSetHead_keeps_canonical Scenario.paris
           (Scenario.justBlock (Scenario.blk 11)) None true Scenario.synced
           Scenario.staged11).
  - vm_compute. reflexivity.
  - intros n Hn. exfalso.
    assert (Hall : map_Forall (fun (_ : Z) (h : N) => h <> 111%N)
                     (db_numberToHash (chain Scenario.synced))).
    { apply (bool_decide_unpack _). vm_compute. exact I. }
    exact (Hall n _ Hn eq_refl).
Defined.

(** ** [run]: more fuel does not change a result *)

Lemma runLoop_more_fuel (C : Collaborators) (loop runOnlybatched : bool) (f : nat) :
  forall (st : LoopState) (w w' : World) (r : Result NumExecuted) (f' : nat),
    runLoop C f loop runOnlybatched st w = (Some r, w') ->
    (f <= f')%nat ->
    runLoop C f' loop runOnlybatched st w = (Some r, w').
Proof.
  induction f as [|f IH]; intros st w w' r f' H Hle.
  - destruct f'; simpl in *; destruct (loopCondition _ _ _ _); congruence.
  - destruct f' as [|f']; [lia|]. simpl in *.
    destruct (loopCondition _ _ _ _); [|exact H].
    destruct (runPass C st w) as [[st'|e] w1]; [|exact H].
    apply (IH _ _ _ _ _ H). lia.
Qed.

Lemma run_more_fuel (C : Collaborators) (loop runOnlybatched : bool) (f f' : nat)
    (w w' : World) (r : Result Z) :
  run C f loop runOnlybatched w = (Some r, w') ->
  (f <= f')%nat ->
  run C f' loop runOnlybatched w = (Some r, w').
Proof.
  unfold run. destruct (running w || negb (started w) || shutdown w)%bool; [auto|].
  unfold runWithLock, finally, runBody.
  destruct (Blockchain.getIteratorHead _ _); [|auto].
  destruct (Blockchain.getCanonicalHeadBlock _); [|auto].
  intros H Hle.
  match type of H with context [runLoop C f loop runOnlybatched ?st ?w0] =>
    destruct (runLoop C f loop runOnlybatched st w0) as [[r0|] w1] eqn:Hl; [|discriminate];
    rewrite (runLoop_more_fuel C loop runOnlybatched f st w0 w1 r0 f' Hl Hle)
  end.
  exact H.
Qed.

(** ** [run]: error handling and backstep *)

Lemma getBlock_hash (h : N) (c : Chain) (b : Block) :
  Blockchain.getBlock h c = Ok b -> hash b = h.
Proof.
  unfold Blockchain.getBlock, Blockchain.getBlockByHash.
  destruct (db_header c !! h), (db_body c !! h); intros H; inversion H; reflexivity.
Qed.

Lemma onBlock_locals (C : Collaborators) (block : Block) (reorg : bool) (l l' : RunLocals)
    (w w' : World) (r : Result unit) :
  onBlock C block reorg l w = (r, l', w') ->
  errorBlock l = None ->
  (forall lb, headBlock l = Some lb -> reorg = false ->
              hash lb = parentHash (header block)) ->
  match r with
  | Ok _ => errorBlock l' = None /\ headBlock l' = Some block
  | Throw _ =>
      forall eb, errorBlock l' = Some eb ->
                 eb = block
                 /\ exists hb, headBlock l' = Some hb /\ hash hb = parentHash (header block)
  end.
Proof.
  intros H Herr Hlast. unfold onBlock in H.
  destruct (bool_decide (headBlock l = None) || reorg)%bool eqn:Hfirst.
  - destruct (Blockchain.getBlock _ _) as [hb|e] eqn:Hget.
    + apply getBlock_hash in Hget.
      destruct reorg.
      * destruct (executeBlock C block _ _) as [[[]|e] w2];
          inversion H; subst; clear H; simpl; [auto|].
        intros eb Heb. inversion Heb; subst. eauto.
      * destruct (executeBlock C block _ _) as [[[]|e] w2];
          inversion H; subst; clear H; simpl; [auto|].
        intros eb Heb. inversion Heb; subst. eauto.
    + inversion H; subst; clear H. intros eb Heb. congruence.
  - apply orb_false_iff in Hfirst as [Hhb ->].
    apply bool_decide_eq_false in Hhb.
    destruct (headBlock l) as [lb|] eqn:Hl; [|congruence].
    specialize (Hlast lb eq_refl eq_refl).
    destruct (executeBlock C block _ _) as [[[]|e] w2];
      inversion H; subst; clear H; simpl; [auto|].
    intros eb Heb. inversion Heb; subst. rewrite Hl. eauto.
Qed.

Lemma iterate_error_locals (C : Collaborators) (name : string) (k : nat) :
  forall (nextNumber : Z) (lastBlock : option Block) (ran : Z) (l l1 : RunLocals)
         (w w1 : World) (e : string) (eb : Block),
    errorBlock l = None ->
    headBlock l = lastBlock ->
    iterate name (onBlock C) k nextNumber lastBlock ran l w = (Throw e, l1, w1) ->
    errorBlock l1 = Some eb ->
    exists hb, headBlock l1 = Some hb /\ hash hb = parentHash (header eb).
Proof.
  induction k as [|k IH]; intros nextNumber lastBlock ran l l1 w w1 e eb Herr Hhead H Heb;
    simpl in H; [discriminate|].
  destruct (Blockchain.getBlockByNumber nextNumber (chain w)) as [nextBlock|];
    [|discriminate].
  destruct (onBlock C nextBlock _ l w) as [[r l'] w'] eqn:Hcb.
  apply onBlock_locals in Hcb; [|exact Herr|].
  - destruct r as [[]|e'].
    + destruct Hcb as [Herr' Hhead'].
      eapply IH; [exact Herr' | exact Hhead' | exact H | exact Heb].
    + inversion H; subst; clear H.
      destruct (Hcb eb Heb) as [-> Hhb]. exact Hhb.
  - intros lb Hlb Hnoreorg. subst lastBlock. rewrite Hlb in Hnoreorg.
    apply negb_false_iff in Hnoreorg. apply N.eqb_eq in Hnoreorg. exact Hnoreorg.
Qed.

Lemma iterator_error_locals (C : Collaborators) (name : string) (k : nat)
    (l l1 : RunLocals) (w w1 : World) (e : string) (eb : Block) :
  errorBlock l = None ->
  headBlock l = None ->
  iterator name (onBlock C) k l w = (Throw e, l1, w1) ->
  errorBlock l1 = Some eb ->
  exists hb, headBlock l1 = Some hb /\ hash hb = parentHash (header eb).
Proof.
  intros Herr Hhead H Heb. unfold iterator in H.
  destruct (Blockchain.getIteratorHead name (chain w)) as [head|e0].
  - eapply iterate_error_locals; eauto.
  - inversion H; subst. congruence.
Qed.

(** A phrase found in the message of an error is found in [`${error}`]. *)
Lemma includes_cons (s needle : string) (c : ascii) :
  Util.includes s needle = true -> Util.includes (String c s) needle = true.
Proof.
  intros H.
  change (Util.includes (String c s) needle)
    with (String.prefix needle (String c s) || Util.includes s needle)%bool.
  rewrite H. apply orb_true_r.
Qed.

Lemma errorToString_includes (message needle : string) :
  Util.includes (Util.toLowerCase message) needle = true ->
  Util.includes (Util.toLowerCase (Util.errorToString message)) needle = true.
Proof.
  intros H. unfold Util.errorToString. cbn [String.append Util.toLowerCase].
  repeat apply includes_cons. exact H.
Qed.

Lemma onIteratorError_spec (error : string) (l : RunLocals) (start eb : Block) (w : World) :
  errorBlock l = Some eb ->
  exists w2 evs,
    onIteratorError error l start w
      = (Ok (Num (number (header eb) - number (header start))), w2)
    /\ trace w2 = trace w ++ evs
    /\ EvVMError error ∈ evs
    /\ vm w2 = vm w
    /\ match headBlock l with
       | Some hb =>
           if (Util.includes (Util.toLowerCase (Util.errorToString error)) missingRootPhrase
               && (1 <? number (header eb))
               && Vm.hasStateRoot (stateRoot (header hb)) (vm w))%bool
           then cursorMoves evs = [("vm"%string, parentHash (header hb))]
                /\ heads (chain w2) = <["vm"%string := parentHash (header hb)]> (heads (chain w))
           else cursorMoves evs = [] /\ heads (chain w2) = heads (chain w)
       | None => cursorMoves evs = [] /\ heads (chain w2) = heads (chain w)
       end.
Proof.
  intros He. unfold onIteratorError. rewrite He.
  destruct (_ && (1 <? _))%bool; simpl.
  - destruct (headBlock l) as [hb|]; mgoal.
    + destruct (Vm.hasStateRoot _ _); mgoal; destruct (debugCode w); mgoal;
        eexists _, _; (split; [reflexivity|]); simpl;
        (split; [rewrite <- ?app_assoc; simpl; reflexivity|]);
        (split; [rewrite ?elem_of_cons; auto 10|]); auto.
    + destruct (debugCode w); mgoal;
        eexists _, _; (split; [reflexivity|]); simpl;
        (split; [rewrite <- ?app_assoc; simpl; reflexivity|]);
        (split; [rewrite ?elem_of_cons; auto 10|]); auto.
  - mgoal. destruct (debugCode w); mgoal;
      eexists _, _; (split; [reflexivity|]); simpl;
      (split; [rewrite <- ?app_assoc; simpl; reflexivity|]);
      (split; [rewrite ?elem_of_cons; auto 10|]); destruct (headBlock l); auto.
Qed.

Lemma runPass_after_error (C : Collaborators) (st : LoopState) (w w1 w2 : World)
    (l1 : RunLocals) (error : string) (k : Z) :
  iterator "vm" (onBlock C) (numBlocksPerIteration w) (passLocals st) w
    = (Throw error, l1, w1) ->
  onIteratorError error l1 (startHeadBlock st) w1 = (Ok (Num k), w2) ->
  chain (snd (runPass C st w)) = chain w2
  /\ (exists post, trace (snd (runPass C st w)) = trace w2 ++ post /\ cursorMoves post = [])
  /\ forall st' w3, runPass C st w = (Ok st', w3) -> numExecuted st' = Num k.
Proof.
  intros Hit Hh. unfold runPass. rewrite Hit, Hh. unfold refreshHeads. mgoal.
  destruct (Blockchain.getIteratorHead "vm" (chain w2)) as [endHead|e]; mgoal.
  - destruct (Blockchain.getCanonicalHeadBlock (chain w2)) as [canonical|e]; mgoal.
    + split; [reflexivity|]. split; [eexists [_]; split; reflexivity|].
      intros st' w3 H. inversion H; subst. reflexivity.
    + split; [reflexivity|]. split; [eexists [_]; split; reflexivity|].
      intros st' w3 H. discriminate.
  - split; [reflexivity|]. split; [exists []; rewrite app_nil_r; split; reflexivity|].
    intros st' w3 H. discriminate.
Qed.

(** C3: when a pass of [run] ends with a per-block error whose message, in
    lower case, contains "does not contain state root", on a block of number
    above 1, then [headBlock] is defined and is the parent of the block that
    failed; if the state trie holds the state root of [headBlock], the rest
    of the pass makes exactly one [setIteratorHead] call, which puts the [vm]
    cursor on [headBlock.parentHash]; otherwise (and also for an undefined
    [headBlock]) it makes none and the cursors stay as the iterator left
    them. *)
Theorem backstep_on_missing_state_root (C : Collaborators) (st : LoopState) (w w1 : World)
    (l1 : RunLocals) (error : string) (eb : Block) :
  iterator "vm" (onBlock C) (numBlocksPerIteration w) (passLocals st) w
    = (Throw error, l1, w1) ->
  errorBlock l1 = Some eb ->
  Util.includes (Util.toLowerCase error) missingRootPhrase = true ->
  1 < number (header eb) ->
  (exists hb, headBlock l1 = Some hb /\ hash hb = parentHash (header eb))
  /\ exists evs,
       trace (snd (runPass C st w)) = trace w1 ++ evs
       /\ match headBlock l1 with
          | Some hb =>
              if Vm.hasStateRoot (stateRoot (header hb)) (vm w1)
              then cursorMoves evs = [("vm"%string, parentHash (header hb))]
                   /\ heads (chain (snd (runPass C st w)))
                      = <["vm"%string := parentHash (header hb)]> (heads (chain w1))
              else cursorMoves evs = []
                   /\ heads (chain (snd (runPass C st w))) = heads (chain w1)
          | None => cursorMoves evs = []
                    /\ heads (chain (snd (runPass C st w))) = heads (chain w1)
          end.
Proof.
  intros Hit Heb Hmsg Hnum. apply errorToString_includes in Hmsg. split.
  - eapply iterator_error_locals; [| |exact Hit|exact Heb]; reflexivity.
  - destruct (onIteratorError_spec error l1 (startHeadBlock st) eb w1 Heb)
      as (w2 & evs & Hh & Ht & _ & _ & Hcur).
    destruct (runPass_after_error C st w w1 w2 l1 error _ Hit Hh)
      as (Hc & (post & Hpost & Hnomove) & _).
    exists (evs ++ post). rewrite Hpost, Ht, <- app_assoc. split; [reflexivity|].
    rewrite Hc. unfold cursorMoves in *. rewrite omap_app, Hnomove, app_nil_r.
    rewrite Hmsg in Hcur. apply Z.ltb_lt in Hnum. rewrite Hnum in Hcur. simpl in Hcur.
    exact Hcur.
Qed.

(** The missing-state-root failure is reported on block 6 while the state
    root of block 5 is present: the pass steps the [vm] cursor back to the
    parent of block 5. *)
Lemma backstep_on_missing_state_root_witness :
  (exists hb, Some (Scenario.blk 5) = Some hb /\ hash hb = parentHash (header (Scenario.blk 6)))
  /\ exists evs,
       trace (snd (runPass (Scenario.stale 6)
                     (loopStart (Scenario.blk 5) (Scenario.blk 10))
                     Scenario.executed5))
         = (trace Scenario.executed5
              ++ [EvRunBlock {| opt_block := Scenario.blk 6;
                                opt_root := Some (stateRoot (header (Scenario.blk 5)));
                                opt_clearCache := Some false;
                                opt_skipBlockValidation := Some false;
                                opt_skipHeaderValidation := Some true |}]) ++ evs
       /\ cursorMoves evs = [("vm"%string, hash (Scenario.blk 4))]
       /\ heads (chain (snd (runPass (Scenario.stale 6)
                               (loopStart (Scenario.blk 5) (Scenario.blk 10))
                               Scenario.executed5)))
          = <["vm"%string := hash (Scenario.blk 4)]> (heads (chain Scenario.executed5)).
Proof.
  exact (backstep_on_missing_state_root (Scenario.stale 6)
           (loopStart (Scenario.blk 5) (Scenario.blk 10))
           Scenario.executed5
           (emit (EvRunBlock {| opt_block := Scenario.blk 6;
                                opt_root := Some (stateRoot (header (Scenario.blk 5)));
                                opt_clearCache := Some false;
                                opt_skipBlockValidation := Some false;
                                opt_skipHeaderValidation := Some true |})
                 Scenario.executed5)
           {| headBlock := Some (Scenario.blk 5);
              parentState := Some (stateRoot (header (Scenario.blk 5)));
              errorBlock := Some (Scenario.blk 6);
              clearCache := false |}
           Scenario.missingRootMessage (Scenario.blk 6)
           ltac:(vm_compute; reflexivity) eq_refl ltac:(vm_compute; reflexivity)
           ltac:(vm_compute; reflexivity)).
Defined.

(** *** The configuration is not touched by a pass *)







(** *** From a pass to the call *)

Lemma runLoop_stop (C : Collaborators) (f : nat) (loop runOnlybatched : bool)
    (st : LoopState) (w : World) :
  loopCondition loop runOnlybatched st w = false ->
  runLoop C f loop runOnlybatched st w = (Some (Ok (numExecuted st)), w).
Proof. intros H. destruct f; simpl; rewrite H; reflexivity. Qed.






(** ** [run]: the value returned *)

(** C7 at concrete inputs: on the store with blocks 0..10 and four blocks per
    iteration, three calls [run(false)] return 4, 4 and 2 and leave the [vm]
    cursor on blocks 4, 8 and 10; one call [run(true)] runs blocks 1 to 10,
    moves the cursor from block 0 to block 10 and returns 2, the count of its
    last pass. *)
Theorem run_returns_last_pass_count (fuel : nat) :
  (run Scenario.paris (S fuel) false false Scenario.fresh
     = (Some (Ok 4), Scenario.afterFirst)
   /\ heads (chain Scenario.afterFirst) !! "vm"%string = Some (hash (Scenario.blk 4)))
  /\ (run Scenario.paris (S fuel) false false Scenario.afterFirst
        = (Some (Ok 4), Scenario.afterSecond)
      /\ heads (chain Scenario.afterSecond) !! "vm"%string = Some (hash (Scenario.blk 8)))
  /\ (run Scenario.paris (S fuel) false false Scenario.afterSecond
        = (Some (Ok 2), Scenario.afterThird)
      /\ heads (chain Scenario.afterThird) !! "vm"%string = Some (hash (Scenario.blk 10)))
  /\ (run Scenario.paris (3 + fuel) true false Scenario.fresh
        = (Some (Ok 2), Scenario.afterLooped)
      /\ heads (chain Scenario.fresh) !! "vm"%string = Some (hash (Scenario.blk 0))
      /\ heads (chain Scenario.afterLooped) !! "vm"%string = Some (hash (Scenario.blk 10))
      /\ blocksRun (trace Scenario.afterLooped) = map Scenario.blk (seq 1 10)).
Proof.
  repeat split;
    try (apply (run_more_fuel _ _ _ 1); [vm_compute; reflexivity | lia]);
    try (apply (run_more_fuel _ _ _ 3); [vm_compute; reflexivity | lia]);
    vm_compute; reflexivity.
Qed.

(** ** [run]: hardfork switch *)





(** ** The gate: mutual exclusion *)

Import Gate.

Lemma countInBody_insert (ps : list Pc) (t : nat) (old new : Pc) :
  ps !! t = Some old ->
  (countInBody (<[t := new]> ps) + (if decide (old = InBody) then 1 else 0)
   = countInBody ps + (if decide (new = InBody) then 1 else 0))%nat.
Proof.
  unfold countInBody. revert t. induction ps as [|p ps IH]; intros t Hl; [discriminate|].
  destruct t as [|t]; simpl in *.
  - inversion Hl; subst. rewrite !filter_cons.
    destruct (decide (old = InBody)), (decide (new = InBody)); simpl; lia.
  - specialize (IH t Hl). rewrite !filter_cons.
    destruct (decide (p = InBody)); simpl; lia.
Qed.

Lemma initial_invariant (n : nat) : gateInvariant (initial n).
Proof.
  unfold gateInvariant, initial, holders, countInBody. simpl. split.
  - induction n as [|n IH]; simpl; [reflexivity|].
    rewrite filter_cons. destruct (decide (Idle = InBody)); [discriminate|exact IH].
  - split; [constructor|]. split; [|reflexivity].
    intros t Ht. inversion Ht.
Qed.

Lemma step_invariant (a : Action) (c c' : Config) :
  gateInvariant c -> step a c = Some c' -> gateInvariant c'.
Proof.
  intros (Hh & Hnd & Hq & Hfree) Hs. unfold holders in Hh.
  destruct a as [t|t|t]; simpl in Hs.
  - (* Refuse *)
    destruct (tasks c !! t) as [[| | |]|] eqn:Ht; try discriminate.
    inversion Hs; subst; clear Hs. unfold gateInvariant, holders. simpl.
    fold (countInBody (<[t:=Finished]> (tasks c))).
    pose proof (countInBody_insert _ _ _ Finished Ht) as Hc.
    destruct (decide (Idle = InBody)); [discriminate|].
    destruct (decide (Finished = InBody)); [discriminate|].
    split; [lia|]. split; [exact Hnd|]. split; [|exact Hfree].
    intros t' Ht'. specialize (Hq t' Ht').
    rewrite list_lookup_insert_ne; [exact Hq|]. intros ->. congruence.
  - (* Enter *)
    destruct (tasks c !! t) as [[| | |]|] eqn:Ht; try discriminate.
    inversion Hs; subst; clear Hs. unfold acquire.
    destruct (held (lock c)) eqn:Hheld; unfold gateInvariant, holders; simpl.
    + fold (countInBody (<[t:=Suspended]> (tasks c))).
      pose proof (countInBody_insert _ _ _ Suspended Ht) as Hc.
      destruct (decide (Idle = InBody)); [discriminate|].
      destruct (decide (Suspended = InBody)); [discriminate|].
      split; [lia|]. split.
      * apply NoDup_app. split; [exact Hnd|]. split; [|apply NoDup_singleton].
        intros t' Ht' Hin. apply list_elem_of_singleton in Hin. subst t'.
        specialize (Hq t Ht'). congruence.
      * split; [|discriminate].
        intros t' Ht'. apply elem_of_app in Ht' as [Ht'|Ht'].
        -- destruct (decide (t' = t)) as [->|Hne].
           ++ apply list_lookup_insert_eq. eapply lookup_lt_Some, Ht.
           ++ rewrite list_lookup_insert_ne by congruence. auto.
        -- apply list_elem_of_singleton in Ht'. subst t'.
           apply list_lookup_insert_eq. eapply lookup_lt_Some, Ht.
    + fold (countInBody (<[t:=InBody]> (tasks c))).
      pose proof (countInBody_insert _ _ _ InBody Ht) as Hc.
      destruct (decide (Idle = InBody)); [discriminate|].
      destruct (decide (InBody = InBody)); [|congruence].
      rewrite (Hfree eq_refl) in *.
      split; [lia|]. split; [constructor|]. split; [|discriminate].
      intros t' Ht'. inversion Ht'.
  - (* Leave *)
    destruct (tasks c !! t) as [[| | |]|] eqn:Ht; try discriminate.
    inversion Hs; subst; clear Hs.
    pose proof (countInBody_insert _ _ _ Finished Ht) as Hc.
    destruct (decide (InBody = InBody)); [|congruence].
    destruct (decide (Finished = InBody)); [discriminate|].
    destruct (held (lock c)) eqn:Hheld; [|lia].
    unfold release. simpl.
    destruct (waiting (lock c)) as [|t' q] eqn:Hw; unfold gateInvariant, holders; simpl.
    + fold (countInBody (<[t:=Finished]> (tasks c))).
      split; [lia|]. split; [constructor|]. split; [|reflexivity].
      intros t' Ht'. inversion Ht'.
    + assert (Ht'S : tasks c !! t' = Some Suspended) by (apply Hq; left).
      assert (Hne : t <> t') by (intros ->; congruence).
      assert (Ht'F : <[t:=Finished]> (tasks c) !! t' = Some Suspended)
        by (rewrite list_lookup_insert_ne; auto).
      fold (countInBody (<[t':=InBody]> (<[t:=Finished]> (tasks c)))).
      pose proof (countInBody_insert _ _ _ InBody Ht'F) as Hc'.
      destruct (decide (Suspended = InBody)); [discriminate|].
      destruct (decide (InBody = InBody)); [|congruence].
      apply NoDup_cons in Hnd as [Hnotin Hnd].
      split; [lia|]. split; [exact Hnd|]. split; [|discriminate].
      intros t'' Ht''.
      assert (t'' <> t') by (intros ->; contradiction).
      assert (Hs'' : tasks c !! t'' = Some Suspended) by (apply Hq; right; exact Ht'').
      rewrite !list_lookup_insert_ne; [exact Hs''| |congruence].
      intros ->. congruence.
Qed.

Lemma execute_invariant (schedule : list Action) :
  forall c c', gateInvariant c -> execute schedule c = Some c' -> gateInvariant c'.
Proof.
  induction schedule as [|a rest IH]; intros c c' Hinv H; simpl in H.
  - inversion H; subst. exact Hinv.
  - destruct (step a c) as [c1|] eqn:Hs; [|discriminate].
    eapply IH; [|exact H]. eapply step_invariant; eauto.
Qed.


Lemma countInBody_positive (ps : list Pc) (t : nat) :
  ps !! t = Some InBody -> (1 <= countInBody ps)%nat.
Proof.
  revert t. induction ps as [|p ps IH]; intros t Hl; [discriminate|].
  unfold countInBody in *. rewrite filter_cons.
  destruct t as [|t]; simpl in Hl.
  - inversion Hl; subst. destruct (decide (InBody = InBody)); [simpl; lia|congruence].
  - specialize (IH t Hl). destruct (decide (p = InBody)); simpl; lia.
Qed.

Lemma countInBody_unique (ps : list Pc) :
  (countInBody ps <= 1)%nat ->
  forall t u, ps !! t = Some InBody -> ps !! u = Some InBody -> t = u.
Proof.
  induction ps as [|p ps IH]; intros Hc t u Ht Hu; [discriminate|].
  unfold countInBody in *. rewrite filter_cons in Hc.
  destruct t as [|t], u as [|u]; simpl in Ht, Hu; [reflexivity| | |].
  - inversion Ht; subst. pose proof (countInBody_positive ps u Hu) as Hp.
    unfold countInBody in Hp.
    destruct (decide (InBody = InBody)); [simpl in Hc; lia|congruence].
  - inversion Hu; subst. pose proof (countInBody_positive ps t Ht) as Hp.
    unfold countInBody in Hp.
    destruct (decide (InBody = InBody)); [simpl in Hc; lia|congruence].
  - f_equal. apply IH; auto.
    destruct (decide (p = InBody)); simpl in Hc; lia.
Qed.

(** C10: whatever the order in which calls of [run], [runWithoutSetHead] and
    [setHead] reach the gate, return early, and leave their bodies, at most
    one of them is between the acquisition and the release of the lock. *)
Theorem gate_mutual_exclusion (n : nat) (schedule : list Gate.Action) (c : Gate.Config) :
  Gate.execute schedule (Gate.initial n) = Some c ->
  (Gate.holders c <= 1)%nat
  /\ forall t u, Gate.tasks c !! t = Some Gate.InBody ->
                 Gate.tasks c !! u = Some Gate.InBody -> t = u.
Proof.
  intros H.
  pose proof (execute_invariant schedule _ _ (initial_invariant n) H) as (Hh & _).
  assert (Hle : (Gate.holders c <= 1)%nat) by (rewrite Hh; destruct (held (lock c)); lia).
  split; [exact Hle|]. apply countInBody_unique. exact Hle.
Qed.

(** Four calls: the first enters, the second waits, the third is refused
    before the gate, the first leaves and hands the gate to the second. *)
Lemma gate_mutual_exclusion_witness :
  (Gate.holders {| Gate.lock := {| Gate.held := true; Gate.waiting := [] |};
                   Gate.tasks := [Gate.Finished; Gate.InBody; Gate.Finished] |} <= 1)%nat
  /\ forall t u,
       [Gate.Finished; Gate.InBody; Gate.Finished] !! t = Some Gate.InBody ->
       [Gate.Finished; Gate.InBody; Gate.Finished] !! u = Some Gate.InBody -> t = u.
Proof.
  exact (gate_mutual_exclusion 3
           [Gate.Enter 0; Gate.Enter 1; Gate.Refuse 2; Gate.Leave 0]
           {| Gate.lock := {| Gate.held := true; Gate.waiting := [] |};
              Gate.tasks := [Gate.Finished; Gate.InBody; Gate.Finished] |}
           eq_refl).
Defined.

(** ** [run]: what a pass leaves alone *)

Lemma sameBlocks_refl (c : Chain) : sameBlocks c c.
Proof. repeat split. Qed.


Lemma passFrame_refl (w : World) : passFrame w w.
Proof.
  repeat split; try reflexivity; auto.
  exists []. rewrite app_nil_r. split; [reflexivity | constructor].
Qed.

Lemma passFrame_trans (w1 w2 w3 : World) :
  passFrame w1 w2 -> passFrame w2 w3 -> passFrame w1 w3.
Proof.
  intros (H1&H2&H3&H4&H5&H6&H7&H8&H9&H10&evs&Ht&Hev)
         (G1&G2&G3&G4&G5&G6&G7&G8&G9&G10&evs'&Gt&Gev).
  repeat split; try congruence.
  - intros H. apply H8, G8, H.
  - intros H. apply G8, H8, H.
  - destruct H9 as (?&?&?&?&?&?), G9 as (?&?&?&?&?&?). congruence.
  - destruct H9 as (?&?&?&?&?&?), G9 as (?&?&?&?&?&?). congruence.
  - destruct H9 as (?&?&?&?&?&?), G9 as (?&?&?&?&?&?). congruence.
  - destruct H9 as (?&?&?&?&?&?), G9 as (?&?&?&?&?&?). congruence.
  - destruct H9 as (?&?&?&?&?&?), G9 as (?&?&?&?&?&?). congruence.
  - destruct H9 as (?&?&?&?&?&?), G9 as (?&?&?&?&?&?). congruence.
  - intros name Hn. rewrite G10, H10 by exact Hn. reflexivity.
  - exists (evs ++ evs'). rewrite Gt, Ht, (assoc_L (++)). split; [reflexivity|].
    apply Forall_app. auto.
Qed.

Lemma passFrame_emit (w x : World) (e : Event) :
  isPassEvent e -> passFrame w x -> passFrame w (emit e x).
Proof.
  intros He H. eapply passFrame_trans; [exact H|].
  repeat split; try reflexivity; auto.
  exists [e]. split; [reflexivity|]. constructor; [exact He | constructor].
Qed.

Lemma passFrame_set_vm (w x : World) (s : VMState) :
  passFrame w x -> passFrame w (set_vm s x).
Proof.
  intros H. eapply passFrame_trans; [exact H|].
  repeat split; try reflexivity; auto.
  exists []. simpl. rewrite app_nil_r. split; [reflexivity | constructor].
Qed.

Lemma passFrame_set_hardfork (w x : World) (hf : string) :
  passFrame w x -> passFrame w (set_hardfork hf x).
Proof.
  intros H. eapply passFrame_trans; [exact H|].
  repeat split; try reflexivity; auto.
  exists []. simpl. rewrite app_nil_r. split; [reflexivity | constructor].
Qed.

Lemma passFrame_set_commonHardfork (w x : World) (hf : string) :
  passFrame w x -> passFrame w (set_commonHardfork hf x).
Proof.
  intros H. eapply passFrame_trans; [exact H|].
  repeat split; try reflexivity; auto.
  exists []. simpl. rewrite app_nil_r. split; [reflexivity | constructor].
Qed.

Lemma passFrame_saveReceipts (w x : World) (b : Block) (rs : list N) :
  passFrame w x -> passFrame w (ReceiptsManager.saveReceipts b rs x).
Proof.
  intros H. eapply passFrame_trans; [exact H|].
  unfold ReceiptsManager.saveReceipts.
  destruct (receiptsManager x) as [db|] eqn:Hdb; [|apply passFrame_refl].
  repeat split; try reflexivity; simpl; rewrite ?Hdb; eauto.
  exists [EvSaveReceipts b rs]. split; [reflexivity|]. repeat constructor.
Qed.

Lemma passFrame_vm_cursor (w x : World) (h : N) (c : Chain) :
  c = chain x ->
  passFrame w x ->
  passFrame w (set_chain (set_heads (insert "vm"%string h) c) x).
Proof.
  intros -> H. eapply passFrame_trans; [exact H|].
  repeat split; try reflexivity; simpl; auto.
  - intros name Hn. apply lookup_insert_ne. congruence.
  - exists []. rewrite app_nil_r. split; [reflexivity | constructor].
Qed.

(** Peels the updates of a world off a goal [passFrame w (...)] . *)
Ltac frame :=
  repeat first
    [ apply passFrame_refl
    | assumption
    | apply passFrame_emit; [simpl; auto|]
    | apply passFrame_set_vm
    | apply passFrame_set_hardfork
    | apply passFrame_set_commonHardfork
    | apply passFrame_saveReceipts
    | apply passFrame_vm_cursor; [reflexivity|] ].

Lemma executeBlock_frame (C : Collaborators) (block : Block) (l : RunLocals) (w : World) :
  passFrame w (snd (executeBlock C block l w)).
Proof.
  unfold executeBlock.
  cbv beta iota zeta delta [bind ret throw modify gets lift runBlock setHardforkBy]. simpl.
  destruct (Blockchain.getTotalDifficulty _ _) as [td|e]; simpl; [|frame].
  destruct (negb _); simpl.
  - destruct (started w); simpl; [|frame].
    destruct (vm_runBlock C _ _) as [[result|e] s]; simpl; frame.
  - destruct (started w); simpl; [|frame].
    destruct (vm_runBlock C _ _) as [[result|e] s]; simpl; frame.
Qed.

Lemma onBlock_frame (C : Collaborators) (block : Block) (reorg : bool) (l : RunLocals)
    (w : World) :
  passFrame w (snd (onBlock C block reorg l w)).
Proof.
  unfold onBlock.
  destruct (bool_decide (headBlock l = None) || reorg)%bool.
  - destruct (Blockchain.getBlock _ _) as [hb|e]; [|apply passFrame_refl].
    destruct reorg;
      match goal with |- context [executeBlock C block ?l0 ?w0] =>
        pose proof (executeBlock_frame C block l0 w0) as H;
        destruct (executeBlock C block l0 w0) as [[[]|e] w2]
      end; simpl in *; try exact H;
      (eapply passFrame_trans; [|exact H]); frame.
  - match goal with |- context [executeBlock C block ?l0 ?w0] =>
      pose proof (executeBlock_frame C block l0 w0) as H;
      destruct (executeBlock C block l0 w0) as [[[]|e] w2]
    end; exact H.
Qed.

Lemma iterate_frame (C : Collaborators) (k : nat) :
  forall (nextNumber : Z) (lastBlock : option Block) (ran : Z) (l : RunLocals) (w : World),
    passFrame w (snd (iterate "vm" (onBlock C) k nextNumber lastBlock ran l w)).
Proof.
  induction k as [|k IH]; intros nextNumber lastBlock ran l w; simpl; [apply passFrame_refl|].
  destruct (Blockchain.getBlockByNumber nextNumber (chain w)) as [nextBlock|];
    [|apply passFrame_refl].
  match goal with |- context [onBlock C nextBlock ?r l w] =>
    pose proof (onBlock_frame C nextBlock r l w) as H;
    destruct (onBlock C nextBlock r l w) as [[[[]|e] l'] w']
  end; simpl in H; [|exact H].
  eapply passFrame_trans; [|apply IH]. frame.
Qed.

Lemma iterator_frame (C : Collaborators) (k : nat) (l : RunLocals) (w : World) :
  passFrame w (snd (iterator "vm" (onBlock C) k l w)).
Proof.
  unfold iterator. destruct (Blockchain.getIteratorHead "vm" (chain w));
    [apply iterate_frame | apply passFrame_refl].
Qed.

Lemma onIteratorError_frame (error : string) (l : RunLocals) (start : Block) (w : World) :
  passFrame w (snd (onIteratorError error l start w)).
Proof.
  unfold onIteratorError. destruct (errorBlock l) as [eb|]; [|mgoal; frame].
  destruct (_ && (1 <? _))%bool.
  - destruct (headBlock l) as [hb|]; mgoal.
    + destruct (Vm.hasStateRoot _ _); mgoal; destruct (debugCode w); simpl; frame.
    + destruct (debugCode w); simpl; frame.
  - mgoal. destruct (debugCode w); simpl; frame.
Qed.

Lemma refreshHeads_frame (st : LoopState) (l1 : RunLocals) (ne : NumExecuted) (w : World) :
  passFrame w (snd (refreshHeads st l1 ne w)).
Proof.
  unfold refreshHeads.
  destruct ne as [| |n]; mgoal; try apply passFrame_refl;
    destruct (Blockchain.getIteratorHead "vm" (chain w)); mgoal; try apply passFrame_refl;
    destruct (Blockchain.getCanonicalHeadBlock (chain w)); simpl; frame.
Qed.

Lemma runPass_frame (C : Collaborators) (st : LoopState) (w : World) :
  passFrame w (snd (runPass C st w)).
Proof.
  unfold runPass.
  pose proof (iterator_frame C (numBlocksPerIteration w) (passLocals st) w) as Hit.
  destruct (iterator "vm" (onBlock C) (numBlocksPerIteration w) (passLocals st) w)
    as [[r l1] w1]. simpl in Hit.
  destruct r as [count|e].
  - eapply passFrame_trans; [exact Hit | apply refreshHeads_frame].
  - pose proof (onIteratorError_frame e l1 (startHeadBlock st) w1) as Hh.
    destruct (onIteratorError e l1 (startHeadBlock st) w1) as [[ne|e'] w2]; simpl in Hh.
    + eapply passFrame_trans; [exact Hit|].
      eapply passFrame_trans; [exact Hh | apply refreshHeads_frame].
    + simpl. eapply passFrame_trans; eassumption.
Qed.

Lemma runLoop_frame (C : Collaborators) (fuel : nat) (loop runOnlybatched : bool) :
  forall (st : LoopState) (w : World),
    passFrame w (snd (runLoop C fuel loop runOnlybatched st w)).
Proof.
  induction fuel as [|f IH]; intros st w; simpl;
    destruct (loopCondition _ _ _ _); try apply passFrame_refl.
  pose proof (runPass_frame C st w) as H.
  destruct (runPass C st w) as [[st'|e] w1]; simpl in H; [|exact H].
  eapply passFrame_trans; [exact H | apply IH].
Qed.

Lemma passEvent_not_gate (evs : list Event) :
  Forall isPassEvent evs -> Forall (fun e => e <> EvLockAcquire /\ e <> EvLockRelease) evs.
Proof.
  intros H. eapply Forall_impl; [exact H|]. intros e He. split; intros ->; exact He.
Qed.

Lemma saveReceipts_not_gate (evs : list Event) :
  Forall isSaveReceipts evs ->
  Forall (fun e => e <> EvLockAcquire /\ e <> EvLockRelease) evs.
Proof.
  intros H. eapply Forall_impl; [exact H|]. intros e He. split; intros ->; exact He.
Qed.

(** The body of [run], from the world in which the gate was acquired. *)
Lemma runBody_frame (C : Collaborators) (fuel : nat) (loop runOnlybatched : bool) (w : World) :
  passFrame (set_running true w) (snd (runBody C fuel loop runOnlybatched w)).
Proof.
  unfold runBody.
  destruct (Blockchain.getIteratorHead "vm" (chain (set_running true w))) as [start|e];
    [|apply passFrame_refl].
  destruct (Blockchain.getCanonicalHeadBlock (chain (set_running true w))) as [canonical|e];
    [|apply passFrame_refl].
  match goal with |- context [runLoop C fuel loop runOnlybatched ?st ?w0] =>
    pose proof (runLoop_frame C fuel loop runOnlybatched st w0) as H;
    destruct (runLoop C fuel loop runOnlybatched st w0) as [[[ne|e]|] w1]
  end; simpl in *; (eapply passFrame_trans; [|exact H]); frame.
Qed.

Lemma run_through_gate (C : Collaborators) (fuel : nat) (loop runOnlybatched : bool)
    (w : World) :
  (running w || negb (started w) || shutdown w)%bool = false ->
  exists evs,
    trace (snd (run C fuel loop runOnlybatched w))
    = trace w ++ EvLockAcquire :: evs ++ [EvLockRelease]
    /\ Forall isPassEvent evs
    /\ passFrame (set_running true (emit EvLockAcquire w))
         (snd (runBody C fuel loop runOnlybatched (emit EvLockAcquire w)))
    /\ running (snd (run C fuel loop runOnlybatched w)) = false
    /\ chain (snd (run C fuel loop runOnlybatched w))
       = chain (snd (runBody C fuel loop runOnlybatched (emit EvLockAcquire w)))
    /\ pendingReceipts (snd (run C fuel loop runOnlybatched w))
       = pendingReceipts (snd (runBody C fuel loop runOnlybatched (emit EvLockAcquire w))).
Proof.
  intros Hpre. unfold run. rewrite Hpre. unfold runWithLock, finally.
  pose proof (runBody_frame C fuel loop runOnlybatched (emit EvLockAcquire w)) as H.
  destruct (runBody C fuel loop runOnlybatched (emit EvLockAcquire w)) as [r w1]. simpl in *.
  pose proof H as (_&_&_&_&_&_&_&_&_&_&evs&Ht&Hev).
  exists evs. simpl in Ht. rewrite Ht, <- !(assoc_L (++)). simpl.
  split; [reflexivity|]. split; [exact Hev|]. split; [exact H|]. repeat split.
Qed.

(** ** [runWithoutSetHead]: receipts of the caller, and failures *)

Lemma runWithoutSetHead_unfold (C : Collaborators) (opts : RunBlockOpts)
    (receipts : option (list TxReceipt)) (blocking skipBlockchain : bool) (w : World) :
  (negb blocking && running w || negb (started w) || shutdown w)%bool = false ->
  runWithoutSetHead C opts receipts blocking skipBlockchain w
  = match stagingReceipts C opts receipts w with
    | (Throw e, w1) => (Throw e, leave w1)
    | (Ok rs, w1) =>
        let w2 := stashReceipts (opt_block opts) rs w1 in
        if skipBlockchain then (Ok true, leave w2)
        else
          match Blockchain.getTotalDifficulty (parentHash (header (opt_block opts))) (chain w2)
          with
          | Throw e => (Throw e, leave w2)
          | Ok parentTd =>
              let ops := stagingOps (opt_block opts) parentTd in
              (Ok true,
               leave (set_chain (Blockchain.batch ops (chain w2)) (emit (EvBatch ops) w2)))
          end
    end.
Proof.
  intros Hpre. unfold runWithoutSetHead, stagingReceipts, stagingRunOpts. rewrite Hpre.
  mgoal.
  destruct receipts as [rs|]; mgoal.
  - match goal with |- context [stashReceipts ?b rs ?w0] =>
      generalize (stashReceipts b rs w0)
    end.
    intros w2. destruct skipBlockchain; mgoal; [reflexivity|].
    destruct (Blockchain.getTotalDifficulty _ (chain w2)); reflexivity.
  - destruct (vm_runBlock C _ _) as [[result|e] s]; mgoal; [|reflexivity].
    match goal with |- context [stashReceipts ?b ?rs ?w0] =>
      generalize (stashReceipts b rs w0)
    end.
    intros w2. destruct skipBlockchain; mgoal; [reflexivity|].
    destruct (Blockchain.getTotalDifficulty _ (chain w2)); reflexivity.
Qed.

Lemma stashReceipts_fields (b : Block) (rs : list N) (w : World) :
  chain (stashReceipts b rs w) = chain w
  /\ vm (stashReceipts b rs w) = vm w
  /\ trace (stashReceipts b rs w) = trace w
  /\ running (stashReceipts b rs w) = running w
  /\ receiptsManager (stashReceipts b rs w) = receiptsManager w
  /\ pendingReceipts (stashReceipts b rs w) = insert (hash b) rs <$> pendingReceipts w.
Proof.
  unfold stashReceipts. destruct (pendingReceipts w) eqn:H; simpl; rewrite ?H; repeat split.
Qed.

Lemma blocksRun_app (evs evs' : list Event) :
  blocksRun (evs ++ evs') = blocksRun evs ++ blocksRun evs'.
Proof. unfold blocksRun. apply omap_app. Qed.

Lemma batches_app (evs evs' : list Event) :
  batches (evs ++ evs') = batches evs ++ batches evs'.
Proof. unfold batches. apply omap_app. Qed.

(** X7: when the caller hands its own receipts to [runWithoutSetHead],
    the VM is not used, whatever the outcome of the call: no [vm.runBlock]
    call is made and the VM state is the one from before.  A call that is
    not refused at the entry stashes exactly the receipts given under the
    hash of the block (when the engine keeps pending receipts), also when
    the staging of the block fails afterwards; with [skipBlockchain] the
    store is not touched. *)
Theorem supplied_receipts_skip_the_vm (C : Collaborators) (opts : RunBlockOpts)
    (rs : list TxReceipt) (blocking skipBlockchain : bool) (w : World) :
  let w' := snd (runWithoutSetHead C opts (Some rs) blocking skipBlockchain w) in
  vm w' = vm w
  /\ blocksRun (trace w') = blocksRun (trace w)
  /\ (if (negb blocking && running w || negb (started w) || shutdown w)%bool
      then w' = w
      else pendingReceipts w' = insert (hash (opt_block opts)) rs <$> pendingReceipts w)
  /\ (skipBlockchain = true -> chain w' = chain w).
Proof.
  destruct (negb blocking && running w || negb (started w) || shutdown w)%bool eqn:Hpre.
  - unfold runWithoutSetHead. rewrite Hpre. simpl. auto.
  - rewrite (runWithoutSetHead_unfold C opts (Some rs) blocking skipBlockchain w Hpre).
    unfold stagingReceipts. cbv zeta.
    match goal with |- context [stashReceipts ?b rs ?w0] =>
      destruct (stashReceipts_fields b rs w0) as (Hc & Hv & Ht & _ & _ & Hp);
      remember (stashReceipts b rs w0) as w2 eqn:Hw2; clear Hw2
    end.
    simpl in Hc, Hv, Ht, Hp.
    destruct skipBlockchain; simpl.
    + rewrite Hv, Ht, Hp, Hc, !blocksRun_app. simpl. rewrite !app_nil_r. auto.
    + destruct (Blockchain.getTotalDifficulty _ (chain w2)) as [td|e]; simpl;
        rewrite Hv, Ht, Hp, !blocksRun_app; simpl; rewrite !app_nil_r;
        repeat split; discriminate.
Qed.

(** X8: a [runWithoutSetHead] call that throws has written nothing to
    the block store: the store is the one from before, no batch was issued,
    and [running] is [false] again.  The error is either the one of
    [vm.runBlock], in which case no receipts were stashed, or the one of the
    lookup of the parent's total difficulty, in which case the receipts
    (given, or just produced by the VM, whose state has advanced) are
    already stashed under the hash of the block that was not stored. *)
Theorem runWithoutSetHead_failure_stores_nothing (C : Collaborators) (opts : RunBlockOpts)
    (receipts : option (list TxReceipt)) (blocking skipBlockchain : bool)
    (w w' : World) (e : string) :
  runWithoutSetHead C opts receipts blocking skipBlockchain w = (Throw e, w') ->
  chain w' = chain w
  /\ running w' = false
  /\ (exists evs, trace w' = trace w ++ evs /\ batches evs = [])
  /\ ((exists s, receipts = None
                 /\ vm_runBlock C (stagingRunOpts opts w) (vm w) = (Throw e, s)
                 /\ vm w' = s
                 /\ pendingReceipts w' = pendingReceipts w)
      \/ (skipBlockchain = false
          /\ Blockchain.getTotalDifficulty (parentHash (header (opt_block opts))) (chain w)
             = Throw e
          /\ exists rs,
               pendingReceipts w' = insert (hash (opt_block opts)) rs <$> pendingReceipts w
               /\ (receipts = Some rs
                   \/ exists result,
                        receipts = None
                        /\ vm_runBlock C (stagingRunOpts opts w) (vm w) = (Ok result, vm w')
                        /\ rs = res_receipts result))).
Proof.
  intros H.
  destruct (negb blocking && running w || negb (started w) || shutdown w)%bool eqn:Hpre.
  { unfold runWithoutSetHead in H. rewrite Hpre in H. discriminate. }
  rewrite (runWithoutSetHead_unfold C opts receipts blocking skipBlockchain w Hpre) in H.
  unfold stagingReceipts in H. cbv zeta in H.
  destruct receipts as [rs|].
  - match type of H with context [stashReceipts ?b rs ?w0] =>
      destruct (stashReceipts_fields b rs w0) as (Hc & Hv & Ht & _ & _ & Hp);
      remember (stashReceipts b rs w0) as w2 eqn:Hw2; clear Hw2
    end.
    simpl in Hc, Hv, Ht, Hp.
    destruct skipBlockchain; [discriminate|].
    rewrite Hc in H.
    destruct (Blockchain.getTotalDifficulty _ (chain w)) as [td|e'] eqn:Htd; [discriminate|].
    inversion H; subst; clear H. simpl. rewrite Hc, Ht, Hp.
    split; [reflexivity|]. split; [reflexivity|]. split.
    + exists [EvLockAcquire; EvLockRelease]. rewrite <- !(assoc_L (++)). auto.
    + right. split; [reflexivity|]. split; [reflexivity|]. exists rs. auto.
  - destruct (vm_runBlock C (stagingRunOpts opts w) (vm w)) as [[result|e'] s] eqn:Hvm.
    + match type of H with context [stashReceipts ?b ?rs ?w0] =>
        destruct (stashReceipts_fields b rs w0) as (Hc & Hv & Ht & _ & _ & Hp);
        remember (stashReceipts b rs w0) as w2 eqn:Hw2; clear Hw2
      end.
      simpl in Hc, Hv, Ht, Hp.
      destruct skipBlockchain; [discriminate|].
      rewrite Hc in H.
      destruct (Blockchain.getTotalDifficulty _ (chain w)) as [td|e'] eqn:Htd; [discriminate|].
      inversion H; subst e' w'; clear H. simpl. rewrite Hc, Ht, Hp, Hv.
      split; [reflexivity|]. split; [reflexivity|]. split.
      * eexists [EvLockAcquire; EvRunBlock _; EvLockRelease].
        rewrite <- !(assoc_L (++)). simpl. auto.
      * right. split; [reflexivity|]. split; [reflexivity|].
        exists (res_receipts result). split; [reflexivity|]. right. exists result. auto.
    + inversion H; subst; clear H. simpl.
      split; [reflexivity|]. split; [reflexivity|]. split.
      * eexists [EvLockAcquire; EvRunBlock _; EvLockRelease].
        rewrite <- !(assoc_L (++)). simpl. auto.
      * left. exists s. auto.
Qed.

Lemma runWithoutSetHead_failure_stores_nothing_witness :
  chain (snd (runWithoutSetHead Scenario.paris (Scenario.justBlock (Scenario.blk 12)) None
                true false Scenario.synced))
  = chain Scenario.synced
  /\ running (snd (runWithoutSetHead Scenario.paris (Scenario.justBlock (Scenario.blk 12)) None
                     true false Scenario.synced)) = false
  /\ pendingReceipts
       (snd (runWithoutSetHead Scenario.paris (Scenario.justBlock (Scenario.blk 12)) None
               true false Scenario.synced))
     = Some {[ hash (Scenario.blk 12) := transactions (Scenario.blk 12) ]}.
Proof.
  destruct (runWithoutSetHead_failure_stores_nothing Scenario.paris
              (Scenario.justBlock (Scenario.blk 12)) None true false Scenario.synced
              (snd (runWithoutSetHead Scenario.paris (Scenario.justBlock (Scenario.blk 12))
                      None true false Scenario.synced))
              Blockchain.notFound ltac:(vm_compute; reflexivity))
    as (Hc & Hr & _ & _).
  split; [exact Hc|]. split; [exact Hr|]. vm_compute. reflexivity.
Defined.

(** ** [setHead]: a successful call, and staging followed by a head update *)

Lemma setHead_unfold (C : Collaborators) (blocks : list Block)
    (finalizedBlock safeBlock : option Block) (w : World) :
  (negb (started w) || shutdown w)%bool = false ->
  setHead C blocks finalizedBlock safeBlock w
  = let w0 := emit EvLockAcquire w in
    match last blocks with
    | None => (Throw "Cannot read properties of undefined (reading 'header')",
               emit EvLockRelease w0)
    | Some vmHeadBlock =>
        if negb (Vm.hasStateRoot (stateRoot (header vmHeadBlock)) (vm w))
        then (Throw "vmHeadBlock's stateRoot not found", emit EvLockRelease w0)
        else
          match chain_putBlocks C blocks (chain w) with
          | (Throw e, c) =>
              (Throw e, emit EvLockRelease (set_chain c (emit (EvPutBlocks blocks) w0)))
          | (Ok _, c) =>
              let w1 := fold_left drainOne blocks (set_chain c (emit (EvPutBlocks blocks) w0)) in
              match Blockchain.getBlockNum (number (header vmHeadBlock)) (chain w1) with
              | Throw e => (Throw e, emit EvLockRelease w1)
              | Ok blockByNumber =>
                  if negb (equalsBytes (hash blockByNumber) (hash vmHeadBlock))
                  then (Throw "vmHeadBlock not in canonical chain", emit EvLockRelease w1)
                  else (Ok true,
                        emit EvLockRelease
                          (emit EvChainUpdate
                             (moveCursors vmHeadBlock finalizedBlock safeBlock w1)))
              end
          end
    end.
Proof.
  intros Hpre. unfold setHead, moveCursors. rewrite Hpre. mgoal.
  destruct (last blocks) as [vmHeadBlock|]; mgoal; [|reflexivity].
  destruct (Vm.hasStateRoot _ _); mgoal; [|reflexivity].
  destruct (chain_putBlocks C blocks (chain w)) as [[[]|e] c]; mgoal; [|reflexivity].
  match goal with |- context [fold_left drainOne blocks ?w0] =>
    generalize (fold_left drainOne blocks w0)
  end.
  intros w1.
  destruct (Blockchain.getBlockNum _ (chain w1)) as [b'|e]; mgoal; [|reflexivity].
  destruct (negb (equalsBytes (hash b') (hash vmHeadBlock))); mgoal; [reflexivity|].
  destruct safeBlock, finalizedBlock; reflexivity.
Qed.

Lemma saveReceipts_no_update (evs : list Event) :
  Forall isSaveReceipts evs -> (EvChainUpdate ∉ evs) /\ cursorMoves evs = [].
Proof.
  intros H. split.
  - intros Hin. rewrite Forall_forall in H. exact (H _ Hin).
  - induction H as [|e evs He _ IH]; [reflexivity|].
    destruct e; try contradiction. exact IH.
Qed.

Lemma cursorMoves_app (evs evs' : list Event) :
  cursorMoves (evs ++ evs') = cursorMoves evs ++ cursorMoves evs'.
Proof. unfold cursorMoves. apply omap_app. Qed.

(** X9: a [setHead] call that returns [true] found the state root of
    the last block of [blocks] in the state trie, handed [blocks] to
    [putBlocks], and found the last block canonical in the store that
    [putBlocks] left.  Afterwards the tables of the store are those that
    [putBlocks] left, the [vm] cursor stands on the last block, the [safe]
    and [finalized] cursors stand on the blocks given (and are those left by
    [putBlocks] when none is given), the VM state is untouched, and the
    chain update is emitted once, after the cursor moves and right before
    the gate is released. *)
Theorem setHead_success (C : Collaborators) (blocks : list Block)
    (finalizedBlock safeBlock : option Block) (w w' : World) :
  setHead C blocks finalizedBlock safeBlock w = (Ok true, w') ->
  exists vmHeadBlock c1 blockByNumber,
    last blocks = Some vmHeadBlock
    /\ Vm.hasStateRoot (stateRoot (header vmHeadBlock)) (vm w) = true
    /\ chain_putBlocks C blocks (chain w) = (Ok tt, c1)
    /\ Blockchain.getBlockNum (number (header vmHeadBlock)) c1 = Ok blockByNumber
    /\ hash blockByNumber = hash vmHeadBlock
    /\ sameBlocks c1 (chain w')
    /\ heads (chain w') !! "vm"%string = Some (hash vmHeadBlock)
    /\ heads (chain w') !! "safe"%string
       = match safeBlock with Some b => Some (hash b) | None => heads c1 !! "safe"%string end
    /\ heads (chain w') !! "finalized"%string
       = match finalizedBlock with
         | Some b => Some (hash b)
         | None => heads c1 !! "finalized"%string
         end
    /\ vm w' = vm w
    /\ exists evs,
         trace w' = trace w ++ evs ++ [EvChainUpdate; EvLockRelease]
         /\ (EvChainUpdate ∉ evs)
         /\ cursorMoves evs
            = [("vm"%string, hash vmHeadBlock)] ++ optionalMove "safe" safeBlock
              ++ optionalMove "finalized" finalizedBlock.
Proof.
  intros H.
  destruct (negb (started w) || shutdown w)%bool eqn:Hpre.
  { unfold setHead in H. rewrite Hpre in H. discriminate. }
  rewrite (setHead_unfold C blocks finalizedBlock safeBlock w Hpre) in H. cbv zeta in H.
  destruct (last blocks) as [vmHeadBlock|]; [|discriminate].
  destruct (Vm.hasStateRoot _ _) eqn:Hroot; [|discriminate]. simpl in H.
  destruct (chain_putBlocks C blocks (chain w)) as [[[]|e] c1] eqn:Hput; [|discriminate].
  match type of H with context [fold_left drainOne blocks ?w0] =>
    destruct (drainPending_frame blocks w0) as (Hc & Hv & devs & Ht & Hsave);
    remember (fold_left drainOne blocks w0) as w1 eqn:Hw1; clear Hw1
  end.
  simpl in Hc, Hv, Ht. rewrite Hc in H.
  destruct (Blockchain.getBlockNum _ c1) as [b'|e] eqn:Hget; [|discriminate].
  destruct (negb (equalsBytes (hash b') (hash vmHeadBlock))) eqn:Heq; [discriminate|].
  apply negb_false_iff, N.eqb_eq in Heq.
  inversion H; subst w'; clear H.
  exists vmHeadBlock, c1, b'.
  destruct (saveReceipts_no_update devs Hsave) as [Hnoup Hnomove].
  repeat (split; [first [reflexivity | assumption]|]).
  split; [|split; [|split; [|split; [|split]]]].
  - unfold moveCursors. rewrite Hc.
    destruct safeBlock, finalizedBlock; simpl; repeat split.
  - unfold moveCursors. destruct safeBlock, finalizedBlock; simpl;
      repeat (rewrite lookup_insert_ne by discriminate); apply lookup_insert_eq.
  - unfold moveCursors. rewrite Hc. destruct safeBlock, finalizedBlock; simpl;
      repeat first [rewrite lookup_insert_eq | rewrite lookup_insert_ne by discriminate];
      reflexivity.
  - unfold moveCursors. rewrite Hc. destruct safeBlock, finalizedBlock; simpl;
      repeat first [rewrite lookup_insert_eq | rewrite lookup_insert_ne by discriminate];
      reflexivity.
  - unfold moveCursors. destruct safeBlock, finalizedBlock; simpl; exact Hv.
  - exists ([EvLockAcquire; EvPutBlocks blocks] ++ devs
            ++ [EvSetIteratorHead "vm" (hash vmHeadBlock)]
            ++ match safeBlock with
               | Some b => [EvSetIteratorHead "safe" (hash b)] | None => [] end
            ++ match finalizedBlock with
               | Some b => [EvSetIteratorHead "finalized" (hash b)] | None => [] end).
    split; [|split].
    + unfold moveCursors. destruct safeBlock, finalizedBlock; simpl; rewrite Ht;
        rewrite <- !(assoc_L (++)); reflexivity.
    + rewrite !elem_of_app. intros [Hin|[Hin|[Hin|[Hin|Hin]]]].
      * repeat (apply elem_of_cons in Hin as [Hin|Hin]; [discriminate|]). inversion Hin.
      * exact (Hnoup Hin).
      * apply elem_of_cons in Hin as [Hin|Hin]; [discriminate | inversion Hin].
      * destruct safeBlock; [apply elem_of_cons in Hin as [Hin|Hin]; [discriminate|]|];
          inversion Hin.
      * destruct finalizedBlock;
          [apply elem_of_cons in Hin as [Hin|Hin]; [discriminate|]|]; inversion Hin.
    + rewrite !cursorMoves_app, Hnomove.
      destruct safeBlock, finalizedBlock; reflexivity.
Qed.

Lemma setHead_success_witness :
  exists vmHeadBlock c1 blockByNumber,
    last [Scenario.blk 11] = Some vmHeadBlock
    /\ Vm.hasStateRoot (stateRoot (header vmHeadBlock)) (vm Scenario.staged11) = true
    /\ chain_putBlocks Scenario.paris [Scenario.blk 11] (chain Scenario.staged11) = (Ok tt, c1)
    /\ Blockchain.getBlockNum (number (header vmHeadBlock)) c1 = Ok blockByNumber
    /\ hash blockByNumber = hash vmHeadBlock
    /\ heads (chain (snd (setHead Scenario.paris [Scenario.blk 11] None (Some (Scenario.blk 10))
                            Scenario.staged11))) !! "vm"%string
       = Some (hash vmHeadBlock).
Proof.
  destruct (setHead_success Scenario.paris [Scenario.blk 11] None (Some (Scenario.blk 10))
              Scenario.staged11
              (snd (setHead Scenario.paris [Scenario.blk 11] None (Some (Scenario.blk 10))
                      Scenario.staged11))
              ltac:(vm_compute; reflexivity))
    as (vmHeadBlock & c1 & b & H1 & H2 & H3 & H4 & H5 & _ & H7 & _).
  exists vmHeadBlock, c1, b. auto 10.
Defined.

(** The drain loop does not write the receipts of a digest for which nothing
    is pending. *)
Lemma drainPending_keeps_saved (blocks : list Block) :
  forall (w : World) (m db : gmap N (list N)) (h : N),
    pendingReceipts w = Some m ->
    m !! h = None ->
    receiptsManager w = Some db ->
    exists db', receiptsManager (fold_left drainOne blocks w) = Some db'
                /\ db' !! h = db !! h.
Proof.
  induction blocks as [|a blocks IH]; intros w m db h Hm Hh Hdb; simpl.
  - exists db. auto.
  - unfold drainOne at 2. rewrite Hm.
    destruct (m !! hash a) as [rs|] eqn:Ha.
    + unfold ReceiptsManager.saveReceipts. rewrite Hdb.
      destruct (IH (set_pendingReceipts (Some (delete (hash a) m))
                      (emit (EvSaveReceipts a rs)
                         (set_receiptsManager (Some (<[hash a := rs]> db)) w)))
                   (delete (hash a) m) (<[hash a := rs]> db) h eq_refl)
        as (db' & Hdb' & Hl); [|reflexivity|].
      * destruct (decide (hash a = h)) as [->|Hne];
          [apply lookup_delete_eq | rewrite lookup_delete_ne by exact Hne; exact Hh].
      * exists db'. split; [exact Hdb'|]. rewrite Hl. apply lookup_insert_ne. congruence.
    + apply (IH w m db h Hm Hh Hdb).
Qed.

(** The drain loop saves the receipts pending for the digest of one of the
    blocks. *)
Lemma drainPending_saved (blocks : list Block) :
  forall (w : World) (m db : gmap N (list N)) (h : N) (rs : list N),
    pendingReceipts w = Some m ->
    m !! h = Some rs ->
    h ∈ map hash blocks ->
    receiptsManager w = Some db ->
    exists db', receiptsManager (fold_left drainOne blocks w) = Some db'
                /\ db' !! h = Some rs.
Proof.
  induction blocks as [|a blocks IH]; intros w m db h rs Hm Hh Hin Hdb; simpl.
  - inversion Hin.
  - unfold drainOne at 2. rewrite Hm.
    destruct (decide (hash a = h)) as [Heq|Hne].
    + subst h. rewrite Hh. unfold ReceiptsManager.saveReceipts. rewrite Hdb.
      destruct (drainPending_keeps_saved blocks
                  (set_pendingReceipts (Some (delete (hash a) m))
                     (emit (EvSaveReceipts a rs)
                        (set_receiptsManager (Some (<[hash a := rs]> db)) w)))
                  (delete (hash a) m) (<[hash a := rs]> db) (hash a) eq_refl
                  (lookup_delete_eq _ _) eq_refl)
        as (db' & Hdb' & Hl).
      exists db'. split; [exact Hdb'|]. rewrite Hl. apply lookup_insert_eq.
    + simpl in Hin. apply elem_of_cons in Hin as [Hin|Hin]; [congruence|].
      destruct (m !! hash a) as [rs'|] eqn:Ha.
      * unfold ReceiptsManager.saveReceipts. rewrite Hdb.
        eapply IH; [reflexivity | | exact Hin | reflexivity].
        simpl. rewrite lookup_delete_ne by exact Hne. exact Hh.
      * eapply IH; eauto.
Qed.

(** X10: staging and head update compose: when
    [runWithoutSetHead({block, ..})] (without receipts of the caller) and
    then [setHead(blocks)] with [block] among [blocks] both return [true] on
    an engine that keeps receipts, the receipts manager holds, under the hash
    of [block], exactly the receipts that [vm.runBlock] returned for it, and
    no receipts are pending for that hash any more. *)
Theorem staged_receipts_are_saved_by_setHead (C : Collaborators) (opts : RunBlockOpts)
    (blocking skipBlockchain : bool) (blocks : list Block)
    (finalizedBlock safeBlock : option Block) (w w1 w2 : World) :
  runWithoutSetHead C opts None blocking skipBlockchain w = (Ok true, w1) ->
  setHead C blocks finalizedBlock safeBlock w1 = (Ok true, w2) ->
  opt_block opts ∈ blocks ->
  is_Some (pendingReceipts w) ->
  is_Some (receiptsManager w) ->
  exists result saved pending,
    vm_runBlock C (stagingRunOpts opts w) (vm w) = (Ok result, vm w1)
    /\ receiptsManager w2 = Some saved
    /\ saved !! hash (opt_block opts) = Some (res_receipts result)
    /\ pendingReceipts w2 = Some pending
    /\ pending !! hash (opt_block opts) = None.
Proof.
  intros Hstage Hset Hin [m Hm] [db Hdb].
  (* the staging call *)
  destruct (negb blocking && running w || negb (started w) || shutdown w)%bool eqn:Hpre.
  { unfold runWithoutSetHead in Hstage. rewrite Hpre in Hstage. discriminate. }
  rewrite (runWithoutSetHead_unfold C opts None blocking skipBlockchain w Hpre) in Hstage.
  unfold stagingReceipts in Hstage. cbv zeta in Hstage.
  destruct (vm_runBlock C (stagingRunOpts opts w) (vm w)) as [[result|e] s] eqn:Hvm;
    [|discriminate].
  match type of Hstage with context [stashReceipts ?b ?rs ?w0] =>
    destruct (stashReceipts_fields b rs w0) as (Hc & Hv & Ht & _ & Hrm & Hp);
    remember (stashReceipts b rs w0) as wst eqn:Hwst; clear Hwst
  end.
  simpl in Hc, Hv, Ht, Hrm, Hp. rewrite Hm in Hp. simpl in Hp.
  assert (Hw1 : pendingReceipts w1
                = Some (<[hash (opt_block opts) := res_receipts result]> m)
                /\ receiptsManager w1 = Some db /\ vm w1 = s).
  { destruct skipBlockchain.
    - inversion Hstage; subst w1. simpl. rewrite Hp, Hrm, Hv. auto.
    - destruct (Blockchain.getTotalDifficulty _ (chain wst)); [|discriminate].
      inversion Hstage; subst w1. simpl. rewrite Hp, Hrm, Hv. auto. }
  destruct Hw1 as (Hp1 & Hdb1 & Hv1). clear Hstage.
  (* the head update *)
  destruct (negb (started w1) || shutdown w1)%bool eqn:Hpre1.
  { unfold setHead in Hset. rewrite Hpre1 in Hset. discriminate. }
  rewrite (setHead_unfold C blocks finalizedBlock safeBlock w1 Hpre1) in Hset.
  cbv zeta in Hset.
  destruct (last blocks) as [vmHeadBlock|]; [|discriminate].
  destruct (negb (Vm.hasStateRoot _ _)); [discriminate|].
  destruct (chain_putBlocks C blocks (chain w1)) as [[[]|e] c1]; [|discriminate].
  match type of Hset with context [fold_left drainOne blocks ?w0] =>
    destruct (drainPending_saved blocks w0 _ db (hash (opt_block opts))
                (res_receipts result) Hp1 (lookup_insert_eq _ _ _)) as (saved & Hsaved & Hl);
    [ apply list_elem_of_fmap; eauto | exact Hdb1 |];
    destruct (drainPending_pending blocks w0 _ Hp1) as (pending & Hpend & Hgone & _);
    remember (fold_left drainOne blocks w0) as wd eqn:Hwd; clear Hwd
  end.
  destruct (Blockchain.getBlockNum _ (chain wd)); [|discriminate].
  destruct (negb (equalsBytes _ _)); [discriminate|].
  inversion Hset; subst w2; clear Hset.
  exists result, saved, pending. rewrite Hv1.
  split; [reflexivity|].
  unfold moveCursors. destruct safeBlock, finalizedBlock; simpl; auto.
Qed.

Lemma staged_receipts_are_saved_by_setHead_witness :
  exists result saved pending,
    vm_runBlock Scenario.paris (stagingRunOpts (Scenario.justBlock (Scenario.blk 11))
                                  Scenario.synced) (vm Scenario.synced)
    = (Ok result, vm Scenario.staged11)
    /\ receiptsManager (snd (setHead Scenario.paris [Scenario.blk 11] None None
                               Scenario.staged11)) = Some saved
    /\ saved !! hash (Scenario.blk 11) = Some (res_receipts result)
    /\ pendingReceipts (snd (setHead Scenario.paris [Scenario.blk 11] None None
                               Scenario.staged11)) = Some pending
    /\ pending !! hash (Scenario.blk 11) = None.
Proof.
  apply (staged_receipts_are_saved_by_setHead Scenario.paris
           (Scenario.justBlock (Scenario.blk 11)) true false [Scenario.blk 11] None None
           Scenario.synced Scenario.staged11).
  - vm_compute. reflexivity.
  - vm_compute. reflexivity.
  - left.
  - vm_compute. eauto.
  - vm_compute. eauto.
Defined.

(** ** The gate is released on every path *)

Lemma quiet_refl (w : World) : quiet w w.
Proof. exists []. rewrite app_nil_r. split; [reflexivity | constructor]. Qed.

Lemma quiet_trans (w1 w2 w3 : World) : quiet w1 w2 -> quiet w2 w3 -> quiet w1 w3.
Proof.
  intros (evs & Ht & Hev) (evs' & Ht' & Hev'). exists (evs ++ evs').
  rewrite Ht', Ht, (assoc_L (++)). split; [reflexivity | apply Forall_app; auto].
Qed.

Lemma quiet_same_trace (w x x' : World) : trace x' = trace x -> quiet w x -> quiet w x'.
Proof. intros Heq (evs & Ht & Hev). exists evs. rewrite Heq. auto. Qed.

Lemma quiet_emit (w x : World) (e : Event) :
  e <> EvLockAcquire /\ e <> EvLockRelease -> quiet w x -> quiet w (emit e x).
Proof.
  intros He H. eapply quiet_trans; [exact H|]. exists [e]. split; [reflexivity|].
  repeat constructor; apply He.
Qed.

Lemma quiet_set_running (w x : World) (b : bool) : quiet w x -> quiet w (set_running b x).
Proof. apply quiet_same_trace. reflexivity. Qed.

Lemma quiet_set_vm (w x : World) (s : VMState) : quiet w x -> quiet w (set_vm s x).
Proof. apply quiet_same_trace. reflexivity. Qed.

Lemma quiet_set_chain (w x : World) (c : Chain) : quiet w x -> quiet w (set_chain c x).
Proof. apply quiet_same_trace. reflexivity. Qed.

(** Peels the updates of a world off a goal [quiet w (...)]. *)
Ltac quiet_tac :=
  repeat first
    [ assumption
    | apply quiet_refl
    | apply quiet_set_running
    | apply quiet_set_vm
    | apply quiet_set_chain
    | apply quiet_emit; [split; discriminate|] ].

Lemma passFrame_quiet (w w' : World) : passFrame w w' -> quiet w w'.
Proof.
  intros (_&_&_&_&_&_&_&_&_&_&evs&Ht&Hev). exists evs. split; [exact Ht|].
  apply passEvent_not_gate, Hev.
Qed.

Lemma drainPending_quiet (blocks : list Block) (w x : World) :
  quiet w x -> quiet w (fold_left drainOne blocks x).
Proof.
  intros H. eapply quiet_trans; [exact H|].
  destruct (drainPending_frame blocks x) as (_ & _ & evs & Ht & Hev).
  exists evs. split; [exact Ht | apply saveReceipts_not_gate, Hev].
Qed.

Lemma drainPending_running (blocks : list Block) (w : World) :
  running (fold_left drainOne blocks w) = running w.
Proof.
  revert w. induction blocks as [|b blocks IH]; intros w; simpl; [reflexivity|].
  rewrite IH. unfold drainOne, ReceiptsManager.saveReceipts.
  destruct (pendingReceipts w) as [m|]; [destruct (m !! hash b)|];
    try destruct (receiptsManager w); reflexivity.
Qed.

Lemma moveCursors_quiet (vmHeadBlock : Block) (finalizedBlock safeBlock : option Block)
    (w x : World) :
  quiet w x -> quiet w (moveCursors vmHeadBlock finalizedBlock safeBlock x).
Proof.
  intros H. unfold moveCursors.
  destruct safeBlock, finalizedBlock; quiet_tac.
Qed.

Lemma moveCursors_running (vmHeadBlock : Block) (finalizedBlock safeBlock : option Block)
    (w : World) :
  running (moveCursors vmHeadBlock finalizedBlock safeBlock w) = running w.
Proof. unfold moveCursors. destruct safeBlock, finalizedBlock; reflexivity. Qed.

Lemma stagingReceipts_quiet (C : Collaborators) (opts : RunBlockOpts)
    (receipts : option (list TxReceipt)) (w : World) :
  quiet (emit EvLockAcquire w) (snd (stagingReceipts C opts receipts w)).
Proof.
  unfold stagingReceipts. destruct receipts as [rs|]; simpl.
  - quiet_tac.
  - destruct (vm_runBlock C _ _) as [[result|e] s]; simpl; quiet_tac.
Qed.

Lemma throughGate_intro (w x : World) :
  quiet (emit EvLockAcquire w) x -> throughGate w (emit EvLockRelease x).
Proof.
  intros (evs & Ht & Hev). exists evs. simpl. rewrite Ht. simpl.
  rewrite <- !(assoc_L (++)). auto.
Qed.

(** X1: every call of [runWithoutSetHead], [setHead] and [run] either is
    refused at the entry and leaves the world as it was, or acquires the gate
    once and releases it once, as its last event, whatever the outcome
    (return, exception, or a loop cut by the bound): no other gate event
    lies in between.  After [runWithoutSetHead] and [run] the flag [running]
    is [false]; [setHead] does not touch it. *)
Theorem gate_released_on_every_path (C : Collaborators) (w : World) :
  (forall opts receipts blocking skipBlockchain,
      let w' := snd (runWithoutSetHead C opts receipts blocking skipBlockchain w) in
      if (negb blocking && running w || negb (started w) || shutdown w)%bool
      then w' = w
      else throughGate w w' /\ running w' = false)
  /\ (forall blocks finalizedBlock safeBlock,
         let w' := snd (setHead C blocks finalizedBlock safeBlock w) in
         if (negb (started w) || shutdown w)%bool
         then w' = w
         else throughGate w w' /\ running w' = running w)
  /\ (forall fuel loop runOnlybatched,
         let w' := snd (run C fuel loop runOnlybatched w) in
         if (running w || negb (started w) || shutdown w)%bool
         then w' = w
         else throughGate w w' /\ running w' = false).
Proof.
  split; [|split].
  - intros opts receipts blocking skipBlockchain.
    destruct (negb blocking && running w || negb (started w) || shutdown w)%bool eqn:Hpre.
    + unfold runWithoutSetHead. rewrite Hpre. reflexivity.
    + rewrite (runWithoutSetHead_unfold C opts receipts blocking skipBlockchain w Hpre).
      pose proof (stagingReceipts_quiet C opts receipts w) as Hq.
      destruct (stagingReceipts C opts receipts w) as [[rs|e] w1]; simpl in Hq.
      * assert (Hq2 : quiet (emit EvLockAcquire w) (stashReceipts (opt_block opts) rs w1)).
        { eapply quiet_same_trace; [|exact Hq]. apply stashReceipts_fields. }
        cbv zeta. remember (stashReceipts (opt_block opts) rs w1) as w2 eqn:Hw2. clear Hw2.
        destruct skipBlockchain; simpl.
        -- split; [|reflexivity]. apply throughGate_intro. quiet_tac.
        -- destruct (Blockchain.getTotalDifficulty _ (chain w2)) as [td|e]; simpl;
             (split; [|reflexivity]); apply throughGate_intro; quiet_tac.
      * simpl. split; [|reflexivity]. apply throughGate_intro. quiet_tac.
  - intros blocks finalizedBlock safeBlock.
    destruct (negb (started w) || shutdown w)%bool eqn:Hpre.
    + unfold setHead. rewrite Hpre. reflexivity.
    + rewrite (setHead_unfold C blocks finalizedBlock safeBlock w Hpre). cbv zeta.
      destruct (last blocks) as [vmHeadBlock|];
        [|simpl; split; [apply throughGate_intro, quiet_refl | reflexivity]].
      destruct (negb (Vm.hasStateRoot _ _));
        [simpl; split; [apply throughGate_intro, quiet_refl | reflexivity]|].
      destruct (chain_putBlocks C blocks (chain w)) as [[[]|e] c1].
      2: { simpl. split; [|reflexivity]. apply throughGate_intro. quiet_tac. }
      match goal with |- context [fold_left drainOne blocks ?w0] =>
        assert (Hq : quiet (emit EvLockAcquire w) (fold_left drainOne blocks w0))
          by (apply drainPending_quiet; quiet_tac);
        pose proof (drainPending_running blocks w0) as Hrun;
        remember (fold_left drainOne blocks w0) as w1 eqn:Hw1; clear Hw1
      end.
      simpl in Hrun.
      destruct (Blockchain.getBlockNum _ (chain w1)) as [b'|e];
        [|simpl; split; [apply throughGate_intro, Hq | exact Hrun]].
      destruct (negb (equalsBytes _ _));
        [simpl; split; [apply throughGate_intro, Hq | exact Hrun]|].
      simpl. split.
      * apply throughGate_intro. apply quiet_emit; [split; discriminate|].
        apply moveCursors_quiet, Hq.
      * rewrite moveCursors_running. exact Hrun.
  - intros fuel loop runOnlybatched.
    destruct (running w || negb (started w) || shutdown w)%bool eqn:Hpre.
    + unfold run. rewrite Hpre. reflexivity.
    + destruct (run_through_gate C fuel loop runOnlybatched w Hpre)
        as (evs & Ht & Hev & _ & Hrun & _).
      split; [|exact Hrun]. exists evs. split; [exact Ht|].
      apply passEvent_not_gate, Hev.
Qed.

Lemma passEvents_no_store_write (evs : list Event) :
  Forall isPassEvent evs ->
  batches evs = [] /\ (forall bs, EvPutBlocks bs ∉ evs) /\ (EvChainUpdate ∉ evs)
  /\ (forall name h, EvSetIteratorHead name h ∈ evs -> name = "vm"%string).
Proof.
  intros H. split; [|split; [|split]].
  - induction H as [|e evs He _ IH]; [reflexivity|].
    destruct e; try contradiction; exact IH.
  - intros bs Hin. rewrite Forall_forall in H. exact (H _ Hin).
  - intros Hin. rewrite Forall_forall in H. exact (H _ Hin).
  - intros name h Hin. rewrite Forall_forall in H. exact (H _ Hin).
Qed.

(** X2: [run] never writes to the block store, whatever its outcome:
    the tables of the store and the canonical head are those from before,
    every cursor other than [vm] is where it was, the pending receipts,
    [started], [shutdown] and [running] are as before, and among the events
    of the call there is no batch, no [putBlocks], no chain update and no
    [setIteratorHead] for a cursor other than [vm]. *)
Theorem run_only_moves_the_vm_cursor (C : Collaborators) (fuel : nat)
    (loop runOnlybatched : bool) (w : World) :
  let w' := snd (run C fuel loop runOnlybatched w) in
  sameBlocks (chain w) (chain w')
  /\ (forall name, name <> "vm"%string -> heads (chain w') !! name = heads (chain w) !! name)
  /\ pendingReceipts w' = pendingReceipts w
  /\ started w' = started w
  /\ shutdown w' = shutdown w
  /\ running w' = running w
  /\ exists evs,
       trace w' = trace w ++ evs
       /\ batches evs = []
       /\ (forall bs, EvPutBlocks bs ∉ evs)
       /\ (EvChainUpdate ∉ evs)
       /\ (forall name h, EvSetIteratorHead name h ∈ evs -> name = "vm"%string).
Proof.
  destruct (running w || negb (started w) || shutdown w)%bool eqn:Hpre.
  - unfold run. rewrite Hpre. simpl.
    split; [apply sameBlocks_refl|]. do 5 (split; [reflexivity|]).
    exists []. rewrite app_nil_r. split; [reflexivity|]. split; [reflexivity|].
    split; [intros bs; apply not_elem_of_nil|]. split; [apply not_elem_of_nil|].
    intros name h Hin. inversion Hin.
  - destruct (run_through_gate C fuel loop runOnlybatched w Hpre)
      as (evs & Ht & Hev & Hframe & Hrun & Hchain & Hpend).
    cbv zeta. rewrite Hchain, Hpend.
    destruct Hframe as (H1&H2&_&_&_&_&H7&_&H9&H10&_).
    assert (Hrw : running w = false).
    { destruct (running w); [discriminate | reflexivity]. }
    split; [exact H9|]. split; [exact H10|]. split; [exact H7|].
    split.
    { unfold run. rewrite Hpre. unfold runWithLock, finally.
      destruct (runBody C fuel loop runOnlybatched (emit EvLockAcquire w)) as [r w1].
      simpl in *. exact H1. }
    split.
    { unfold run. rewrite Hpre. unfold runWithLock, finally.
      destruct (runBody C fuel loop runOnlybatched (emit EvLockAcquire w)) as [r w1].
      simpl in *. exact H2. }
    split; [congruence|].
    exists (EvLockAcquire :: evs ++ [EvLockRelease]). split; [exact Ht|].
    assert (Hall : Forall (fun e => isPassEvent e \/ e = EvLockAcquire \/ e = EvLockRelease)
                     (EvLockAcquire :: evs ++ [EvLockRelease])).
    { constructor; [auto|]. apply Forall_app. split.
      - eapply Forall_impl; [exact Hev|]. auto.
      - constructor; [auto | constructor]. }
    clear Ht. rewrite Forall_forall in Hall. split; [|split; [|split]].
    + destruct (passEvents_no_store_write evs Hev) as (Hb & _).
      change (batches ([EvLockAcquire] ++ evs ++ [EvLockRelease]) = []).
      rewrite !batches_app, Hb. reflexivity.
    + intros bs Hin. destruct (Hall _ Hin) as [H|[H|H]]; [exact H | discriminate..].
    + intros Hin. destruct (Hall _ Hin) as [H|[H|H]]; [exact H | discriminate..].
    + intros name h Hin. destruct (Hall _ Hin) as [H|[H|H]]; [exact H | discriminate..].
Qed.

(** ** [run]: nothing to do *)

(** X3: [run] on an engine whose [vm] cursor already stands on the
    canonical head, or, with [runOnlybatched], whose cursor is less than
    [numBlocksPerIteration] blocks behind it, returns 0 for every bound on
    the passes, the bound 0 included: it goes through the gate, logs that it
    is running and executes no block; the store, the cursors, the VM and the
    receipts are those from before the call. *)
Theorem run_without_work (C : Collaborators) (fuel : nat) (loop runOnlybatched : bool)
    (w : World) (start canonical : Block) :
  running w = false -> started w = true -> shutdown w = false ->
  Blockchain.getIteratorHead "vm" (chain w) = Ok start ->
  Blockchain.getCanonicalHeadBlock (chain w) = Ok canonical ->
  hash start = hash canonical
  \/ (runOnlybatched = true
      /\ number (header canonical) - number (header start)
         < Z.of_nat (numBlocksPerIteration w)) ->
  let '(r, w') := run C fuel loop runOnlybatched w in
  r = Some (Ok 0)
  /\ trace w' = trace w ++ [EvLockAcquire; EvLog LogRunning; EvLockRelease]
  /\ chain w' = chain w
  /\ vm w' = vm w
  /\ pendingReceipts w' = pendingReceipts w
  /\ receiptsManager w' = receiptsManager w
  /\ hardfork w' = hardfork w
  /\ running w' = false.
Proof.
  intros Hr Hs Hsh Hhead Hcan Hwork.
  unfold run. rewrite Hr, Hs, Hsh. simpl.
  unfold runWithLock, finally, runBody. simpl. rewrite Hhead, Hcan.
  rewrite runLoop_stop.
  - simpl. rewrite <- !(assoc_L (++)). repeat split.
  - unfold loopCondition. simpl. rewrite Hs, Hsh. simpl.
    destruct Hwork as [Heq | [-> Hgap]].
    + unfold equalsBytes. rewrite Heq, N.eqb_refl. simpl. apply andb_false_r.
    + simpl. apply Z.leb_gt in Hgap. rewrite Hgap. reflexivity.
Qed.

(** The batched catch-up run that [start] launches, on a node whose cursor
    is two blocks behind the head with four blocks per iteration. *)
Lemma run_without_work_witness :
  let '(r, w') := run Scenario.paris 0 true true Scenario.afterSecond in
  r = Some (Ok 0)
  /\ trace w' = trace Scenario.afterSecond ++ [EvLockAcquire; EvLog LogRunning; EvLockRelease]
  /\ chain w' = chain Scenario.afterSecond
  /\ vm w' = vm Scenario.afterSecond
  /\ pendingReceipts w' = pendingReceipts Scenario.afterSecond
  /\ receiptsManager w' = receiptsManager Scenario.afterSecond
  /\ hardfork w' = hardfork Scenario.afterSecond
  /\ running w' = false.
Proof.
  apply (run_without_work Scenario.paris 0 true true Scenario.afterSecond
           (Scenario.blk 8) (Scenario.blk 10));
    try (vm_compute; reflexivity).
  right. split; [reflexivity|]. vm_compute. reflexivity.
Defined.

(** ** [run]: which blocks a pass executes *)

Lemma runOpts_app (evs evs' : list Event) : runOpts (evs ++ evs') = runOpts evs ++ runOpts evs'.
Proof. unfold runOpts. apply omap_app. Qed.










Lemma noRuns_trans (w1 w2 w3 : World) : noRuns w1 w2 -> noRuns w2 w3 -> noRuns w1 w3.
Proof.
  intros (evs & Ht & Hev) (evs' & Ht' & Hev'). exists (evs ++ evs').
  rewrite Ht', Ht, runOpts_app, Hev, Hev', (assoc_L (++)). auto.
Qed.














(** ** [run]: a failure that is not reported *)

(** X5: when the parent of the first block that a pass of [run] is handed
    cannot be read from the store, the failure is swallowed: the callback
    throws before its [try] block, so that no block is marked as failing,
    the handler only logs, and [run] returns 0 as if there had been nothing
    to do.  No block is run, no [SYNC_EXECUTION_VM_ERROR] is emitted, and
    the store, the cursors and the VM are those from before the call. *)
Theorem run_swallows_parent_lookup_failure (C : Collaborators) (fuel : nat)
    (loop runOnlybatched : bool) (w : World) (start canonical block : Block) (e : string) :
  running w = false -> started w = true -> shutdown w = false ->
  Blockchain.getIteratorHead "vm" (chain w) = Ok start ->
  Blockchain.getCanonicalHeadBlock (chain w) = Ok canonical ->
  hash start <> hash canonical ->
  runOnlybatched = false
  \/ Z.of_nat (numBlocksPerIteration w) <= number (header canonical) - number (header start) ->
  (0 < numBlocksPerIteration w)%nat ->
  Blockchain.getBlockByNumber (number (header start) + 1) (chain w) = Some block ->
  Blockchain.getBlock (parentHash (header block)) (chain w) = Throw e ->
  let '(r, w') := run C (S fuel) loop runOnlybatched w in
  r = Some (Ok 0)
  /\ trace w'
     = trace w ++ [EvLockAcquire; EvLog LogRunning; EvLog LogVMFailed; EvLockRelease]
  /\ chain w' = chain w
  /\ vm w' = vm w
  /\ running w' = false.
Proof.
  intros Hr Hs Hsh Hhead Hcan Hne Hbatch Hpos Hblock Hparent.
  assert (Hcond : loopCondition loop runOnlybatched (loopStart start canonical) (loopEntry w)
                  = true).
  { unfold loopCondition. simpl. rewrite Hs, Hsh. simpl.
    assert (Hh : negb (equalsBytes (hash start) (hash canonical)) = true).
    { apply negb_true_iff, N.eqb_neq, Hne. }
    rewrite Hh, !andb_true_r.
    destruct Hbatch as [-> | Hgap]; [reflexivity|].
    apply Z.leb_le in Hgap. rewrite Hgap. destruct runOnlybatched; reflexivity. }
  assert (Hpass : runPass C (loopStart start canonical) (loopEntry w)
                  = (Ok {| startHeadBlock := start; canonicalHead := canonical;
                           numExecuted := Null;
                           locals := passLocals (loopStart start canonical) |},
                     emit (EvLog LogVMFailed) (loopEntry w))).
  { unfold runPass, iterator. simpl. rewrite Hhead.
    destruct (numBlocksPerIteration w) as [|k]; [lia|]. simpl.
    rewrite Hblock. unfold onBlock. simpl. rewrite Hparent. reflexivity. }
  unfold run. rewrite Hr, Hs, Hsh. simpl.
  unfold runWithLock, finally, runBody. simpl. rewrite Hhead, Hcan.
  fold (loopEntry w). rewrite Hcond, Hpass.
  rewrite runLoop_stop.
  - simpl. rewrite <- !(assoc_L (++)). repeat split.
  - unfold loopCondition. simpl. rewrite !andb_false_r. reflexivity.
Qed.

Lemma run_swallows_parent_lookup_failure_witness :
  let '(r, w') := run Scenario.paris 1 true false OrphanScenario.orphaned in
  r = Some (Ok 0)
  /\ trace w'
     = trace OrphanScenario.orphaned
       ++ [EvLockAcquire; EvLog LogRunning; EvLog LogVMFailed; EvLockRelease]
  /\ chain w' = chain OrphanScenario.orphaned
  /\ vm w' = vm OrphanScenario.orphaned
  /\ running w' = false.
Proof.
  apply (run_swallows_parent_lookup_failure Scenario.paris 0 true false
           OrphanScenario.orphaned (Scenario.blk 10) OrphanScenario.orphan11
           OrphanScenario.orphan11 Blockchain.notFound);
    try (vm_compute; reflexivity).
  - vm_compute. discriminate.
  - left. reflexivity.
  - vm_compute. lia.
Defined.

(** ** [run]: a failure that is retried without end *)

(** A pass on such an engine ends with the count 1 and leaves the engine as
    it was, the error event apart. *)
Lemma failsOn_pass (C : Collaborators) (start canonical b : Block) (e : string)
    (st : LoopState) (w : World) :
  failsOn C start canonical b e w ->
  startHeadBlock st = start ->
  exists st' w',
    runPass C st w = (Ok st', w')
    /\ failsOn C start canonical b e w'
    /\ startHeadBlock st' = start
    /\ canonicalHead st' = canonical
    /\ numExecuted st' = Num 1
    /\ exists evs, trace w' = trace w ++ evs /\ EvVMError e ∈ evs.
Proof.
  intros (Hs & Hsh & Hn & Hhead & Hcan & Hne & Hb & Hnum & (hb & Hhb) & (td & Htd & Hhf)
          & Hvm & Hmsg) Hst.
  assert (Hit : exists l1,
             iterator "vm" (onBlock C) (numBlocksPerIteration w) (passLocals st) w
             = (Throw e, l1,
                set_vm (vm w)
                  (emit (EvRunBlock
                           {| opt_block := b;
                              opt_root := Some (stateRoot (header hb));
                              opt_clearCache :=
                                Some (negb (equalsBytes (Vm.getStateRoot (vm w))
                                              (stateRoot (header hb))));
                              opt_skipBlockValidation :=
                                Some match consensusType w with
                                     | ProofOfAuthority => true
                                     | _ => false
                                     end;
                              opt_skipHeaderValidation := Some true |}) w))
             /\ errorBlock l1 = Some b).
  { unfold iterator. rewrite Hhead, Hn. simpl. rewrite Hb.
    unfold onBlock. simpl. rewrite Hhb. unfold executeBlock.
    cbv beta iota zeta delta [bind ret throw modify gets lift runBlock setHardforkBy]. simpl.
    rewrite Htd, Hhf, String.eqb_refl. simpl. rewrite Hs. simpl.
    rewrite Hvm by reflexivity. simpl. eexists. split; reflexivity. }
  destruct Hit as (l1 & Hit & Herr).
  unfold runPass. rewrite Hit.
  unfold onIteratorError. rewrite Herr, Hmsg. simpl.
  rewrite Hst, Hnum. replace (number (header start) + 1 - number (header start)) with 1 by lia.
  mgoal. unfold refreshHeads. mgoal.
  destruct (debugCode w) eqn:Hdbg; mgoal; rewrite Hhead; mgoal; rewrite Hcan;
    eexists _, _; (split; [reflexivity|]); simpl;
    (split; [unfold failsOn; simpl; eauto 20|]);
    (split; [reflexivity|]); (split; [reflexivity|]); (split; [reflexivity|]);
    eexists; rewrite <- !(assoc_L (++)); (split; [reflexivity|]);
    simpl; rewrite !elem_of_cons; auto 10.
Qed.

Lemma failsOn_condition (C : Collaborators) (start canonical b : Block) (e : string)
    (runOnlybatched : bool) (st : LoopState) (w : World) :
  runOnlybatched = false \/ 1 <= number (header canonical) - number (header start) ->
  failsOn C start canonical b e w ->
  startHeadBlock st = start ->
  canonicalHead st = canonical ->
  numExecuted st = Undefined \/ numExecuted st = Num 1 ->
  loopCondition true runOnlybatched st w = true.
Proof.
  intros Hbatch (Hs & Hsh & Hn & _ & _ & Hh & _) Hst Hcn Hne.
  unfold loopCondition. rewrite Hs, Hsh, Hn, Hst, Hcn.
  assert (Hh' : negb (equalsBytes (hash start) (hash canonical)) = true).
  { apply negb_true_iff, N.eqb_neq, Hh. }
  rewrite Hh'.
  assert (Hb : (negb runOnlybatched
                || runOnlybatched
                   && (Z.of_nat 1 <=? number (header canonical) - number (header start)))%bool
               = true).
  { destruct Hbatch as [-> | Hgap]; [reflexivity|].
    apply Z.leb_le in Hgap. change (Z.of_nat 1) with 1. rewrite Hgap.
    destruct runOnlybatched; reflexivity. }
  rewrite Hb. destruct Hne as [-> | ->]; reflexivity.
Qed.

Lemma failsOn_loop (C : Collaborators) (start canonical b : Block) (e : string)
    (runOnlybatched : bool) (fuel : nat) :
  runOnlybatched = false \/ 1 <= number (header canonical) - number (header start) ->
  forall (st : LoopState) (w : World),
    failsOn C start canonical b e w ->
    startHeadBlock st = start ->
    canonicalHead st = canonical ->
    numExecuted st = Undefined \/ numExecuted st = Num 1 ->
    fst (runLoop C fuel true runOnlybatched st w) = None.
Proof.
  intros Hbatch. induction fuel as [|f IH]; intros st w Hf Hst Hcn Hne;
    simpl; rewrite (failsOn_condition C start canonical b e runOnlybatched st w)
      by assumption; [reflexivity|].
  destruct (failsOn_pass C start canonical b e st w Hf Hst)
    as (st' & w' & Hpass & Hf' & Hst' & Hcn' & Hne' & _).
  rewrite Hpass. apply IH; auto.
Qed.

(** X6: with one block per iteration, [run(true)] does not return while
    the block after the [vm] cursor keeps failing in the VM (with an error
    other than a missing state root, the VM state left as it was): every
    pass ends with the count 1, which is the batch size, so that the loop
    goes on to the next pass, which fails on the same block.  As long as
    [started] and [shutdown] stay as they are, the call is still in its loop
    after any number of passes. *)
Theorem run_retries_a_failing_block_forever (C : Collaborators) (fuel : nat)
    (runOnlybatched : bool) (w : World) (start canonical b : Block) (e : string) :
  running w = false ->
  failsOn C start canonical b e w ->
  runOnlybatched = false \/ 1 <= number (header canonical) - number (header start) ->
  fst (run C fuel true runOnlybatched w) = None.
Proof.
  intros Hr Hf Hbatch.
  pose proof Hf as (Hs & Hsh & _ & Hhead & Hcan & _).
  unfold run. rewrite Hr, Hs, Hsh. simpl.
  unfold runWithLock, finally, runBody.
  change (chain (set_running true (emit EvLockAcquire w))) with (chain w).
  rewrite Hhead, Hcan.
  match goal with |- context [runLoop C fuel true runOnlybatched ?st ?w0] =>
    pose proof (failsOn_loop C start canonical b e runOnlybatched fuel Hbatch st w0) as Hloop;
    destruct (runLoop C fuel true runOnlybatched st w0) as [[r|] w1]
  end; [|reflexivity].
  simpl in Hloop. exfalso.
  assert (Hnone : Some r = None); [|discriminate].
  apply Hloop; auto.
Qed.

Lemma run_retries_a_failing_block_forever_witness :
  fst (run (RetryScenario.rejecting 6) 5 true false RetryScenario.oneByOne) = None.
Proof.
  apply (run_retries_a_failing_block_forever (RetryScenario.rejecting 6) 5 false
           RetryScenario.oneByOne (Scenario.blk 5) (Scenario.blk 10) (Scenario.blk 6)
           "invalid block").
  - reflexivity.
  - unfold failsOn. repeat split; try (vm_compute; reflexivity).
    + vm_compute. discriminate.
    + exists (Scenario.blk 5). vm_compute. reflexivity.
    + exists 6. split; vm_compute; reflexivity.
    + intros opts s Hb. simpl. unfold RetryScenario.rejectingRunBlock. rewrite Hb.
      reflexivity.
  - left. reflexivity.
Defined.

(** ** [executeBlocks] *)

Lemma replayedBlocks_app (evs evs' : list ReplayEvent) :
  replayedBlocks (evs ++ evs') = replayedBlocks evs ++ replayedBlocks evs'.
Proof. unfold replayedBlocks. apply omap_app. Qed.

Lemma replayedTxs_app (evs evs' : list ReplayEvent) :
  replayedTxs (evs ++ evs') = replayedTxs evs ++ replayedTxs evs'.
Proof. unfold replayedTxs. apply omap_app. Qed.

(** One turn of the loop without transaction hashes. *)
Lemma replayBlock_block_mode (C : Collaborators) (D : ReplayCollaborators) (first n : Z)
    (c : Chain) (r : Copy) :
  exists evs,
    replayed (snd (replayBlock C D first n [] c r)) = replayed r ++ evs
    /\ replayedTxs evs = []
    /\ (replayedBlocks evs = []
        \/ exists opts, replayedBlocks evs = [opts] /\ replayOpts c n opts)
    /\ (forall u, fst (replayBlock C D first n [] c r) = Ok u -> replayedBlocks evs <> []).
Proof.
  unfold replayBlock.
  destruct (Blockchain.getBlockNum n c) as [block|e] eqn:Hb.
  2: { exists []. rewrite app_nil_r. repeat split; auto; discriminate. }
  destruct (Blockchain.getBlock (parentHash (header block)) c) as [parent|e] eqn:Hp.
  2: { exists []. rewrite app_nil_r. repeat split; auto; discriminate. }
  destruct (Blockchain.getTotalDifficulty _ c) as [td|e].
  2: { exists []. rewrite app_nil_r. repeat split; auto; discriminate. }
  assert (Hopts : forall opts,
             opts = {| opt_block := block; opt_root := Some (stateRoot (header parent));
                       opt_clearCache := Some false; opt_skipBlockValidation := None;
                       opt_skipHeaderValidation := Some true |} ->
             replayOpts c n opts).
  { intros opts ->. unfold replayOpts. simpl.
    unfold Blockchain.getBlockNum in Hb. unfold Blockchain.getBlock in Hp.
    destruct (Blockchain.getBlockByNumber n c); inversion Hb; subst.
    destruct (Blockchain.getBlockByHash _ c); inversion Hp; subst. eauto 10. }
  cbv zeta. destruct (vm_runBlock C _ _) as [[res|e] s]; simpl.
  - eexists [_; RpRunBlock _; _]. rewrite <- !(assoc_L (++)). split; [reflexivity|].
    split; [reflexivity|]. split; [right; eexists; split; [reflexivity | auto] | discriminate].
  - eexists [_; RpRunBlock _]. rewrite <- !(assoc_L (++)). split; [reflexivity|].
    split; [reflexivity|]. split; [right; eexists; split; [reflexivity | auto] | discriminate].
Qed.

Lemma replayFrom_block_mode (C : Collaborators) (D : ReplayCollaborators) (first : Z)
    (c : Chain) (turns : nat) :
  forall (n : Z) (r : Copy),
    exists evs,
      replayed (snd (replayFrom C D turns first n [] c r)) = replayed r ++ evs
      /\ replayedTxs evs = []
      /\ (List.length (replayedBlocks evs) <= turns)%nat
      /\ (forall (i : nat) opts,
            replayedBlocks evs !! i = Some opts -> replayOpts c (n + Z.of_nat i) opts)
      /\ (forall u, fst (replayFrom C D turns first n [] c r) = Ok u ->
            List.length (replayedBlocks evs) = turns).
Proof.
  induction turns as [|k IH]; intros n r; simpl.
  { exists []. rewrite app_nil_r. split; [reflexivity|]. split; [reflexivity|].
    split; [simpl; lia|]. split; [|reflexivity]. intros i opts H. destruct i; discriminate. }
  destruct (replayBlock_block_mode C D first n c r) as (evs1 & Ht1 & Htx1 & Hb1 & Hok1).
  destruct (replayBlock C D first n [] c r) as [[[]|e] r1]; simpl in Ht1, Hok1.
  - destruct Hb1 as [Hnone | (opts & Hone & Hopts)]; [exfalso; exact (Hok1 tt eq_refl Hnone)|].
    destruct (IH (n + 1) r1) as (evs2 & Ht2 & Htx2 & Hlen2 & Hidx2 & Hok2).
    exists (evs1 ++ evs2). rewrite Ht2, Ht1, (assoc_L (++)). split; [reflexivity|].
    rewrite replayedTxs_app, Htx1, Htx2, replayedBlocks_app, Hone. simpl.
    split; [reflexivity|]. split; [lia|]. split.
    + intros i o. destruct i as [|i]; simpl.
      * intros H. inversion H; subst o. rewrite Z.add_0_r. exact Hopts.
      * intros H. replace (n + Z.of_nat (S i)) with (n + 1 + Z.of_nat i) by lia. auto.
    + intros u Hu. f_equal. exact (Hok2 u Hu).
  - exists evs1. split; [exact Ht1|]. split; [exact Htx1|].
    destruct Hb1 as [-> | (opts & -> & Hopts)]; simpl.
    + split; [lia|]. split; [|discriminate]. intros i o H. destruct i; discriminate.
    + split; [lia|]. split; [|discriminate]. intros i o H. destruct i as [|i]; simpl in H.
      * inversion H; subst o. rewrite Z.add_0_r. exact Hopts.
      * destruct i; discriminate.
Qed.

(** X11: [executeBlocks(first, last, [])] never calls [vm.runTx].  The
    blocks it hands to [vm.runBlock] of the copy are the canonical blocks
    [first], [first + 1], ... in order, each with [clearCache: false] and
    [skipHeaderValidation: true] on the state root of its parent as stored;
    it stops at the first block that is missing or fails, and when it
    returns all the blocks of the range were run (none when [first > last]). *)
Theorem executeBlocks_replays_the_range (C : Collaborators) (D : ReplayCollaborators)
    (first last : Z) (w : World) :
  let '(r, copy) := executeBlocks C D first last [] w in
  replayedTxs (replayed copy) = []
  /\ (List.length (replayedBlocks (replayed copy)) <= Z.to_nat (last - first + 1))%nat
  /\ (forall (i : nat) (opts : RunBlockOpts),
        replayedBlocks (replayed copy) !! i = Some opts ->
        Blockchain.getBlockByNumber (first + Z.of_nat i) (chain w) = Some (opt_block opts)
        /\ opt_clearCache opts = Some false
        /\ opt_skipHeaderValidation opts = Some true
        /\ exists parent,
             Blockchain.getBlockByHash (parentHash (header (opt_block opts))) (chain w)
             = Some parent
             /\ opt_root opts = Some (stateRoot (header parent)))
  /\ (r = Ok tt ->
      List.length (replayedBlocks (replayed copy)) = Z.to_nat (last - first + 1)).
Proof.
  unfold executeBlocks.
  destruct (replayFrom_block_mode C D first (chain w) (Z.to_nat (last - first + 1)) first
              (shallowCopy w)) as (evs & Ht & Htx & Hlen & Hidx & Hok).
  destruct (replayFrom C D _ first first [] (chain w) (shallowCopy w)) as [r copy].
  simpl in Ht, Hok. rewrite Ht.
  split; [exact Htx|]. split; [exact Hlen|]. split; [exact Hidx|].
  intros ->. exact (Hok tt eq_refl).
Qed.

Lemma runTxs_spec (D : ReplayCollaborators) (block : Block) (n : Z) (allTxs : bool)
    (txHashes : list string) (txs : list Tx) :
  forall (count : nat) (r : Copy),
    exists evs,
      replayed (snd (runTxs D block n allTxs txHashes txs count r)) = replayed r ++ evs
      /\ replayedBlocks evs = []
      /\ (forall total,
            fst (runTxs D block n allTxs txHashes txs count r) = Ok total ->
            replayedTxs evs
            = map (pair block)
                (List.filter
                   (fun tx => (allTxs || includesHash txHashes (txHashHex D tx))%bool) txs)).
Proof.
  induction txs as [|tx rest IH]; intros count r; simpl.
  { exists []. rewrite app_nil_r. auto. }
  destruct (allTxs || includesHash txHashes (txHashHex D tx))%bool.
  - destruct (vm_runTx D block tx (copyVm r)) as [[gas|e] s].
    + destruct (IH (count + 1)%nat
                  (record (RpExecutedTx (txHashHex D tx) gas n)
                     (set_copyVm s (record (RpRunTx block tx) r))))
        as (evs & Ht & Hb & Hok).
      exists ([RpRunTx block tx; RpExecutedTx (txHashHex D tx) gas n] ++ evs).
      rewrite Ht. simpl. rewrite <- !(assoc_L (++)). split; [reflexivity|].
      split; [exact Hb|]. intros total Htotal. simpl. f_equal. exact (Hok total Htotal).
    + exists [RpRunTx block tx]. simpl. split; [reflexivity|]. split; [reflexivity|].
      discriminate.
  - apply IH.
Qed.

(** One turn of the loop with transaction hashes. *)
Lemma replayBlock_tx_mode (C : Collaborators) (D : ReplayCollaborators) (first n : Z)
    (txHashes : list string) (c : Chain) (r : Copy) :
  txHashes <> [] ->
  exists evs,
    replayed (snd (replayBlock C D first n txHashes c r)) = replayed r ++ evs
    /\ replayedBlocks evs = []
    /\ (forall u, fst (replayBlock C D first n txHashes c r) = Ok u ->
          exists block,
            Blockchain.getBlockByNumber n c = Some block
            /\ replayedTxs evs = selectedTxs D txHashes block).
Proof.
  intros Hne. unfold replayBlock.
  destruct (Blockchain.getBlockNum n c) as [block|e] eqn:Hb.
  2: { exists []. rewrite app_nil_r. repeat split; auto; discriminate. }
  destruct (Blockchain.getBlock (parentHash (header block)) c) as [parent|e].
  2: { exists []. rewrite app_nil_r. repeat split; auto; discriminate. }
  destruct (Blockchain.getTotalDifficulty _ c) as [td|e].
  2: { exists []. rewrite app_nil_r. repeat split; auto; discriminate. }
  destruct txHashes as [|h t]; [congruence|]. cbv zeta.
  match goal with |- context [runTxs D block n ?a ?hs ?txs 0%nat ?r1] =>
    destruct (runTxs_spec D block n a hs txs 0%nat r1) as (evs & Ht & Hbl & Hok);
    destruct (runTxs D block n a hs txs 0%nat r1) as [[count|e] r2]
  end; simpl in Ht, Hok.
  - assert (Hsel : replayedTxs (RpSetHardforkBy n td (timestamp (header block)) :: evs)
                   = selectedTxs D (h :: t) block).
    { simpl. exact (Hok count eq_refl). }
    assert (Hblock : Blockchain.getBlockByNumber n c = Some block).
    { unfold Blockchain.getBlockNum in Hb.
      destruct (Blockchain.getBlockByNumber n c); inversion Hb; reflexivity. }
    destruct (count =? 0)%nat; [destruct (negb (isWildcard (h :: t)))|]; simpl.
    + eexists (_ :: evs ++ [_]). rewrite Ht, <- !(assoc_L (++)). split; [reflexivity|].
      split; [simpl; rewrite replayedBlocks_app, Hbl; reflexivity|].
      intros u _. exists block. split; [exact Hblock|].
      simpl. rewrite replayedTxs_app. simpl. rewrite app_nil_r. exact Hsel.
    + eexists (_ :: evs ++ [_]). rewrite Ht, <- !(assoc_L (++)). split; [reflexivity|].
      split; [simpl; rewrite replayedBlocks_app, Hbl; reflexivity|].
      intros u _. exists block. split; [exact Hblock|].
      simpl. rewrite replayedTxs_app. simpl. rewrite app_nil_r. exact Hsel.
    + eexists (_ :: evs). rewrite Ht, <- !(assoc_L (++)). split; [reflexivity|].
      split; [exact Hbl|]. intros u _. exists block. auto.
  - simpl. eexists (_ :: evs). rewrite Ht, <- !(assoc_L (++)). split; [reflexivity|].
    split; [exact Hbl | discriminate].
Qed.

Lemma replayFrom_tx_mode (C : Collaborators) (D : ReplayCollaborators) (first : Z)
    (txHashes : list string) (c : Chain) (turns : nat) :
  txHashes <> [] ->
  forall (n : Z) (r : Copy),
    exists evs,
      replayed (snd (replayFrom C D turns first n txHashes c r)) = replayed r ++ evs
      /\ replayedBlocks evs = []
      /\ (forall u, fst (replayFrom C D turns first n txHashes c r) = Ok u ->
            exists blocks,
              List.length blocks = turns
              /\ (forall (i : nat) (b : Block),
                    blocks !! i = Some b ->
                    Blockchain.getBlockByNumber (n + Z.of_nat i) c = Some b)
              /\ replayedTxs evs = flat_map (selectedTxs D txHashes) blocks).
Proof.
  intros Hne. induction turns as [|k IH]; intros n r; simpl.
  { exists []. rewrite app_nil_r. split; [reflexivity|]. split; [reflexivity|].
    intros u _. exists []. split; [reflexivity|]. split; [|reflexivity].
    intros i b H. destruct i; discriminate. }
  destruct (replayBlock_tx_mode C D first n txHashes c r Hne) as (evs1 & Ht1 & Hb1 & Hok1).
  destruct (replayBlock C D first n txHashes c r) as [[[]|e] r1]; simpl in Ht1, Hok1.
  - destruct (Hok1 tt eq_refl) as (block & Hblock & Hsel).
    destruct (IH (n + 1) r1) as (evs2 & Ht2 & Hb2 & Hok2).
    exists (evs1 ++ evs2). rewrite Ht2, Ht1, (assoc_L (++)). split; [reflexivity|].
    rewrite replayedBlocks_app, Hb1, Hb2. split; [reflexivity|].
    intros u Hu. destruct (Hok2 u Hu) as (blocks & Hlen & Hidx & Htxs).
    exists (block :: blocks). simpl. split; [f_equal; exact Hlen|]. split.
    + intros i b. destruct i as [|i]; simpl.
      * intros H. inversion H; subst b. rewrite Z.add_0_r. exact Hblock.
      * intros H. replace (n + Z.of_nat (S i)) with (n + 1 + Z.of_nat i) by lia. auto.
    + rewrite replayedTxs_app, Hsel, Htxs. reflexivity.
  - exists evs1. split; [exact Ht1|]. split; [exact Hb1 | discriminate].
Qed.

(** X12: [executeBlocks] with a non-empty list of transaction hashes never
    calls [vm.runBlock].  When it returns, it has visited the canonical
    blocks [first .. last] in order and handed to [vm.runTx], block by block
    and in the order of the block, exactly the transactions that the list
    selects: all of them when the list is the single element ["*"], and
    otherwise those whose hash is an element of the list, so that ["*"]
    next to another element selects nothing by itself. *)
Theorem executeBlocks_replays_selected_txs (C : Collaborators) (D : ReplayCollaborators)
    (first last : Z) (txHashes : list string) (w : World) (copy : Copy) :
  txHashes <> [] ->
  executeBlocks C D first last txHashes w = (Ok tt, copy) ->
  replayedBlocks (replayed copy) = []
  /\ exists blocks,
       List.length blocks = Z.to_nat (last - first + 1)
       /\ (forall (i : nat) (b : Block),
             blocks !! i = Some b ->
             Blockchain.getBlockByNumber (first + Z.of_nat i) (chain w) = Some b)
       /\ replayedTxs (replayed copy)
          = flat_map
              (fun b =>
                 map (pair b)
                   (List.filter
                      (fun tx =>
                         match txHashes with
                         | [h] => String.eqb h "*" || includesHash txHashes (txHashHex D tx)
                         | _ => includesHash txHashes (txHashHex D tx)
                         end%bool)
                      (transactions b)))
              blocks.
Proof.
  intros Hne H. unfold executeBlocks in H.
  destruct (replayFrom_tx_mode C D first txHashes (chain w) (Z.to_nat (last - first + 1)) Hne
              first (shallowCopy w)) as (evs & Ht & Hb & Hok).
  rewrite H in Ht, Hok. simpl in Ht, Hok. rewrite Ht.
  split; [exact Hb|].
  destruct (Hok tt eq_refl) as (blocks & Hlen & Hidx & Htxs).
  exists blocks. split; [exact Hlen|]. split; [exact Hidx|]. rewrite Htxs.
  unfold selectedTxs, isWildcard.
  destruct txHashes as [|h [|h' t]]; reflexivity.
Qed.

(** Blocks 3 to 5 of the store with blocks 0..10, all transactions. *)
Lemma executeBlocks_replays_selected_txs_witness :
  replayedBlocks
    (replayed (snd (executeBlocks Scenario.paris ReplayScenario.collaborators 3 5
                      ["*"%string] Scenario.fresh))) = []
  /\ exists blocks,
       List.length blocks = Z.to_nat (5 - 3 + 1)
       /\ (forall (i : nat) (b : Block),
             blocks !! i = Some b ->
             Blockchain.getBlockByNumber (3 + Z.of_nat i) (chain Scenario.fresh) = Some b)
       /\ replayedTxs
            (replayed (snd (executeBlocks Scenario.paris ReplayScenario.collaborators 3 5
                              ["*"%string] Scenario.fresh)))
          = flat_map
              (fun b =>
                 map (pair b)
                   (List.filter
                      (fun tx =>
                         (String.eqb "*" "*"
                          || includesHash ["*"%string]
                               (txHashHex ReplayScenario.collaborators tx))%bool)
                      (transactions b)))
              blocks.
Proof.
  apply (executeBlocks_replays_selected_txs Scenario.paris ReplayScenario.collaborators
           3 5 ["*"%string] Scenario.fresh).
  - discriminate.
  - vm_compute. reflexivity.
Defined.

(** ** The flat snapshot store *)

Lemma fold_left_length_sum (arrays : list (list Byte.byte)) (n : nat) :
  fold_left (fun prev curr => (prev + List.length curr)%nat) arrays n
  = (n + List.length (List.concat arrays))%nat.
Proof.
  revert n. induction arrays as [|a rest IH]; intros n; simpl.
  - lia.
  - rewrite IH, length_app. lia.
Qed.

Lemma copyAll_concat (arrays : list (list Byte.byte)) :
  forall (done rest_ : list Byte.byte),
    List.length rest_ = List.length (List.concat arrays) ->
    Snapshot.copyAll arrays (List.length done) (done ++ rest_)
    = Ok (done ++ List.concat arrays).
Proof.
  induction arrays as [|a rest IH]; intros done rest_ Hlen; simpl in *.
  - destruct rest_; [reflexivity | discriminate].
  - rewrite length_app in Hlen. unfold Snapshot.setAt.
    rewrite length_app.
    destruct (Nat.ltb_spec (List.length done + List.length rest_)
                (List.length done + List.length a)) as [Hlt | Hge]; [lia|].
    rewrite take_app_length.
    rewrite drop_app_add'. 2: reflexivity.
    specialize (IH (done ++ a) (drop (List.length a) rest_)).
    rewrite length_app, <- !(assoc_L (++)) in IH.
    apply IH. rewrite length_drop. lia.
Qed.

Lemma concatenate_ok (arrays : list (list Byte.byte)) :
  Snapshot.concatenateUint8Arrays arrays = Ok (List.concat arrays).
Proof.
  unfold Snapshot.concatenateUint8Arrays. rewrite fold_left_length_sum. simpl.
  apply (copyAll_concat arrays [] (replicate (List.length (List.concat arrays)) Byte.x00)).
  apply length_replicate.
Qed.

(** X13: [concatenateUint8Arrays] never throws: the copy at running offsets
    into the zero-filled array of the summed length fits for every input,
    and the result is the arrays one after the other, of the summed
    length. *)
Theorem concatenateUint8Arrays_is_concat (arrays : list (list Byte.byte)) :
  Snapshot.concatenateUint8Arrays arrays = Ok (List.concat arrays)
  /\ List.length (List.concat arrays) = sum_list (map List.length arrays).
Proof.
  split; [apply concatenate_ok|].
  induction arrays as [|a rest IH]; simpl; [reflexivity|].
  rewrite length_app, IH. reflexivity.
Qed.

(** Runs the plumbing of a method of [Snapshot]. *)
Ltac sgoal :=
  cbv beta iota zeta delta
    [Snapshot.bind Snapshot.ret Snapshot.throw Snapshot.lift Snapshot.gets Snapshot.modify];
  simpl.

Lemma constructor_preState (db : option (Snapshot.Database)) :
  preState (default ∅ db) (Snapshot.constructor db).
Proof.
  split; [reflexivity|]. exists ∅. split; [reflexivity|].
  intros key. rewrite lookup_empty. reflexivity.
Qed.

(** [_saveCachePreState] on a store with one level: it returns, the
    database is the same, the key has an entry afterwards and the entries
    that were there are kept. *)
Lemma saveCachePreState_spec (db0 : Snapshot.Database) (key : Snapshot.Bytes) (s : Snapshot.Store) :
  preState db0 s ->
  exists s',
    Snapshot._saveCachePreState key s = (Ok tt, s')
    /\ preState db0 s'
    /\ Snapshot._db s' = Snapshot._db s
    /\ recorded s' key
    /\ (forall k, recorded s k -> recorded s' k).
Proof.
  intros (Hc & diff & Hd & Hpre). unfold Snapshot._saveCachePreState, recorded.
  rewrite Hc, Hd. simpl.
  destruct (diff !! key) as [e|] eqn:Hk.
  - exists s. split; [reflexivity|]. split; [|split; [reflexivity|]].
    + split; [exact Hc|]. exists diff. split; [exact Hd | exact Hpre].
    + rewrite Hc, Hd. simpl. split; [|auto]. exists diff. rewrite Hk. eauto.
  - eexists. split; [reflexivity|]. split; [|split; [reflexivity|]].
    + split; [exact Hc|]. eexists. split; [reflexivity|].
      intros k. simpl. destruct (decide (k = key)) as [->|Hne].
      * rewrite lookup_insert_eq. simpl. unfold Snapshot.LevelDB.get.
        specialize (Hpre key). rewrite Hk in Hpre. exact Hpre.
      * rewrite lookup_insert_ne by congruence. apply Hpre.
    + simpl. rewrite Hc. simpl. split.
      * eexists. split; [reflexivity|]. rewrite lookup_insert_eq. eauto.
      * intros k (d & Hd' & Hsome). inversion Hd'; subst d.
        eexists. split; [reflexivity|].
        destruct (decide (k = key)) as [->|Hne].
        -- rewrite lookup_insert_eq. eauto.
        -- rewrite lookup_insert_ne by congruence. exact Hsome.
Qed.

(** A write to the database keeps [preState] when every key it changes has
    an entry in the diff map. *)
Lemma preState_write (db0 : Snapshot.Database) (s : Snapshot.Store)
    (f : Snapshot.Database -> Snapshot.Database) :
  preState db0 s ->
  (forall key, ~ recorded s key -> f (Snapshot._db s) !! key = Snapshot._db s !! key) ->
  preState db0 (Snapshot.set_db f s).
Proof.
  intros (Hc & diff & Hd & Hpre) Hf. split; [exact Hc|].
  exists diff. split; [exact Hd|]. intros key. specialize (Hpre key).
  destruct (diff !! key) eqn:Hk; [exact Hpre|].
  simpl. rewrite Hf; [exact Hpre|].
  intros (d & Hd' & Hsome). rewrite Hc, Hd in Hd'. inversion Hd'; subst d.
  rewrite Hk in Hsome. destruct Hsome; discriminate.
Qed.

(** Saving the pre-state of one key and then writing that key. *)
Lemma save_then_write (db0 : Snapshot.Database) (key : Snapshot.Bytes) (s : Snapshot.Store)
    (f : Snapshot.Database -> Snapshot.Database) :
  preState db0 s ->
  (forall db k, k <> key -> f db !! k = db !! k) ->
  exists s1,
    Snapshot._saveCachePreState key s = (Ok tt, s1)
    /\ Snapshot._db s1 = Snapshot._db s
    /\ preState db0 (Snapshot.set_db f s1).
Proof.
  intros Hpre Hf.
  destruct (saveCachePreState_spec db0 key s Hpre) as (s1 & Hs & Hpre1 & Hdb & Hrec & _).
  exists s1. split; [exact Hs|]. split; [exact Hdb|].
  apply preState_write; [exact Hpre1|].
  intros k Hnot. apply Hf. intros ->. contradiction.
Qed.

Lemma put_other (key value k : Snapshot.Bytes) (db : Snapshot.Database) :
  k <> key -> Snapshot.LevelDB.put key value db !! k = db !! k.
Proof. intros H. unfold Snapshot.LevelDB.put. apply lookup_insert_ne. congruence. Qed.

Lemma del_other (key k : Snapshot.Bytes) (db : Snapshot.Database) :
  k <> key -> Snapshot.LevelDB.del key db !! k = db !! k.
Proof. intros H. unfold Snapshot.LevelDB.del. apply lookup_delete_ne. congruence. Qed.

Lemma forEach_save (db0 : Snapshot.Database) (keys : list (Snapshot.Bytes)) :
  forall s, preState db0 s ->
  exists s',
    Snapshot.forEach keys Snapshot._saveCachePreState s = (Ok tt, s')
    /\ preState db0 s'
    /\ Snapshot._db s' = Snapshot._db s
    /\ (forall k, k ∈ keys -> recorded s' k)
    /\ (forall k, recorded s k -> recorded s' k).
Proof.
  induction keys as [|key rest IH]; intros s Hpre.
  - exists s. split; [reflexivity|]. split; [exact Hpre|]. split; [reflexivity|].
    split; [|auto]. intros k Hin. inversion Hin.
  - destruct (saveCachePreState_spec db0 key s Hpre) as (s1 & Hs & Hpre1 & Hdb1 & Hrec1 & Hmono1).
    destruct (IH s1 Hpre1) as (s2 & Hs2 & Hpre2 & Hdb2 & Hrec2 & Hmono2).
    exists s2. split; [|split; [exact Hpre2 | split; [congruence|split]]].
    + simpl. unfold Snapshot.bind at 1. rewrite Hs. exact Hs2.
    + intros k Hin. apply elem_of_cons in Hin as [->|Hin]; auto.
    + auto.
Qed.

(** [keysByPrefix] and [delByPrefix] of the key-value map. *)
Lemma keysByPrefix_spec (p k : Snapshot.Bytes) (db : Snapshot.Database) :
  k ∈ Snapshot.LevelDB.keysByPrefix p db <-> p `prefix_of` k /\ is_Some (db !! k).
Proof.
  unfold Snapshot.LevelDB.keysByPrefix. rewrite list_elem_of_filter.
  rewrite list_elem_of_fmap. split.
  - intros [Hp ([k' v] & -> & Hin)]. split; [exact Hp|].
    apply elem_of_map_to_list in Hin. simpl. eauto.
  - intros [Hp [v Hv]]. split; [exact Hp|]. exists (k, v). split; [reflexivity|].
    apply elem_of_map_to_list. exact Hv.
Qed.

Lemma delByPrefix_lookup (p k : Snapshot.Bytes) (db : Snapshot.Database) :
  Snapshot.LevelDB.delByPrefix p db !! k = if decide (p `prefix_of` k) then None else db !! k.
Proof.
  unfold Snapshot.LevelDB.delByPrefix. destruct (decide (p `prefix_of` k)) as [Hp|Hp].
  - apply map_lookup_filter_None. right. intros v _. simpl. auto.
  - destruct (db !! k) as [v|] eqn:Hv.
    + apply map_lookup_filter_Some. split; [exact Hv | exact Hp].
    + apply map_lookup_filter_None. left. exact Hv.
Qed.

Lemma accountKey_ok (E : Snapshot.Externals) (address : Snapshot.Bytes) :
  Snapshot.concatenateUint8Arrays [Snapshot.ACCOUNT_PREFIX; Snapshot.keccak256 E address]
  = Ok (accountKey E address).
Proof. rewrite concatenate_ok. unfold accountKey. simpl. rewrite app_nil_r. reflexivity. Qed.

Lemma slotKey_ok (E : Snapshot.Externals) (address slot : Snapshot.Bytes) :
  Snapshot.concatenateUint8Arrays
    [Snapshot.STORAGE_PREFIX; Snapshot.keccak256 E address; Snapshot.keccak256 E slot]
  = Ok (slotKey E address slot).
Proof. rewrite concatenate_ok. unfold slotKey. simpl. rewrite app_nil_r. reflexivity. Qed.

Lemma storagePrefix_ok (E : Snapshot.Externals) (address : Snapshot.Bytes) :
  Snapshot.concatenateUint8Arrays [Snapshot.STORAGE_PREFIX; Snapshot.keccak256 E address]
  = Ok (storagePrefix E address).
Proof. rewrite concatenate_ok. unfold storagePrefix. simpl. rewrite app_nil_r. reflexivity. Qed.

Lemma getAccount_spec (E : Snapshot.Externals) (address : Snapshot.Bytes) (s : Snapshot.Store) :
  Snapshot.getAccount E address s = (Ok (Snapshot._db s !! accountKey E address), s).
Proof. unfold Snapshot.getAccount. rewrite accountKey_ok. reflexivity. Qed.

Lemma getStorageSlot_spec (E : Snapshot.Externals) (address slot : Snapshot.Bytes)
    (s : Snapshot.Store) :
  Snapshot.getStorageSlot E address slot s
  = (Ok (Snapshot._db s !! slotKey E address slot), s).
Proof. unfold Snapshot.getStorageSlot. rewrite slotKey_ok. reflexivity. Qed.

Lemma putAccount_spec (E : Snapshot.Externals) (db0 : Snapshot.Database)
    (address : Snapshot.Bytes) (account : Snapshot.Account) (s : Snapshot.Store) :
  preState db0 s ->
  exists s',
    Snapshot.putAccount E address account s = (Ok tt, s')
    /\ Snapshot._db s'
       = <[accountKey E address := Snapshot.serialize E account]> (Snapshot._db s)
    /\ preState db0 s'.
Proof.
  intros Hpre. unfold Snapshot.putAccount. rewrite accountKey_ok.
  destruct (save_then_write db0 (accountKey E address) s
              (Snapshot.LevelDB.put (accountKey E address) (Snapshot.serialize E account))
              Hpre) as (s1 & Hs & Hdb & Hpre1).
  { intros db k Hne. apply put_other. exact Hne. }
  eexists. sgoal. rewrite Hs. split; [reflexivity|]. split; [|exact Hpre1].
  simpl. rewrite Hdb. reflexivity.
Qed.

Lemma delAccount_spec (E : Snapshot.Externals) (db0 : Snapshot.Database)
    (address : Snapshot.Bytes) (s : Snapshot.Store) :
  preState db0 s ->
  exists s',
    Snapshot.delAccount E address s = (Ok tt, s')
    /\ Snapshot._db s' = delete (accountKey E address) (Snapshot._db s)
    /\ preState db0 s'.
Proof.
  intros Hpre. unfold Snapshot.delAccount. rewrite accountKey_ok.
  destruct (save_then_write db0 (accountKey E address) s
              (Snapshot.LevelDB.del (accountKey E address)) Hpre) as (s1 & Hs & Hdb & Hpre1).
  { intros db k Hne. apply del_other. exact Hne. }
  eexists. sgoal. rewrite Hs. split; [reflexivity|]. split; [|exact Hpre1].
  simpl. rewrite Hdb. reflexivity.
Qed.

Lemma putStorageSlot_spec (E : Snapshot.Externals) (db0 : Snapshot.Database)
    (address slot value : Snapshot.Bytes) (s : Snapshot.Store) :
  preState db0 s ->
  exists s',
    Snapshot.putStorageSlot E address slot value s = (Ok tt, s')
    /\ Snapshot._db s' = <[slotKey E address slot := value]> (Snapshot._db s)
    /\ preState db0 s'.
Proof.
  intros Hpre. unfold Snapshot.putStorageSlot. rewrite slotKey_ok.
  destruct (save_then_write db0 (slotKey E address slot) s
              (Snapshot.LevelDB.put (slotKey E address slot) value) Hpre)
    as (s1 & Hs & Hdb & Hpre1).
  { intros db k Hne. apply put_other. exact Hne. }
  eexists. sgoal. rewrite Hs. split; [reflexivity|]. split; [|exact Hpre1].
  simpl. rewrite Hdb. reflexivity.
Qed.

Lemma delStorageSlot_spec (E : Snapshot.Externals) (db0 : Snapshot.Database)
    (address slot : Snapshot.Bytes) (s : Snapshot.Store) :
  preState db0 s ->
  exists s',
    Snapshot.delStorageSlot E address slot s = (Ok tt, s')
    /\ Snapshot._db s' = delete (slotKey E address slot) (Snapshot._db s)
    /\ preState db0 s'.
Proof.
  intros Hpre. unfold Snapshot.delStorageSlot. rewrite slotKey_ok.
  destruct (save_then_write db0 (slotKey E address slot) s
              (Snapshot.LevelDB.del (slotKey E address slot)) Hpre)
    as (s1 & Hs & Hdb & Hpre1).
  { intros db k Hne. apply del_other. exact Hne. }
  eexists. sgoal. rewrite Hs. split; [reflexivity|]. split; [|exact Hpre1].
  simpl. rewrite Hdb. reflexivity.
Qed.

Lemma clearAccountStorage_spec (E : Snapshot.Externals) (db0 : Snapshot.Database)
    (address : Snapshot.Bytes) (s : Snapshot.Store) :
  preState db0 s ->
  exists s',
    Snapshot.clearAccountStorage E address s = (Ok tt, s')
    /\ Snapshot._db s'
       = Snapshot.LevelDB.delByPrefix (storagePrefix E address) (Snapshot._db s)
    /\ preState db0 s'.
Proof.
  intros Hpre. unfold Snapshot.clearAccountStorage. rewrite storagePrefix_ok.
  destruct (forEach_save db0
              (Snapshot.LevelDB.keysByPrefix (storagePrefix E address) (Snapshot._db s))
              s Hpre) as (s1 & Hs & Hpre1 & Hdb & Hrec & _).
  eexists. sgoal. rewrite Hs. split; [reflexivity|]. split.
  - simpl. rewrite Hdb. reflexivity.
  - apply preState_write; [exact Hpre1|].
    intros key Hnot. rewrite delByPrefix_lookup.
    destruct (decide (storagePrefix E address `prefix_of` key)) as [Hp|Hp]; [|reflexivity].
    destruct (Snapshot._db s1 !! key) as [v|] eqn:Hv; [|reflexivity].
    exfalso. apply Hnot, Hrec, keysByPrefix_spec. split; [exact Hp|].
    rewrite <- Hdb, Hv. eauto.
Qed.

Lemma clearAccount_spec (E : Snapshot.Externals) (db0 : Snapshot.Database)
    (address : Snapshot.Bytes) (s : Snapshot.Store) :
  preState db0 s ->
  match Snapshot._db s !! accountKey E address with
  | None => Snapshot.clearAccount E address s = (Ok tt, s)
  | Some raw =>
      exists s',
        preState db0 s'
        /\ match Snapshot.fromRlpSerializedAccount E raw with
           | Ok _ =>
               Snapshot.clearAccount E address s = (Ok tt, s')
               /\ Snapshot._db s'
                  = Snapshot.LevelDB.delByPrefix (storagePrefix E address)
                      (delete (accountKey E address) (Snapshot._db s))
           | Throw e =>
               Snapshot.clearAccount E address s = (Throw e, s')
               /\ Snapshot._db s' = delete (accountKey E address) (Snapshot._db s)
           end
  end.
Proof.
  intros Hpre.
  assert (Hunfold : Snapshot.clearAccount E address s
                    = match Snapshot._db s !! accountKey E address with
                      | None => (Ok tt, s)
                      | Some raw =>
                          match Snapshot.delAccount E address s with
                          | (Ok _, s1) =>
                              match Snapshot.fromRlpSerializedAccount E raw with
                              | Ok _ => Snapshot.clearAccountStorage E address s1
                              | Throw e => (Throw e, s1)
                              end
                          | (Throw e, s1) => (Throw e, s1)
                          end
                      end).
  { unfold Snapshot.clearAccount. unfold Snapshot.bind at 1. rewrite getAccount_spec.
    destruct (Snapshot._db s !! accountKey E address); [|reflexivity].
    unfold Snapshot.bind at 1. destruct (Snapshot.delAccount E address s) as [[[]|e] s1];
      [|reflexivity].
    unfold Snapshot.bind, Snapshot.lift.
    match goal with |- context [Snapshot.fromRlpSerializedAccount E ?raw] =>
      destruct (Snapshot.fromRlpSerializedAccount E raw)
    end; reflexivity. }
  rewrite Hunfold. clear Hunfold.
  destruct (Snapshot._db s !! accountKey E address) as [raw|] eqn:Hraw; [|reflexivity].
  destruct (delAccount_spec E db0 address s Hpre) as (s1 & Hs1 & Hdb1 & Hpre1).
  rewrite Hs1.
  destruct (Snapshot.fromRlpSerializedAccount E raw) as [account|e] eqn:Hdec.
  - destruct (clearAccountStorage_spec E db0 address s1 Hpre1) as (s2 & Hs2 & Hdb2 & Hpre2).
    exists s2. split; [exact Hpre2|]. split; [exact Hs2|].
    rewrite Hdb2, Hdb1. reflexivity.
  - exists s1. split; [exact Hpre1|]. split; [reflexivity | exact Hdb1].
Qed.

Lemma call_preState (E : Snapshot.Externals) (db0 : Snapshot.Database) (c : Snapshot.Call)
    (s : Snapshot.Store) :
  preState db0 s -> preState db0 (Snapshot.call E c s).
Proof.
  intros Hpre. destruct c; simpl; try exact Hpre.
  - destruct (putAccount_spec E db0 address account s Hpre) as (s' & -> & _ & H). exact H.
  - rewrite getAccount_spec. exact Hpre.
  - destruct (delAccount_spec E db0 address s Hpre) as (s' & -> & _ & H). exact H.
  - pose proof (clearAccount_spec E db0 address s Hpre) as H.
    destruct (Snapshot._db s !! accountKey E address) as [raw|].
    + destruct H as (s' & Hpre' & H).
      destruct (Snapshot.fromRlpSerializedAccount E raw); destruct H as [-> _]; exact Hpre'.
    + rewrite H. exact Hpre.
  - destruct (putStorageSlot_spec E db0 address slot value s Hpre) as (s' & -> & _ & H).
    exact H.
  - rewrite getStorageSlot_spec. exact Hpre.
  - destruct (delStorageSlot_spec E db0 address slot s Hpre) as (s' & -> & _ & H). exact H.
  - destruct (clearAccountStorage_spec E db0 address s Hpre) as (s' & -> & _ & H). exact H.
Qed.

Lemma history_preState (E : Snapshot.Externals) (db : option Snapshot.Database)
    (cs : list Snapshot.Call) :
  preState (default ∅ db) (Snapshot.history E db cs).
Proof.
  unfold Snapshot.history.
  generalize (constructor_preState db). generalize (Snapshot.constructor db).
  induction cs as [|c rest IH]; intros s Hpre; simpl; [exact Hpre|].
  apply IH, call_preState, Hpre.
Qed.

(** X14: after any sequence of calls of public methods on a new
    [Snapshot] over the database [db] (calls that throw included), the
    checkpoint level is still 0 and the diff cache is still one map; that map
    holds, for every key it has an entry for, the value that [db] had for the
    key when the snapshot was made ([undefined] when it had none), and every
    key without an entry still has its value of [db]: the pre-state is saved
    before a first modification and never overwritten. *)
Theorem diff_cache_holds_pre_state (E : Snapshot.Externals) (db : option Snapshot.Database)
    (cs : list Snapshot.Call) :
  let s := Snapshot.history E db cs in
  Snapshot._checkpoints s = 0%nat
  /\ exists diff,
       Snapshot._diffCache s = [diff]
       /\ forall key,
            match diff !! key with
            | Some e => Snapshot.data e = default ∅ db !! key
            | None => Snapshot._db s !! key = default ∅ db !! key
            end.
Proof. exact (history_preState E db cs). Qed.

(** X15: on a snapshot reached by any sequence of calls, a write
    returns and is seen by the next read of the same key: [getAccount] after
    [putAccount] gives the serialized account and after [delAccount] gives
    [undefined]; [getStorageSlot] after [putStorageSlot] gives the value put
    and after [delStorageSlot] gives [undefined]. *)
Theorem snapshot_write_then_read (E : Snapshot.Externals) (db : option Snapshot.Database)
    (cs : list Snapshot.Call) (address slot value : Snapshot.Bytes)
    (account : Snapshot.Account) :
  let s := Snapshot.history E db cs in
  (exists s', Snapshot.putAccount E address account s = (Ok tt, s')
              /\ fst (Snapshot.getAccount E address s')
                 = Ok (Some (Snapshot.serialize E account)))
  /\ (exists s', Snapshot.delAccount E address s = (Ok tt, s')
                 /\ fst (Snapshot.getAccount E address s') = Ok None)
  /\ (exists s', Snapshot.putStorageSlot E address slot value s = (Ok tt, s')
                 /\ fst (Snapshot.getStorageSlot E address slot s') = Ok (Some value))
  /\ (exists s', Snapshot.delStorageSlot E address slot s = (Ok tt, s')
                 /\ fst (Snapshot.getStorageSlot E address slot s') = Ok None).
Proof.
  intros s. pose proof (history_preState E db cs) as Hpre. fold s in Hpre.
  repeat split.
  - destruct (putAccount_spec E _ address account s Hpre) as (s' & Hs & Hdb & _).
    exists s'. split; [exact Hs|]. rewrite getAccount_spec, Hdb. simpl.
    rewrite lookup_insert_eq. reflexivity.
  - destruct (delAccount_spec E _ address s Hpre) as (s' & Hs & Hdb & _).
    exists s'. split; [exact Hs|]. rewrite getAccount_spec, Hdb. simpl.
    rewrite lookup_delete_eq. reflexivity.
  - destruct (putStorageSlot_spec E _ address slot value s Hpre) as (s' & Hs & Hdb & _).
    exists s'. split; [exact Hs|]. rewrite getStorageSlot_spec, Hdb. simpl.
    rewrite lookup_insert_eq. reflexivity.
  - destruct (delStorageSlot_spec E _ address slot s Hpre) as (s' & Hs & Hdb & _).
    exists s'. split; [exact Hs|]. rewrite getStorageSlot_spec, Hdb. simpl.
    rewrite lookup_delete_eq. reflexivity.
Qed.

(** The database after [_saveCachePreState], whatever its outcome. *)
Lemma saveCachePreState_db (key : Snapshot.Bytes) (s : Snapshot.Store) :
  Snapshot._db (snd (Snapshot._saveCachePreState key s)) = Snapshot._db s.
Proof.
  unfold Snapshot._saveCachePreState.
  destruct (Snapshot._diffCache s !! Snapshot._checkpoints s) as [diff|]; [|reflexivity].
  destruct (diff !! key); reflexivity.
Qed.

Lemma forEach_save_db (keys : list Snapshot.Bytes) (s : Snapshot.Store) :
  Snapshot._db (snd (Snapshot.forEach keys Snapshot._saveCachePreState s)) = Snapshot._db s.
Proof.
  revert s. induction keys as [|key rest IH]; intros s; [reflexivity|].
  simpl. unfold Snapshot.bind at 1.
  pose proof (saveCachePreState_db key s) as H.
  destruct (Snapshot._saveCachePreState key s) as [[[]|e] s1]; simpl in *.
  - rewrite IH. exact H.
  - exact H.
Qed.

(** What a write that saves the pre-state of its key first does to the
    database, whatever the outcome of the save. *)
Lemma save_write_db (key : Snapshot.Bytes) (f : Snapshot.Database -> Snapshot.Database)
    (s : Snapshot.Store) :
  let s' := snd (Snapshot.bind (Snapshot._saveCachePreState key)
                   (fun _ => Snapshot.modify (Snapshot.set_db f)) s) in
  Snapshot._db s' = Snapshot._db s \/ Snapshot._db s' = f (Snapshot._db s).
Proof.
  unfold Snapshot.bind, Snapshot.modify.
  pose proof (saveCachePreState_db key s) as H.
  destruct (Snapshot._saveCachePreState key s) as [[[]|e] s1]; simpl in *.
  - right. rewrite H. reflexivity.
  - left. exact H.
Qed.

Lemma accountKey_not_storage (E : Snapshot.Externals) (a a' slot : Snapshot.Bytes) :
  accountKey E a' <> slotKey E a slot.
Proof. unfold accountKey, slotKey. simpl. congruence. Qed.

Lemma accountKey_no_storagePrefix (E : Snapshot.Externals) (a a' : Snapshot.Bytes) :
  ~ storagePrefix E a `prefix_of` accountKey E a'.
Proof. unfold accountKey, storagePrefix. simpl. intros [k Hk]. simpl in Hk. congruence. Qed.

(** X16: account entries and storage entries never touch each other,
    whatever the digest function and the state of the store:
    [putStorageSlot], [delStorageSlot] and [clearAccountStorage] of any
    address leave the outcome of [getAccount] for every address as it was,
    and [putAccount] and [delAccount] leave the outcome of [getStorageSlot]
    for every address and slot as it was (the keys start with the bytes 0x11
    and 0x00). *)
Theorem accounts_and_storage_are_separate (E : Snapshot.Externals) (s : Snapshot.Store)
    (a slot value a' slot' : Snapshot.Bytes) (account : Snapshot.Account) :
  let accountAfter (s' : Snapshot.Store) := fst (Snapshot.getAccount E a' s') in
  let slotAfter (s' : Snapshot.Store) := fst (Snapshot.getStorageSlot E a' slot' s') in
  accountAfter (snd (Snapshot.putStorageSlot E a slot value s)) = accountAfter s
  /\ accountAfter (snd (Snapshot.delStorageSlot E a slot s)) = accountAfter s
  /\ accountAfter (snd (Snapshot.clearAccountStorage E a s)) = accountAfter s
  /\ slotAfter (snd (Snapshot.putAccount E a account s)) = slotAfter s
  /\ slotAfter (snd (Snapshot.delAccount E a s)) = slotAfter s.
Proof.
  intros accountAfter slotAfter. subst accountAfter slotAfter. simpl.
  rewrite !getAccount_spec, !getStorageSlot_spec. simpl.
  repeat split; f_equal.
  - unfold Snapshot.putStorageSlot. rewrite slotKey_ok. unfold Snapshot.bind at 1.
    unfold Snapshot.lift.
    destruct (save_write_db (slotKey E a slot)
                (Snapshot.LevelDB.put (slotKey E a slot) value) s) as [-> | ->];
      [reflexivity|].
    apply put_other, accountKey_not_storage.
  - unfold Snapshot.delStorageSlot. rewrite slotKey_ok. unfold Snapshot.bind at 1.
    unfold Snapshot.lift.
    destruct (save_write_db (slotKey E a slot)
                (Snapshot.LevelDB.del (slotKey E a slot)) s) as [-> | ->];
      [reflexivity|].
    apply del_other, accountKey_not_storage.
  - unfold Snapshot.clearAccountStorage. rewrite storagePrefix_ok.
    unfold Snapshot.bind at 1. unfold Snapshot.lift.
    unfold Snapshot.bind at 1. unfold Snapshot.gets.
    unfold Snapshot.bind, Snapshot.modify.
    pose proof (forEach_save_db
                  (Snapshot.LevelDB.keysByPrefix (storagePrefix E a) (Snapshot._db s)) s) as H.
    destruct (Snapshot.forEach _ _ s) as [[[]|e] s1]; simpl in *.
    + rewrite H, delByPrefix_lookup.
      destruct (decide _) as [Hp|Hp]; [|reflexivity].
      exfalso. exact (accountKey_no_storagePrefix E a a' Hp).
    + rewrite H. reflexivity.
  - unfold Snapshot.putAccount. rewrite accountKey_ok. unfold Snapshot.bind at 1.
    unfold Snapshot.lift.
    destruct (save_write_db (accountKey E a)
                (Snapshot.LevelDB.put (accountKey E a) (Snapshot.serialize E account)) s)
      as [-> | ->]; [reflexivity|].
    apply put_other. intros H. symmetry in H. exact (accountKey_not_storage E a' a slot' H).
  - unfold Snapshot.delAccount. rewrite accountKey_ok. unfold Snapshot.bind at 1.
    unfold Snapshot.lift.
    destruct (save_write_db (accountKey E a)
                (Snapshot.LevelDB.del (accountKey E a)) s) as [-> | ->]; [reflexivity|].
    apply del_other. intros H. symmetry in H. exact (accountKey_not_storage E a' a slot' H).
Qed.

Lemma slotKey_has_prefix (E : Snapshot.Externals) (a slot : Snapshot.Bytes) :
  storagePrefix E a `prefix_of` slotKey E a slot.
Proof.
  unfold storagePrefix, slotKey. exists (Snapshot.keccak256 E slot).
  rewrite <- !(assoc_L (++)). reflexivity.
Qed.

Lemma slotKey_other_prefix (E : Snapshot.Externals) (a a' slot : Snapshot.Bytes) :
  List.length (Snapshot.keccak256 E a') = List.length (Snapshot.keccak256 E a) ->
  Snapshot.keccak256 E a' <> Snapshot.keccak256 E a ->
  ~ storagePrefix E a `prefix_of` slotKey E a' slot.
Proof.
  intros Hlen Hne [k Hk]. unfold storagePrefix, slotKey in Hk.
  rewrite <- !(assoc_L (++)) in Hk. apply app_inv_head in Hk.
  apply app_inj_1 in Hk as [Hk _]; [congruence | exact Hlen].
Qed.

(** X18: with a digest function whose outputs all have the same length,
    [clearAccountStorage(address)] on a snapshot reached by any sequence of
    calls returns, after which [getStorageSlot] of the address gives
    [undefined] for every slot, and gives what it gave before for every slot
    of an address with another digest. *)
Theorem clearAccountStorage_clears_one_account (E : Snapshot.Externals)
    (db : option Snapshot.Database) (cs : list Snapshot.Call) (address : Snapshot.Bytes) :
  (forall x y,
      List.length (Snapshot.keccak256 E x) = List.length (Snapshot.keccak256 E y)) ->
  let s := Snapshot.history E db cs in
  exists s',
    Snapshot.clearAccountStorage E address s = (Ok tt, s')
    /\ (forall slot, fst (Snapshot.getStorageSlot E address slot s') = Ok None)
    /\ (forall other slot,
          Snapshot.keccak256 E other <> Snapshot.keccak256 E address ->
          fst (Snapshot.getStorageSlot E other slot s')
          = fst (Snapshot.getStorageSlot E other slot s)).
Proof.
  intros Hlen s. pose proof (history_preState E db cs) as Hpre. fold s in Hpre.
  destruct (clearAccountStorage_spec E _ address s Hpre) as (s' & Hs & Hdb & _).
  exists s'. split; [exact Hs|]. split.
  - intros slot. rewrite getStorageSlot_spec, Hdb, delByPrefix_lookup. simpl.
    destruct (decide _) as [Hp|Hp]; [reflexivity|].
    exfalso. apply Hp, slotKey_has_prefix.
  - intros other slot Hne. rewrite !getStorageSlot_spec, Hdb, delByPrefix_lookup. simpl.
    destruct (decide _) as [Hp|Hp]; [|reflexivity].
    exfalso. exact (slotKey_other_prefix E address other slot (Hlen _ _) Hne Hp).
Qed.

Lemma pad32_length (x : Snapshot.Bytes) : List.length (SnapshotScenario.pad32 x) = 32%nat.
Proof.
  unfold SnapshotScenario.pad32. rewrite length_take, length_app, length_replicate. lia.
Qed.

Lemma clearAccountStorage_clears_one_account_witness :
  exists s',
    Snapshot.clearAccountStorage SnapshotScenario.externals SnapshotScenario.alice
      (Snapshot.history SnapshotScenario.externals None SnapshotScenario.populate)
    = (Ok tt, s')
    /\ (forall slot,
          fst (Snapshot.getStorageSlot SnapshotScenario.externals SnapshotScenario.alice
                 slot s') = Ok None)
    /\ (forall other slot,
          Snapshot.keccak256 SnapshotScenario.externals other
          <> Snapshot.keccak256 SnapshotScenario.externals SnapshotScenario.alice ->
          fst (Snapshot.getStorageSlot SnapshotScenario.externals other slot s')
          = fst (Snapshot.getStorageSlot SnapshotScenario.externals other slot
                   (Snapshot.history SnapshotScenario.externals None
                      SnapshotScenario.populate))).
Proof.
  apply (clearAccountStorage_clears_one_account SnapshotScenario.externals None
           SnapshotScenario.populate SnapshotScenario.alice).
  intros x y. simpl. rewrite !pad32_length. reflexivity.
Defined.

(** X19: [clearAccount] on a snapshot reached by any sequence of calls.
    When the address has no account entry it returns and the store is the
    one from before.  When it has one, the entry is gone afterwards; if the
    entry decodes, the call returns and every storage slot of the address is
    gone too; if decoding throws, the error is passed on with the account
    entry already deleted and all storage slots still in place. *)
Theorem clearAccount_outcomes (E : Snapshot.Externals) (db : option Snapshot.Database)
    (cs : list Snapshot.Call) (address : Snapshot.Bytes) :
  let s := Snapshot.history E db cs in
  (fst (Snapshot.getAccount E address s) = Ok None ->
   Snapshot.clearAccount E address s = (Ok tt, s))
  /\ (forall raw,
        fst (Snapshot.getAccount E address s) = Ok (Some raw) ->
        let s' := snd (Snapshot.clearAccount E address s) in
        fst (Snapshot.getAccount E address s') = Ok None
        /\ match Snapshot.fromRlpSerializedAccount E raw with
           | Ok _ =>
               fst (Snapshot.clearAccount E address s) = Ok tt
               /\ forall slot, fst (Snapshot.getStorageSlot E address slot s') = Ok None
           | Throw e =>
               fst (Snapshot.clearAccount E address s) = Throw e
               /\ forall other slot,
                    fst (Snapshot.getStorageSlot E other slot s')
                    = fst (Snapshot.getStorageSlot E other slot s)
           end).
Proof.
  intros s. pose proof (history_preState E db cs) as Hpre. fold s in Hpre.
  pose proof (clearAccount_spec E _ address s Hpre) as H.
  rewrite getAccount_spec. simpl. split.
  - intros Hnone. inversion Hnone as [Hn]. rewrite Hn in H. exact H.
  - intros raw Hsome. inversion Hsome as [Hr]. rewrite Hr in H.
    destruct H as (s' & _ & H).
    destruct (Snapshot.fromRlpSerializedAccount E raw) as [account|e];
      destruct H as [Hs Hdb]; rewrite Hs; simpl; rewrite getAccount_spec, Hdb; simpl.
    + split.
      * rewrite delByPrefix_lookup. destruct (decide _); [reflexivity|].
        rewrite lookup_delete_eq. reflexivity.
      * split; [reflexivity|]. intros slot.
        rewrite getStorageSlot_spec, Hdb, delByPrefix_lookup. simpl.
        destruct (decide _) as [Hp|Hp]; [reflexivity|].
        exfalso. apply Hp, slotKey_has_prefix.
    + split; [rewrite lookup_delete_eq; reflexivity|].
      split; [reflexivity|]. intros other slot.
      rewrite !getStorageSlot_spec, Hdb. simpl. f_equal.
      apply lookup_delete_ne. intros Heq.
      exact (accountKey_not_storage E other address slot Heq).
Qed.

Lemma slotKey_inj (E : Snapshot.Externals) (a slot a' slot' : Snapshot.Bytes) :
  List.length (Snapshot.keccak256 E a) = List.length (Snapshot.keccak256 E a') ->
  slotKey E a slot = slotKey E a' slot' ->
  Snapshot.keccak256 E a = Snapshot.keccak256 E a'
  /\ Snapshot.keccak256 E slot = Snapshot.keccak256 E slot'.
Proof.
  intros Hlen Heq. unfold slotKey in Heq. apply app_inv_head in Heq.
  apply app_inj_1 in Heq; [exact Heq | exact Hlen].
Qed.

(** X17: with a digest function whose outputs all have the same length, a
    write on a snapshot reached by any sequence of calls changes only its
    own key: [putAccount] and [delAccount] of an address leave [getAccount]
    of every address with another digest as it was, and [putStorageSlot] and
    [delStorageSlot] leave [getStorageSlot] as it was for every pair of
    address and slot of which one has another digest. *)
Theorem snapshot_writes_are_local (E : Snapshot.Externals) (db : option Snapshot.Database)
    (cs : list Snapshot.Call) (address slot value : Snapshot.Bytes)
    (account : Snapshot.Account) :
  (forall x y,
      List.length (Snapshot.keccak256 E x) = List.length (Snapshot.keccak256 E y)) ->
  let s := Snapshot.history E db cs in
  (forall other,
      Snapshot.keccak256 E other <> Snapshot.keccak256 E address ->
      fst (Snapshot.getAccount E other (snd (Snapshot.putAccount E address account s)))
      = fst (Snapshot.getAccount E other s)
      /\ fst (Snapshot.getAccount E other (snd (Snapshot.delAccount E address s)))
         = fst (Snapshot.getAccount E other s))
  /\ (forall other otherSlot,
        Snapshot.keccak256 E other <> Snapshot.keccak256 E address
        \/ Snapshot.keccak256 E otherSlot <> Snapshot.keccak256 E slot ->
        fst (Snapshot.getStorageSlot E other otherSlot
               (snd (Snapshot.putStorageSlot E address slot value s)))
        = fst (Snapshot.getStorageSlot E other otherSlot s)
        /\ fst (Snapshot.getStorageSlot E other otherSlot
                  (snd (Snapshot.delStorageSlot E address slot s)))
           = fst (Snapshot.getStorageSlot E other otherSlot s)).
Proof.
  intros Hlen s. pose proof (history_preState E db cs) as Hpre. fold s in Hpre.
  split.
  - intros other Hne.
    assert (Hkey : accountKey E other <> accountKey E address).
    { unfold accountKey. intros H. apply app_inv_head in H. contradiction. }
    destruct (putAccount_spec E _ address account s Hpre) as (s1 & Hs1 & Hdb1 & _).
    destruct (delAccount_spec E _ address s Hpre) as (s2 & Hs2 & Hdb2 & _).
    rewrite Hs1, Hs2. simpl. rewrite !getAccount_spec, Hdb1, Hdb2. simpl.
    rewrite lookup_insert_ne, lookup_delete_ne by congruence. auto.
  - intros other otherSlot Hne.
    assert (Hkey : slotKey E other otherSlot <> slotKey E address slot).
    { intros H. apply slotKey_inj in H; [|apply Hlen]. destruct H, Hne; contradiction. }
    destruct (putStorageSlot_spec E _ address slot value s Hpre) as (s1 & Hs1 & Hdb1 & _).
    destruct (delStorageSlot_spec E _ address slot s Hpre) as (s2 & Hs2 & Hdb2 & _).
    rewrite Hs1, Hs2. simpl. rewrite !getStorageSlot_spec, Hdb1, Hdb2. simpl.
    rewrite lookup_insert_ne, lookup_delete_ne by congruence. auto.
Qed.

Lemma snapshot_writes_are_local_witness :
  fst (Snapshot.getAccount SnapshotScenario.externals SnapshotScenario.bob
         (snd (Snapshot.delAccount SnapshotScenario.externals SnapshotScenario.alice
                 (Snapshot.history SnapshotScenario.externals None
                    SnapshotScenario.populate))))
  = fst (Snapshot.getAccount SnapshotScenario.externals SnapshotScenario.bob
           (Snapshot.history SnapshotScenario.externals None SnapshotScenario.populate)).
Proof.
  apply (snapshot_writes_are_local SnapshotScenario.externals None SnapshotScenario.populate
           SnapshotScenario.alice SnapshotScenario.slot1 [] (SnapshotScenario.account [])).
  - intros x y. simpl. rewrite !pad32_length. reflexivity.
  - vm_compute. discriminate.
Defined.

Example clearAccount_malformed_record :
  let s := Snapshot.history SnapshotScenario.externals None SnapshotScenario.populateMalformed in
  let '(r, s') := Snapshot.clearAccount SnapshotScenario.externals SnapshotScenario.alice s in
  r = Throw "invalid RLP: empty input"
  /\ fst (Snapshot.getAccount SnapshotScenario.externals SnapshotScenario.alice s') = Ok None
  /\ fst (Snapshot.getStorageSlot SnapshotScenario.externals SnapshotScenario.alice
            SnapshotScenario.slot1 s') = Ok (Some [Byte.x11]).
Proof. vm_compute. repeat split. Qed.
